(** * telegram-export: the synchronisation engine and its helpers

    A shallow embedding of [utils.py] (message-entity codec, names of
    actions) and of [downloader.py] (media filter, entity queue, history
    paging loop, admin log, entities named in the configuration, file
    names), with the properties of the design document proved about it,
    and further properties read off the code.

    Python values are embedded as follows: [int] as [Z]; [str] as
    [string]; [None]-able values as [option]; a [set] of ints or strs as
    a [gset]; a [deque] as a [list] whose head is the left end; a raised
    exception as the [Raise] result of the [pyres] monad. *)

From Stdlib Require Import ZArith Ascii String DecimalString DecimalZ.
From stdpp Require Import base gmap sets list strings.

Local Open Scope Z_scope.
Set Warnings "-clear-no-such-hyp".

(** ** Python results: a value or a raised exception *)

Inductive exn : Type :=
| ValueError
| IndexError
| AttributeError
| AssertionError
| TypeError
| TqdmKeyError
| RPCError (name : string).

Inductive pyres (A : Type) : Type :=
| Ok (a : A)
| Raise (e : exn).
Arguments Ok {A} a.
Arguments Raise {A} e.

Definition bind {A B : Type} (m : pyres A) (k : A → pyres B) : pyres B :=
  match m with
  | Ok a => k a
  | Raise e => Raise e
  end.

Notation "x <~ m ;; k" := (bind m (λ x, k))
  (at level 100, m at next level, right associativity,
   format "'[v' x  <~  m  ;;  '/' k ']'").

(** ** Python string primitives used by the sources *)

Module PyStr.

(** [s.split(sep)] for a one-character separator: never empty. *)
Fixpoint split (sep : ascii) (s : string) : list string :=
  match s with
  | EmptyString => [EmptyString]
  | String c s' =>
      if Ascii.eqb c sep then EmptyString :: split sep s'
      else match split sep s' with
           | [] => [String c EmptyString]
           | h :: t => String c h :: t
           end
  end.

(** [sep.join(parts)]. *)
Fixpoint join (sep : ascii) (parts : list string) : string :=
  match parts with
  | [] => EmptyString
  | [p] => p
  | p :: rest => p +:+ String sep (join sep rest)
  end.

(** [s.replace(old, new)] for a one-character [old]. *)
Fixpoint replace (old : ascii) (new : string) (s : string) : string :=
  match s with
  | EmptyString => EmptyString
  | String c s' =>
      if Ascii.eqb c old then new +:+ replace old new s'
      else String c (replace old new s')
  end.

(** [c in s] for a character. *)
Fixpoint contains (c : ascii) (s : string) : bool :=
  match s with
  | EmptyString => false
  | String a s' => Ascii.eqb a c || contains c s'
  end.

(** ['{}'.format(n)] for an int: the decimal numeral, ['-'] for negatives. *)
Definition of_int (n : Z) : string := NilZero.string_of_int (Z.to_int n).

(** [int(s)] on a signed decimal numeral; anything else is a [ValueError].
    (Python also accepts surrounding blanks, a leading plus sign and
    underscores between digits; the encoder never produces them.) *)
Definition to_int (s : string) : pyres Z :=
  match NilZero.int_of_string s with
  | Some d => Ok (Z.of_int d)
  | None => Raise ValueError
  end.

(** [l[i]] for a non-negative index. *)
Definition index (l : list string) (i : nat) : pyres string :=
  match l !! i with
  | Some x => Ok x
  | None => Raise IndexError
  end.

(** [l[-1]]. *)
Definition index_last (l : list string) : pyres string :=
  match last l with
  | Some x => Ok x
  | None => Raise IndexError
  end.

End PyStr.

(** ** utils.py: the message-entity codec *)

Module Utils.

(** The entity classes of the remote schema, with their fields.
    [MessageEntityOther] stands for every class that is not a key of
    [ENTITY_TO_TEXT] (mentions, hashtags, ...). *)
Inductive MessageEntity : Type :=
| MessageEntityPre (offset length : Z) (language : string)
| MessageEntityCode (offset length : Z)
| MessageEntityBold (offset length : Z)
| MessageEntityItalic (offset length : Z)
| MessageEntityTextUrl (offset length : Z) (url : string)
| MessageEntityMentionName (offset length : Z) (user_id : Z)
| MessageEntityOther (offset length : Z).

Inductive EntityClass : Type :=
| ClsPre | ClsCode | ClsBold | ClsItalic | ClsTextUrl | ClsMentionName
| ClsOther.

Global Instance EntityClass_eq_dec : EqDecision EntityClass.
Proof. solve_decision. Defined.

Global Instance MessageEntity_eq_dec : EqDecision MessageEntity.
Proof. solve_decision. Defined.

Definition class_of (e : MessageEntity) : EntityClass :=
  match e with
  | MessageEntityPre _ _ _ => ClsPre
  | MessageEntityCode _ _ => ClsCode
  | MessageEntityBold _ _ => ClsBold
  | MessageEntityItalic _ _ => ClsItalic
  | MessageEntityTextUrl _ _ _ => ClsTextUrl
  | MessageEntityMentionName _ _ _ => ClsMentionName
  | MessageEntityOther _ _ => ClsOther
  end.

Definition offset (e : MessageEntity) : Z :=
  match e with
  | MessageEntityPre o _ _ | MessageEntityCode o _ | MessageEntityBold o _
  | MessageEntityItalic o _ | MessageEntityTextUrl o _ _
  | MessageEntityMentionName o _ _ | MessageEntityOther o _ => o
  end.

Definition length (e : MessageEntity) : Z :=
  match e with
  | MessageEntityPre _ l _ | MessageEntityCode _ l | MessageEntityBold _ l
  | MessageEntityItalic _ l | MessageEntityTextUrl _ l _
  | MessageEntityMentionName _ l _ | MessageEntityOther _ l => l
  end.

(** The two dictionaries, as association lists in source order. *)
Definition ENTITY_TO_TEXT : list (EntityClass * string) :=
  [ (ClsPre, "pre"); (ClsCode, "code"); (ClsBold, "bold");
    (ClsItalic, "italic"); (ClsTextUrl, "texturl");
    (ClsMentionName, "mentionname") ].

Definition TEXT_TO_ENTITY : list (string * EntityClass) :=
  map (λ kv, (kv.2, kv.1)) ENTITY_TO_TEXT.

Fixpoint dict_get {K V : Type} `{EqDecision K}
    (d : list (K * V)) (k : K) : option V :=
  match d with
  | [] => None
  | (k', v) :: d' => if decide (k' = k) then Some v else dict_get d' k
  end.

(** The body of the [for entity in entities] loop: what is appended to
    [parsed] for one entity. *)
Definition encode_entity (entity : MessageEntity) : list string :=
  match dict_get ENTITY_TO_TEXT (class_of entity) with
  | Some text =>
      let extra :=
        match entity with
        | MessageEntityTextUrl _ _ url =>
            "," +:+ PyStr.replace ";" "%3b" (PyStr.replace "," "%2c" url)
        | MessageEntityMentionName _ _ user_id =>
            "," +:+ PyStr.of_int user_id
        | _ => ""
        end in
      [ text +:+ "," +:+ PyStr.of_int (offset entity) +:+ ","
          +:+ PyStr.of_int (length entity) +:+ extra ]
  | None => []
  end.

Definition encode_msg_entities
    (entities : option (list MessageEntity)) : option string :=
  match entities with
  | None | Some [] => None
  | Some entities =>
      let parsed := flat_map encode_entity entities in
      Some (PyStr.join ";" parsed)
  end.

(** [cls(offset, length)]: a class called with two positional
    arguments; the classes with a third field ([language], [url],
    [user_id]) refuse the call with a [TypeError]. *)
Definition construct2 (cls : EntityClass) (offset length : Z)
    : pyres MessageEntity :=
  match cls with
  | ClsCode => Ok (MessageEntityCode offset length)
  | ClsBold => Ok (MessageEntityBold offset length)
  | ClsItalic => Ok (MessageEntityItalic offset length)
  | ClsOther => Ok (MessageEntityOther offset length)
  | ClsPre | ClsTextUrl | ClsMentionName => Raise TypeError
  end.

(** The body of the [for part in string.split(';')] loop. *)
Definition decode_part (part : string) : pyres (list MessageEntity) :=
  let split := PyStr.split "," part in
  kind <~ PyStr.index split 0 ;;
  offset <~ (s <~ PyStr.index split 1 ;; PyStr.to_int s) ;;
  length <~ (s <~ PyStr.index split 2 ;; PyStr.to_int s) ;;
  match dict_get TEXT_TO_ENTITY kind with
  | Some cls =>
      if decide (kind = "texturl") then
        url <~ PyStr.index_last split ;;
        Ok [MessageEntityTextUrl offset length url]
      else if decide (kind = "mentionname") then
        user_id <~ (s <~ PyStr.index_last split ;; PyStr.to_int s) ;;
        Ok [MessageEntityMentionName offset length user_id]
      else
        e <~ construct2 cls offset length ;;
        Ok [e]
  | None => Ok []
  end.

Fixpoint decode_parts (parts : list string) (parsed : list MessageEntity)
    : pyres (list MessageEntity) :=
  match parts with
  | [] => Ok parsed
  | part :: parts' =>
      new <~ decode_part part ;;
      decode_parts parts' (parsed ++ new)
  end.

Definition decode_msg_entities
    (string : option string) : pyres (option (list MessageEntity)) :=
  match string with
  | None | Some EmptyString => Ok None
  | Some s =>
      parsed <~ decode_parts (PyStr.split ";" s) [] ;;
      Ok (Some parsed)
  end.

End Utils.

(** ** More string primitives, used by the configuration loader *)

Module PyCfg.

(** [str.isspace] on the ASCII range. *)
Definition is_space (c : ascii) : bool :=
  let n := nat_of_ascii c in
  ((9 <=? n) && (n <=? 13) || (28 <=? n) && (n <=? 32))%nat.

Fixpoint lstrip (s : string) : string :=
  match s with
  | EmptyString => EmptyString
  | String c s' => if is_space c then lstrip s' else s
  end.

Fixpoint rstrip (s : string) : string :=
  match s with
  | EmptyString => EmptyString
  | String c s' =>
      match rstrip s' with
      | EmptyString => if is_space c then EmptyString else String c EmptyString
      | r => String c r
      end
  end.

(** [s.strip()]. *)
Definition strip (s : string) : string := rstrip (lstrip s).

Definition lower_char (c : ascii) : ascii :=
  let n := nat_of_ascii c in
  if ((65 <=? n) && (n <=? 90))%nat then ascii_of_nat (n + 32) else c.

(** [s.lower()] on the ASCII range. *)
Fixpoint lower (s : string) : string :=
  match s with
  | EmptyString => EmptyString
  | String c s' => String (lower_char c) (lower s')
  end.

(** [os.path.join(a, b)] on POSIX paths. *)
Definition path_join (a b : string) : string :=
  match b with
  | String "/" _ => b
  | _ =>
      match a with
      | EmptyString => b
      | _ => if String.eqb (String.substring (String.length a - 1) 1 a) "/"
             then a +:+ b else a +:+ "/" +:+ b
      end
  end.

End PyCfg.

(** ** downloader.py *)

Module Downloader.

(** *** The remote schema, as far as the downloader reads it *)

Inductive file_location : Type :=
| FileLocation (volume_id local_id secret : Z)
| FileLocationUnavailable.

Inductive photo_size : Type :=
| PhotoSize (location : file_location)
| PhotoSizeOther.

Inductive photo : Type :=
| Photo (id date : Z) (sizes : list photo_size)
| PhotoEmpty (id : Z).

(** What the downloader receives as a profile or chat photo. *)
Inductive profile_photo : Type :=
| UserProfilePhoto (photo_big photo_small : file_location)
| ChatPhoto (photo_big photo_small : file_location)
| FullPhoto (p : photo)
| ChatPhotoEmpty.

Inductive document_attribute : Type :=
| DocumentAttributeSticker
| DocumentAttributeVideo
| DocumentAttributeAudio (voice : bool)
| DocumentAttributeFilename (file_name : string)
| DocumentAttributeOther.

Inductive document : Type :=
| Document (id size : Z) (attributes : list document_attribute)
| DocumentEmpty (id : Z).

(** [MessageMediaOther] stands for the remaining media classes
    (geo points, contacts, web pages, ...). *)
Inductive message_media : Type :=
| MessageMediaPhoto (p : photo)
| MessageMediaDocument (d : document)
| MessageMediaOther.

(** [EntityOther] stands for [UserEmpty], [ChatEmpty], [ChatForbidden]
    and [ChannelForbidden]. *)
Inductive entity : Type :=
| User (id : Z) (deleted min : bool)
| Chat (id : Z) (chat_photo : option profile_photo)
| Channel (id : Z) (left megagroup : bool)
| EntityOther (id : Z).

Record user_full : Type := UserFull {
  uf_user : entity;
  uf_profile_photo : option profile_photo;
}.

Record chat_full : Type := ChatFull {
  cf_id : Z;
  cf_chat_photo : option profile_photo;
}.

Record fwd_header : Type := MessageFwdHeader {
  fwd_date : Z;
  fwd_from_id : option Z;
}.

Inductive message_action : Type :=
| MessageActionChatEditPhoto (p : photo)
| MessageActionOther.

(** A row of a history page: a content message, a service message, or
    anything else ([MessageEmpty], which has an id and no date). *)
Inductive message : Type :=
| Message (id date : Z) (from_id : option Z)
    (fwd_from : option fwd_header) (media : option message_media)
| MessageService (id date : Z) (action : message_action)
| MessageEmpty (id : Z).

Definition msg_id (m : message) : Z :=
  match m with
  | Message id _ _ _ _ | MessageService id _ _ | MessageEmpty id => id
  end.

(** [m.date]; [MessageEmpty] has no such attribute. *)
Definition msg_date (m : message) : pyres Z :=
  match m with
  | Message _ date _ _ _ | MessageService _ date _ => Ok date
  | MessageEmpty _ => Raise AttributeError
  end.

Record history : Type := History {
  h_messages : list message;
  h_users : list entity;
  h_chats : list entity;
  h_count : option Z;
}.

Record history_request : Type := GetHistoryRequest {
  offset_id : Z;
  offset_date : Z;
  limit : Z;
}.

(** *** The storage collaborator *)

(** Modelled from the spec: the dumper (module [dumper], not among the
    sources).  The design document gives it idempotent upserts, a
    resume-cursor store and a commit; it is modelled by the journal of
    the rows it was asked to write, oldest first, and its read
    operations are answered from that journal. *)
Inductive row : Type :=
| RowForward (fwd : fwd_header)
| RowMedia (media : message_media + profile_photo)
| RowMessage (context_id : Z) (m : message) (forward_id media_id : option Z)
| RowMessageService (context_id : Z) (m : message) (media_id : option Z)
| RowUser (full : user_full) (photo_id : option Z)
| RowChat (chat : entity) (photo_id : option Z)
| RowSupergroup (full : chat_full) (channel : entity) (photo_id : option Z)
| RowChannel (full : chat_full) (channel : entity) (photo_id : option Z)
| RowResume (context_id msg msg_date stop_at : Z)
| RowCommit.

Record Dumper : Type := mkDumper {
  chunk_size : Z;
  max_chunks : Z;
  journal : list row;
}.

Definition write (d : Dumper) (r : row) : Dumper :=
  mkDumper (chunk_size d) (max_chunks d) (journal d ++ [r]).

Definition is_media_row (r : row) : bool :=
  match r with RowMedia _ => true | _ => false end.

Definition is_forward_row (r : row) : bool :=
  match r with RowForward _ => true | _ => false end.

(** Modelled from the spec: [upsertMedia(record) -> mediaId]; nothing
    is written for an absent media, and ids are handed out in order. *)
Definition dump_media (d : Dumper)
    (media : option (message_media + profile_photo)) : option Z * Dumper :=
  match media with
  | None => (None, d)
  | Some x =>
      (Some (1 + Z.of_nat (List.length (filter is_media_row (journal d)))),
       write d (RowMedia x))
  end.

(** Modelled from the spec: the forward reference of a message is
    persisted as a foreign key. *)
Definition dump_forward (d : Dumper) (fwd : option fwd_header)
    : option Z * Dumper :=
  match fwd with
  | None => (None, d)
  | Some x =>
      (Some (1 + Z.of_nat (List.length (filter is_forward_row (journal d)))),
       write d (RowForward x))
  end.

Definition dump_message (d : Dumper) (m : message) (context_id : Z)
    (forward_id media_id : option Z) : Dumper :=
  write d (RowMessage context_id m forward_id media_id).

Definition dump_message_service (d : Dumper) (m : message) (context_id : Z)
    (media_id : option Z) : Dumper :=
  write d (RowMessageService context_id m media_id).

Definition dump_user (d : Dumper) (full : user_full) (photo_id : option Z)
    : Dumper := write d (RowUser full photo_id).

Definition dump_chat (d : Dumper) (chat : entity) (photo_id : option Z)
    : Dumper := write d (RowChat chat photo_id).

Definition dump_supergroup (d : Dumper) (full : chat_full) (e : entity)
    (photo_id : option Z) : Dumper := write d (RowSupergroup full e photo_id).

Definition dump_channel (d : Dumper) (full : chat_full) (e : entity)
    (photo_id : option Z) : Dumper := write d (RowChannel full e photo_id).

Definition commit (d : Dumper) : Dumper := write d RowCommit.

(** Modelled from the spec: [saveResumeCursor]; the offset arguments
    default to zero, so that a call giving only [stop_at] makes the next
    run start from the top again. *)
Definition save_resume (d : Dumper) (context_id : Z)
    (msg msg_date stop_at : Z) : Dumper :=
  write d (RowResume context_id msg msg_date stop_at).

Definition save_resume_stop_at (d : Dumper) (context_id stop_at : Z)
    : Dumper := save_resume d context_id 0 0 stop_at.

(** The message ids written for a context, in journal order. *)
Definition message_ids (context_id : Z) (rows : list row) : list Z :=
  flat_map (λ r,
    match r with
    | RowMessage c m _ _ | RowMessageService c m _ =>
        if decide (c = context_id) then [msg_id m] else []
    | _ => []
    end) rows.

(** The cursors written for a context, in journal order. *)
Definition resume_rows (context_id : Z) (rows : list row)
    : list (Z * Z * Z) :=
  flat_map (λ r,
    match r with
    | RowResume c msg msg_date stop_at =>
        if decide (c = context_id) then [(msg, msg_date, stop_at)] else []
    | _ => []
    end) rows.

(** Modelled from the spec: [getResumeCursor]; the last cursor written,
    or the all-zero cursor of a context never synchronised. *)
Definition get_resume (d : Dumper) (context_id : Z) : Z * Z * Z :=
  default (0, 0, 0) (last (resume_rows context_id (journal d))).

(** Modelled from the spec: [getPersistedMessageCount]; upserts are
    idempotent on id and context, so distinct ids are counted. *)
Definition get_message_count (d : Dumper) (context_id : Z) : Z :=
  Z.of_nat (List.length (remove_dups (message_ids context_id (journal d)))).

(** Modelled from the spec: the current maximum persisted message id
    ([get_message_id(context_id, 'MAX')]); zero when there is none. *)
Definition get_message_id_MAX (d : Dumper) (context_id : Z) : Z :=
  match message_ids context_id (journal d) with
  | [] => 0
  | x :: ids => foldr Z.max x ids
  end.

(** *** The media filter *)

Definition VALID_TYPES : gset string :=
  {[ "photo"; "document"; "video"; "audio"; "sticker"; "voice";
     "chatphoto" ]}.

Record Config : Type := mkConfig {
  MaxSize : Z;
  MediaWhitelist : option string;
  OutputDirectory : string;
  MediaFilenameFmt : string;
}.

(** The attributes of a [Downloader] other than its client. *)
Record DownloaderSelf : Type := mkDownloader {
  max_size : Z;
  types : gset string;
  media_fmt : string;
}.

(** The set comprehension of [__init__]. *)
Definition parse_whitelist (whitelist : option string) : gset string :=
  list_to_set
    (map (λ x, PyCfg.lower (PyCfg.strip x))
       (filter (λ x, PyCfg.strip x ≠ EmptyString)
          (PyStr.split "," (default EmptyString whitelist)))).

Definition Downloader_init (config : Config) : pyres DownloaderSelf :=
  let types := parse_whitelist (MediaWhitelist config) in
  let media_fmt :=
    PyCfg.path_join (OutputDirectory config) (MediaFilenameFmt config) in
  if decide (types ⊆ VALID_TYPES) then
    Ok (mkDownloader (MaxSize config)
          (if decide (types = ∅) then types else types ∪ {[ "unknown" ]})
          media_fmt)
  else Raise AssertionError.

(** What [_get_media_type] may return: a string or [False]. *)
Inductive pyval : Type :=
| PStr (s : string)
| PBool (b : bool).

(** [isinstance(media, types.Document)], asked of a message media:
    [Document] is the class of the payload of a [MessageMediaDocument],
    no message media is an instance of it. *)
Definition isinstance_Document (media : message_media) : bool :=
  match media with
  | MessageMediaPhoto _ | MessageMediaDocument _ | MessageMediaOther => false
  end.

(** [media.attributes], asked of a message media: the attribute lives
    on the document, not on the media. *)
Definition media_attributes (media : message_media)
    : pyres (list document_attribute) :=
  match media with
  | MessageMediaPhoto _ | MessageMediaDocument _ | MessageMediaOther =>
      Raise AttributeError
  end.

(** The [for attr in media.attributes] loop and the [return] after it. *)
Fixpoint classify_attributes (attrs : list document_attribute) : string :=
  match attrs with
  | [] => "document"
  | DocumentAttributeSticker :: _ => "sticker"
  | DocumentAttributeVideo :: _ => "video"
  | DocumentAttributeAudio voice :: _ => if voice then "voice" else "audio"
  | _ :: attrs' => classify_attributes attrs'
  end.

Definition _get_media_type (media : option message_media) : pyres pyval :=
  match media with
  | None => Ok (PStr "")
  | Some m =>
      match m with
      | MessageMediaPhoto _ => Ok (PStr "photo")
      | MessageMediaDocument _ =>
          if negb (isinstance_Document m) then Ok (PBool false)
          else attrs <~ media_attributes m ;;
               Ok (PStr (classify_attributes attrs))
      | MessageMediaOther => Ok (PStr "unknown")
      end
  end.

(** [not x], for a value that is [None] or an object. *)
Definition py_not {A : Type} (x : option A) : bool :=
  match x with
  | None => true
  | Some _ => false
  end.

(** [v in self.types], for a set of strings. *)
Definition pyval_in (v : pyval) (s : gset string) : bool :=
  match v with
  | PStr x => bool_decide (x ∈ s)
  | PBool _ => false
  end.

Definition check_media (self : DownloaderSelf)
    (media : option message_media) : pyres bool :=
  if py_not media || bool_decide (max_size self = 0) then Ok false
  else if bool_decide (types self = ∅) then Ok true
  else t <~ _get_media_type media ;; Ok (pyval_in t (types self)).

(** *** The remote session and the naming policy *)

(** The remote calls the downloader issues; each may raise. *)
Record Client : Type := mkClient {
  GetFullUserRequest : entity → pyres user_full;
  GetFullChannelRequest : entity → pyres chat_full;
  download_file : Z → Z → Z → string → pyres unit;
  client_download_media : message_media → string → pyres (option string);
  GetHistory : history_request → pyres history;
}.

(** The file-name templating of saved media and photos, which the
    downloader treats as given. *)
Record Naming : Type := mkNaming {
  photo_filename : string → Z → entity → string;
  media_filename : string → message → Z → string;
}.

Section WithSession.

Variable get_peer_id : entity → Z.
Variable client : Client.
Variable naming : Naming.

(** *** _EntityDownloader *)

(** The attributes of an [_EntityDownloader] other than its client and
    its dumper; the dumper is the one [save_messages] writes to and is
    threaded through every call. *)
Record EntityDownloader : Type := mkEntityDownloader {
  photo_fmt : option string;
  _pending : list entity;
  _pending_ids : gset Z;
  _dumped_ids : gset Z;
}.

Definition EntityDownloader_init (photo_fmt : option string)
    : EntityDownloader :=
  mkEntityDownloader photo_fmt [] ∅ ∅.

Definition dumped_count (self : EntityDownloader) : Z :=
  Z.of_nat (size (_dumped_ids self)).

Definition total_count (self : EntityDownloader) : Z :=
  Z.of_nat (size (_pending_ids self)) + Z.of_nat (size (_dumped_ids self)).

(** [__len__] and [__bool__]. *)
Definition len (self : EntityDownloader) : Z :=
  Z.of_nat (List.length (_pending self)).

Definition nonempty (self : EntityDownloader) : bool :=
  match _pending self with
  | [] => false
  | _ :: _ => true
  end.

(** The first [PhotoSize] of the list whose location is a
    [FileLocation] (the [for] ... [else] of [download_profile_photo]). *)
Fixpoint first_location (sizes : list photo_size)
    : option (Z * Z * Z) :=
  match sizes with
  | [] => None
  | PhotoSize (FileLocation v l s) :: _ => Some (v, l, s)
  | _ :: sizes' => first_location sizes'
  end.

Definition big_or_small (photo_big photo_small : file_location)
    : option (Z * Z * Z) :=
  match photo_big, photo_small with
  | FileLocation v l s, _ => Some (v, l, s)
  | _, FileLocation v l s => Some (v, l, s)
  | _, _ => None
  end.

Definition download_profile_photo (self : EntityDownloader)
    (photo : option profile_photo) (target : entity) (known_id : option Z)
    : pyres unit :=
  match photo_fmt self with
  | None | Some EmptyString => Ok tt
  | Some fmt =>
      let found :=
        match photo with
        | Some (UserProfilePhoto big small) | Some (ChatPhoto big small) =>
            option_map (λ loc, (loc, known_id)) (big_or_small big small)
        | Some (FullPhoto (Photo id _ sizes)) =>
            option_map (λ loc, (loc, Some (default id known_id)))
              (first_location sizes)
        | _ => None
        end in
      match found with
      | None => Ok tt
      | Some ((v, l, s), known_id) =>
          let known_id := default (get_peer_id target) known_id in
          download_file client v l s (photo_filename naming fmt known_id target)
      end
  end.

Definition _dump_entity (self : EntityDownloader) (d : Dumper)
    (e : entity) : pyres (Z * EntityDownloader * Dumper) :=
  let eid := get_peer_id e in
  r <~ match e with
       | User _ _ _ =>
           full <~ GetFullUserRequest client e ;;
           let '(photo_id, d) :=
             dump_media d (inr <$> uf_profile_photo full) in
           let d := dump_user d full photo_id in
           _ <~ download_profile_photo self (uf_profile_photo full) e None ;;
           Ok (1, d)
       | Chat _ chat_photo =>
           let '(photo_id, d) := dump_media d (inr <$> chat_photo) in
           let d := dump_chat d e photo_id in
           _ <~ download_profile_photo self chat_photo e None ;;
           Ok (0, d)
       | Channel _ _ megagroup =>
           full <~ GetFullChannelRequest client e ;;
           let '(photo_id, d) :=
             dump_media d (inr <$> cf_chat_photo full) in
           let d := if megagroup then dump_supergroup d full e photo_id
                    else dump_channel d full e photo_id in
           _ <~ download_profile_photo self (cf_chat_photo full) e None ;;
           Ok (1, d)
       | EntityOther _ => Ok (1, d)
       end ;;
  let '(needed_sleep, d) := r in
  Ok (needed_sleep,
      mkEntityDownloader (photo_fmt self) (_pending self)
        (_pending_ids self ∖ {[ eid ]}) ({[ eid ]} ∪ _dumped_ids self),
      d).

(** The body of the [for entity in entities] loop of [extend_pending]. *)
Definition offer_one (self : EntityDownloader) (d : Dumper) (e : entity)
    : pyres (EntityDownloader * Dumper) :=
  let enqueue :=
    let eid := get_peer_id e in
    if bool_decide (eid ∉ _dumped_ids self)
       && negb (bool_decide (eid ∈ _pending_ids self))
    then Ok (mkEntityDownloader (photo_fmt self) (_pending self ++ [e])
               ({[ eid ]} ∪ _pending_ids self) (_dumped_ids self), d)
    else Ok (self, d) in
  match e with
  | User _ deleted min =>
      if deleted || min then Ok (self, d) else enqueue
  | Chat _ _ =>
      r <~ _dump_entity self d e ;;
      let '(_, self, d) := r in Ok (self, d)
  | Channel _ has_left _ =>
      if has_left then Ok (self, d) else enqueue
  | EntityOther _ => Ok (self, d)
  end.

Fixpoint extend_pending (self : EntityDownloader) (d : Dumper)
    (entities : list entity) : pyres (EntityDownloader * Dumper) :=
  match entities with
  | [] => Ok (self, d)
  | e :: entities' =>
      r <~ offer_one self d e ;;
      let '(self, d) := r in extend_pending self d entities'
  end.

(** [pop_pending]; the progress bar is not modelled. *)
Definition pop_pending (self : EntityDownloader) (d : Dumper)
    : pyres (Z * EntityDownloader * Dumper) :=
  match _pending self with
  | e :: rest =>
      _dump_entity
        (mkEntityDownloader (photo_fmt self) rest
           (_pending_ids self) (_dumped_ids self)) d e
  | [] => Ok (0, self, d)
  end.

(** *** Downloader.download_media and Downloader.save_messages *)

Variable self : DownloaderSelf.

(** [download_media]; the formatter and the directory creation are
    folded into the naming policy and the client call. *)
Definition download_media (msg : message) (target_id : Z)
    : pyres (option string) :=
  match msg with
  | Message _ _ _ _ (Some media) =>
      match media with
      | MessageMediaPhoto (PhotoEmpty _) => Ok None
      | MessageMediaDocument (DocumentEmpty _) => Ok None
      | MessageMediaPhoto _ | MessageMediaDocument _ =>
          client_download_media client media
            (media_filename naming (media_fmt self) msg target_id)
      | MessageMediaOther => Ok None
      end
  | _ => Ok None
  end.

(** The body of the [for m in history.messages] loop. *)
Definition dump_page_message (ed : EntityDownloader) (target : entity)
    (target_id : Z) (d : Dumper) (m : message) : pyres Dumper :=
  match m with
  | Message _ _ _ fwd_from media =>
      wanted <~ check_media self media ;;
      _ <~ (if wanted then download_media m target_id else Ok None) ;;
      let '(fwd_id, d) := dump_forward d fwd_from in
      let '(media_id, d) := dump_media d (inl <$> media) in
      Ok (dump_message d m target_id fwd_id media_id)
  | MessageService _ _ action =>
      match action with
      | MessageActionChatEditPhoto p =>
          let '(media_id, d) := dump_media d (Some (inr (FullPhoto p))) in
          _ <~ download_profile_photo ed (Some (FullPhoto p)) target
                 (Some (msg_id m)) ;;
          Ok (dump_message_service d m target_id media_id)
      | MessageActionOther =>
          Ok (dump_message_service d m target_id None)
      end
  | MessageEmpty _ => Ok d
  end.

Fixpoint dump_page (ed : EntityDownloader) (target : entity)
    (target_id : Z) (d : Dumper) (ms : list message) : pyres Dumper :=
  match ms with
  | [] => Ok d
  | m :: ms' =>
      d <~ dump_page_message ed target target_id d m ;;
      dump_page ed target target_id d ms'
  end.

(** [min(...)] over the values of a generator, taken in order. *)
Definition py_min (xs : list Z) : pyres Z :=
  match xs with
  | [] => Raise ValueError
  | x :: xs' => Ok (foldl Z.min x xs')
  end.

Fixpoint dates_of (ms : list message) : pyres (list Z) :=
  match ms with
  | [] => Ok []
  | m :: ms' =>
      x <~ msg_date m ;;
      xs <~ dates_of ms' ;;
      Ok (x :: xs)
  end.

(** The variables of [save_messages] that change from page to page. *)
Record LoopState : Type := mkLoop {
  req : history_request;
  stop_at : Z;
  chunks_left : Z;
  found : Z;
  entity_downloader : EntityDownloader;
  dumper : Dumper;
}.

Inductive flow : Type :=
| Continue
| Break.

(** The tail of the loop body, from [if len(history.messages) <
    req.limit] on: the three ways out and the way round. *)
Definition end_of_page (target_id : Z) (n_messages : Z) (st : LoopState)
    : LoopState * flow :=
  let d := dumper st in
  if bool_decide (n_messages < limit (req st)) then
    let max_msg_id := get_message_id_MAX d target_id in
    (mkLoop (req st) (stop_at st) (chunks_left st) (found st)
       (entity_downloader st) (save_resume_stop_at d target_id max_msg_id),
     Break)
  else if bool_decide (offset_id (req st) ≤ stop_at st) then
    let max_msg_id := get_message_id_MAX d target_id in
    (mkLoop (req st) (stop_at st) (chunks_left st) (found st)
       (entity_downloader st) (save_resume_stop_at d target_id max_msg_id),
     Break)
  else
    let d := save_resume d target_id (offset_id (req st))
               (offset_date (req st)) (stop_at st) in
    let chunks_left := chunks_left st - 1 in
    if bool_decide (chunks_left = 0) then
      (mkLoop (req st) (stop_at st) chunks_left (found st)
         (entity_downloader st) d, Break)
    else
      (mkLoop (req st) (stop_at st) chunks_left (found st)
         (entity_downloader st) (commit d), Continue).

(** The head of the loop body, up to [pbar.update]: fetch a page, feed
    the entity queue, dump the messages, move the offset.  Returns the
    number of messages of the page and the variables as they stand. *)
Definition process_page (target : entity) (st : LoopState)
    : pyres (Z * LoopState) :=
  let target_id := get_peer_id target in
  h <~ GetHistory client (req st) ;;
  r <~ extend_pending (entity_downloader st) (dumper st)
         (h_users h ++ h_chats h) ;;
  let '(ed, d) := r in
  r <~ pop_pending ed d ;;
  let '(_, ed, d) := r in
  d <~ dump_page ed target target_id d (h_messages h) ;;
  let n_messages := Z.of_nat (List.length (h_messages h)) in
  let total_messages := default n_messages (h_count h) in
  r <~ match h_messages h with
       | [] => Ok (found st, req st)
       | _ :: _ =>
           let found := Z.min (found st + n_messages) total_messages in
           new_id <~ py_min (map msg_id (h_messages h)) ;;
           new_date <~ (ds <~ dates_of (h_messages h) ;; py_min ds) ;;
           Ok (found, GetHistoryRequest new_id new_date (limit (req st)))
       end ;;
  let '(found, req) := r in
  Ok (n_messages, mkLoop req (stop_at st) (chunks_left st) found ed d).

(** One turn of the [while True] loop; sleeping and the progress bars
    are not modelled. *)
Definition loop_body (target : entity) (st : LoopState)
    : pyres (LoopState * flow) :=
  r <~ process_page target st ;;
  let '(n_messages, st) := r in
  Ok (end_of_page (get_peer_id target) n_messages st).

(** The [while True] loop, for at most [fuel] pages: [Break] when the
    loop was left, [Continue] when it would fetch a further page. *)
Fixpoint paging (fuel : nat) (target : entity) (st : LoopState)
    : pyres (LoopState * flow) :=
  match fuel with
  | O => Ok (st, Continue)
  | S fuel' =>
      r <~ loop_body target st ;;
      match r with
      | (st', Break) => Ok (st', Break)
      | (st', Continue) => paging fuel' target st'
      end
  end.

(** The final [while entity_downloader] loop. *)
Fixpoint drain (fuel : nat) (ed : EntityDownloader) (d : Dumper)
    : pyres (EntityDownloader * Dumper) :=
  match fuel with
  | O => Ok (ed, d)
  | S fuel' =>
      if nonempty ed then
        r <~ pop_pending ed d ;;
        let '(_, ed, d) := r in drain fuel' ed (commit d)
      else Ok (ed, d)
  end.

(** The state in which [save_messages] enters its loop.  The target is
    given resolved; the optional listing of participants, which only
    writes to a table of its own, is not modelled. *)
Definition save_messages_init (d : Dumper) (target : entity)
    : pyres LoopState :=
  let target_id := get_peer_id target in
  let ed := EntityDownloader_init
              (if bool_decide ("chatphoto" ∈ types self)
               then Some (media_fmt self) else None) in
  r <~ extend_pending ed d [target] ;;
  let '(ed, d) := r in
  let '(offset_id, offset_date, stop_at) := get_resume d target_id in
  let found := get_message_count d target_id in
  Ok (mkLoop (GetHistoryRequest offset_id offset_date (chunk_size d))
        stop_at (max_chunks d) found ed d).

(** [save_messages], with a bound on the pages fetched: [None] when the
    bound was reached before the loop was left. *)
Definition save_messages (fuel : nat) (d : Dumper) (target : entity)
    : pyres (option (EntityDownloader * Dumper)) :=
  st <~ save_messages_init d target ;;
  r <~ paging fuel target st ;;
  match r with
  | (st, Break) =>
      let d := commit (dumper st) in
      let ed := entity_downloader st in
      r <~ drain (List.length (_pending ed)) ed d ;;
      Ok (Some r)
  | (_, Continue) => Ok None
  end.

End WithSession.

End Downloader.

(** ** A simulated remote, for the scenarios of the design document *)

Module Sim.
Import Downloader.

(** Peer ids as the remote library marks them: users keep their id,
    basic groups are negated, channels are negated past [10^12]. *)
Definition mark_peer_id (e : entity) : Z :=
  match e with
  | User id _ _ => id
  | Chat id _ => - id
  | Channel id _ _ => - (1000000000000 + id)
  | EntityOther id => id
  end.

(** A conversation holding the given message ids, newest first: a page
    is made of the first [limit] ids below the offset (all ids when the
    offset is zero); every message is dated by its id. *)
Definition history_of (ids : list Z) (r : history_request) : history :=
  let below :=
    filter (λ i, offset_id r = 0 ∨ i < offset_id r) ids in
  History
    (map (λ i, Message i i None None None) (take (Z.to_nat (limit r)) below))
    [] [] (Some (Z.of_nat (List.length ids))).

(** A remote whose every call succeeds; media downloads yield a file
    named after the requested path. *)
Definition steady_client (pages : history_request → history) : Client :=
  mkClient
    (λ e, Ok (UserFull e None))
    (λ e, Ok (ChatFull 0 None))
    (λ _ _ _ _, Ok tt)
    (λ _ path, Ok (Some path))
    (λ r, Ok (pages r)).


(** The same remote, except that every media download raises. *)
Definition failing_client (pages : history_request → history) : Client :=
  mkClient
    (λ e, Ok (UserFull e None))
    (λ e, Ok (ChatFull 0 None))
    (λ _ _ _ _, Ok tt)
    (λ _ _, Raise (RPCError "MediaDownloadFailure"))
    (λ r, Ok (pages r)).

Definition plain_naming : Naming :=
  mkNaming (λ fmt _ _, fmt) (λ fmt _ _, fmt).

(** Ids [hi, hi-1, ..., lo]. *)
Definition ids_down (hi lo : Z) : list Z :=
  reverse (seqZ lo (hi - lo + 1)).

Definition all_media : DownloaderSelf := mkDownloader 1 ∅ "out".

Definition fresh_dumper (chunk_size max_chunks : Z) : Dumper :=
  mkDumper chunk_size max_chunks [].

(** A running example: a private dialog with user 7 holding messages
    5, 4, 3, 2, 1, archived from scratch in pages of two. *)
Definition me : entity := User 7 false false.

Definition text (id : Z) : message := Message id id None None None.

Definition start5 : LoopState :=
  mkLoop (GetHistoryRequest 0 0 2) 0 0 0
    (mkEntityDownloader None [me] {[ 7 ]} ∅) (fresh_dumper 2 0).

(** The variables after the first page has been processed, before the
    exits are tried. *)
Definition page1_5 : LoopState :=
  mkLoop (GetHistoryRequest 4 4 2) 0 0 2
    (mkEntityDownloader None [] ∅ {[ 7 ]})
    (mkDumper 2 0
       [ RowUser (UserFull me None) None;
         RowMessage 7 (text 5) None None;
         RowMessage 7 (text 4) None None ]).

(** The variables when the loop is left, after three pages. *)
Definition end5 : LoopState :=
  mkLoop (GetHistoryRequest 1 1 2) 0 (-2) 5
    (mkEntityDownloader None [] ∅ {[ 7 ]})
    (mkDumper 2 0
       [ RowUser (UserFull me None) None;
         RowMessage 7 (text 5) None None;
         RowMessage 7 (text 4) None None;
         RowResume 7 4 4 0; RowCommit;
         RowMessage 7 (text 3) None None;
         RowMessage 7 (text 2) None None;
         RowResume 7 2 2 0; RowCommit;
         RowMessage 7 (text 1) None None;
         RowResume 7 0 0 5 ]).

(** A second example: messages 2 and 1 were archived by an earlier run
    that left stop-at 2; messages 4 and 3 have arrived since. *)
Definition prior2 : Dumper :=
  mkDumper 2 0
    [ RowMessage 7 (text 2) None None;
      RowMessage 7 (text 1) None None;
      RowResume 7 0 0 2 ].

(** The variables with which the second run enters its loop. *)
Definition start_again : LoopState :=
  mkLoop (GetHistoryRequest 0 0 2) 2 0 2
    (mkEntityDownloader None [me] {[ 7 ]} ∅) prior2.

(** After its first page, [4; 3], before the exits are tried. *)
Definition page1_again : LoopState :=
  mkLoop (GetHistoryRequest 3 3 2) 2 0 4
    (mkEntityDownloader None [] ∅ {[ 7 ]})
    (mkDumper 2 0
       (journal prior2 ++
        [ RowUser (UserFull me None) None;
          RowMessage 7 (text 4) None None;
          RowMessage 7 (text 3) None None ])).

(** As it goes round for a second page. *)
Definition next_again : LoopState :=
  mkLoop (GetHistoryRequest 3 3 2) 2 (-1) 4
    (mkEntityDownloader None [] ∅ {[ 7 ]})
    (mkDumper 2 0
       (journal prior2 ++
        [ RowUser (UserFull me None) None;
          RowMessage 7 (text 4) None None;
          RowMessage 7 (text 3) None None;
          RowResume 7 3 3 2; RowCommit ])).

(** After its second page, [2; 1], before the exits are tried. *)
Definition page2_again : LoopState :=
  mkLoop (GetHistoryRequest 1 1 2) 2 (-1) 4
    (mkEntityDownloader None [] ∅ {[ 7 ]})
    (mkDumper 2 0
       (journal prior2 ++
        [ RowUser (UserFull me None) None;
          RowMessage 7 (text 4) None None;
          RowMessage 7 (text 3) None None;
          RowResume 7 3 3 2; RowCommit;
          RowMessage 7 (text 2) None None;
          RowMessage 7 (text 1) None None ])).

(** The dumper when the second run returns. *)
Definition again_end : Dumper :=
  mkDumper 2 0
    (journal prior2 ++
     [ RowUser (UserFull me None) None;
       RowMessage 7 (text 4) None None;
       RowMessage 7 (text 3) None None;
       RowResume 7 3 3 2; RowCommit;
       RowMessage 7 (text 2) None None;
       RowMessage 7 (text 1) None None;
       RowResume 7 0 0 4; RowCommit ]).

(** A message with a photo attached, and a remote whose history is
    that message. *)
Definition snapshot : message :=
  Message 5 5 None None (Some (MessageMediaPhoto (Photo 1 1 []))).

Definition one_snapshot (r : history_request) : history :=
  History [snapshot] [] [] None.

End Sim.

(** ** Predicates used in the statements about the codec *)

(** A decimal numeral holds digits and at most a leading minus sign. *)
Definition is_numeral_char (c : ascii) : bool :=
  PyStr.contains c "-0123456789".

(** An entity whose class is a key of [ENTITY_TO_TEXT]. *)
Definition supported (e : Utils.MessageEntity) : Prop :=
  is_Some (Utils.dict_get Utils.ENTITY_TO_TEXT (Utils.class_of e)).

(** A text-url entity whose URL holds neither a comma nor a semicolon;
    any other entity. *)
Definition url_plain (e : Utils.MessageEntity) : Prop :=
  match e with
  | Utils.MessageEntityTextUrl _ _ url =>
      PyStr.contains "," url = false ∧ PyStr.contains ";" url = false
  | _ => True
  end.

(** What an entity comes back as: its URL keeps the escapes. *)
Definition escaped (e : Utils.MessageEntity) : Utils.MessageEntity :=
  match e with
  | Utils.MessageEntityTextUrl o l url =>
      Utils.MessageEntityTextUrl o l
        (PyStr.replace ";" "%3b" (PyStr.replace "," "%2c" url))
  | _ => e
  end.

(** A preformatted block: the one encodable class, besides the two the
    decoder builds itself, whose constructor takes a third argument. *)
Definition is_pre (e : Utils.MessageEntity) : bool :=
  match e with
  | Utils.MessageEntityPre _ _ _ => true
  | _ => false
  end.

(** ** Predicates used in the statements about the media filter *)

(** The fixed taxonomy of media types. *)
Definition taxonomy : gset string :=
  Downloader.VALID_TYPES ∪ {[ "unknown" ]}.

Definition is_document_media (m : Downloader.message_media) : bool :=
  match m with
  | Downloader.MessageMediaDocument _ => true
  | _ => false
  end.

(** ** Predicates used in the statements about the entity queue *)

Section QueueStatements.
Import Downloader.

Variable get_peer_id : entity → Z.
Variable client : Client.
Variable naming : Naming.

(** The two operations of the queue, as a caller issues them. *)
Inductive queue_op : Type :=
| Offer (entities : list entity)
| PopOne.

Definition run_op (q : EntityDownloader * Dumper) (op : queue_op)
    : pyres (EntityDownloader * Dumper) :=
  match op with
  | Offer entities =>
      extend_pending get_peer_id client naming q.1 q.2 entities
  | PopOne =>
      r <~ pop_pending get_peer_id client naming q.1 q.2 ;;
      Ok (r.1.2, r.2)
  end.

Fixpoint run_ops (ops : list queue_op) (q : EntityDownloader * Dumper)
    : pyres (EntityDownloader * Dumper) :=
  match ops with
  | [] => Ok q
  | op :: ops' => q' <~ run_op q op ;; run_ops ops' q'
  end.

(** Every entity offered by a sequence of operations. *)
Definition offered (ops : list queue_op) : list entity :=
  flat_map (λ op, match op with Offer es => es | PopOne => [] end) ops.

Definition is_chat (e : entity) : bool :=
  match e with Chat _ _ => true | _ => false end.

Definition is_user_or_channel (e : entity) : bool :=
  match e with User _ _ _ | Channel _ _ _ => true | _ => false end.

(** Peer ids tell basic groups from users and channels: no basic group
    of the list has the peer id of a user or channel of the list. *)
Definition chats_apart (es : list entity) : Prop :=
  ∀ c e, c ∈ es → e ∈ es → is_chat c = true →
         is_user_or_channel e = true → get_peer_id c ≠ get_peer_id e.

(** The entities [extend_pending] passes over: empty and forbidden
    ones, deleted or minimally-known users, channels that were left. *)
Definition dropped (e : entity) : bool :=
  match e with
  | User _ deleted min => deleted || min
  | Chat _ _ => false
  | Channel _ has_left _ => has_left
  | EntityOther _ => true
  end.

(** The rows a basic group is dumped as: its photo, when it has one,
    and the group itself, referring to the photo by the media id the
    dumper hands out. *)
Definition chat_rows (c : entity) (d : Dumper) : list row :=
  match c with
  | Chat _ (Some p) =>
      [RowMedia (inr p); RowChat c (dump_media d (Some (inr p))).1]
  | Chat _ None => [RowChat c None]
  | _ => []
  end.

(** A decidable form of [chats_apart]. *)
Definition chats_apartb (es : list entity) : bool :=
  forallb (λ c, forallb (λ e,
    negb (is_chat c && is_user_or_channel e
          && (get_peer_id c =? get_peer_id e))) es) es.

(** The bookkeeping of the queue is consistent: the deque holds users
    and channels of [universe] with pairwise distinct peer ids, the
    pending ids are exactly the peer ids of the deque, and no pending
    id is a dumped id. *)
Definition queue_inv (universe : list entity) (ed : EntityDownloader)
    : Prop :=
  NoDup (get_peer_id <$> _pending ed)
  ∧ _pending_ids ed = list_to_set (get_peer_id <$> _pending ed)
  ∧ _pending_ids ed ## _dumped_ids ed
  ∧ Forall (λ e, is_user_or_channel e = true ∧ e ∈ universe) (_pending ed).

(** A remote whose entity lookups and photo downloads never raise. *)
Definition entity_calls_succeed : Prop :=
  (∀ e, ∃ full, GetFullUserRequest client e = Ok full)
  ∧ (∀ e, ∃ full, GetFullChannelRequest client e = Ok full)
  ∧ (∀ v l s path, download_file client v l s path = Ok tt).

End QueueStatements.

(** Two batches of queue operations, used as a running example. *)
Definition first_batch : list queue_op :=
  [ Offer [ Downloader.User 1 false false; Downloader.Chat 2 None;
            Downloader.Channel 3 false true; Downloader.Channel 4 true false;
            Downloader.User 1 false false; Downloader.User 5 true false ];
    PopOne ].

Definition second_batch : list queue_op :=
  [ Offer [ Downloader.User 1 false false; Downloader.User 6 false false ];
    PopOne ].

(** ** Predicates used in the statements about the paging loop *)

Section PagingStatements.
Import Downloader.

Variable client : Client.

(** A row that is neither a message nor a resume cursor. *)
Definition quiet_row (r : row) : bool :=
  match r with
  | RowMessage _ _ _ _ | RowMessageService _ _ _ | RowResume _ _ _ _ => false
  | _ => true
  end.

(** [d'] is [d] after some more rows, whose messages for the context are
    [ids], in this order, and which hold no cursor of the context. *)
Definition adds (context_id : Z) (ids : list Z) (d d' : Dumper) : Prop :=
  ∃ rows,
    d' = mkDumper (chunk_size d) (max_chunks d) (journal d ++ rows)
    ∧ message_ids context_id rows = ids
    ∧ resume_rows context_id rows = [].

(** The ids of the rows of a page that are persisted: those of content
    and service messages. *)
Definition persisted_ids (ms : list message) : list Z :=
  flat_map (λ m, match m with
                 | MessageEmpty _ => []
                 | _ => [msg_id m]
                 end) ms.

(** The contract of the remote history: message ids are positive, and a
    page asked for below a non-zero offset holds only ids below it. *)
Definition newest_first_remote : Prop :=
  ∀ r h, GetHistory client r = Ok h →
    Forall (λ m, 0 < msg_id m ∧ (offset_id r ≠ 0 → msg_id m < offset_id r))
      (h_messages h).

(** The stop-at of the stored cursor is not above the highest message id
    stored: it was written as that maximum, and rows are never deleted. *)
Definition stop_at_persisted (d : Dumper) (context_id : Z) : Prop :=
  (get_resume d context_id).2 ≤ get_message_id_MAX d context_id.

(** From one persisted cursor to the next: the offset does not grow and
    the stop-at does not shrink. *)
Definition cursor_step (c1 c2 : Z * Z * Z) : Prop :=
  c2.1.1 ≤ c1.1.1 ∧ c1.2 ≤ c2.2.

Definition monotone_cursors (cs : list (Z * Z * Z)) : Prop :=
  ∀ i c1 c2, cs !! i = Some c1 → cs !! S i = Some c2 → cursor_step c1 c2.


End PagingStatements.

(** ** Further predicates about the codec *)

(** An entity the encoder writes out: one whose class is a key of
    [ENTITY_TO_TEXT]. *)
Definition codec_keeps (e : Utils.MessageEntity) : bool :=
  match Utils.dict_get Utils.ENTITY_TO_TEXT (Utils.class_of e) with
  | Some _ => true
  | None => false
  end.

(** ** utils.py: the names of actions *)

Module Actions.

(** The class of an action object: the message actions and admin-log
    actions [action_to_name] knows, and [OtherAction] for every other
    class. *)
Inductive action_class : Type :=
| MessageActionChannelCreate
| MessageActionChannelMigrateFrom
| MessageActionChatAddUser
| MessageActionChatCreate
| MessageActionChatDeletePhoto
| MessageActionChatDeleteUser
| MessageActionChatEditPhoto
| MessageActionChatEditTitle
| MessageActionChatJoinedByLink
| MessageActionChatMigrateTo
| MessageActionCustomAction
| MessageActionEmpty
| MessageActionGameScore
| MessageActionHistoryClear
| MessageActionPaymentSent
| MessageActionPaymentSentMe
| MessageActionPhoneCall
| MessageActionPinMessage
| MessageActionScreenshotTaken
| ChannelAdminLogEventActionChangeAbout
| ChannelAdminLogEventActionChangePhoto
| ChannelAdminLogEventActionChangeStickerSet
| ChannelAdminLogEventActionChangeTitle
| ChannelAdminLogEventActionChangeUsername
| ChannelAdminLogEventActionDeleteMessage
| ChannelAdminLogEventActionEditMessage
| ChannelAdminLogEventActionParticipantInvite
| ChannelAdminLogEventActionParticipantJoin
| ChannelAdminLogEventActionParticipantLeave
| ChannelAdminLogEventActionParticipantToggleAdmin
| ChannelAdminLogEventActionParticipantToggleBan
| ChannelAdminLogEventActionToggleInvites
| ChannelAdminLogEventActionTogglePreHistoryHidden
| ChannelAdminLogEventActionToggleSignatures
| ChannelAdminLogEventActionUpdatePinned
| OtherAction.

Global Instance action_class_eq_dec : EqDecision action_class.
Proof. solve_decision. Defined.

(** The dictionary literal of [action_to_name], in source order. *)
Definition ACTION_NAMES : list (action_class * string) :=
  [ (MessageActionChannelCreate, "channel.create");
    (MessageActionChannelMigrateFrom, "channel.migratefrom");
    (MessageActionChatAddUser, "chat.adduser");
    (MessageActionChatCreate, "chat.create");
    (MessageActionChatDeletePhoto, "chat.deletephoto");
    (MessageActionChatDeleteUser, "chat.deleteuser");
    (MessageActionChatEditPhoto, "chat.editphoto");
    (MessageActionChatEditTitle, "chat.edittitle");
    (MessageActionChatJoinedByLink, "chat.joinedbylink");
    (MessageActionChatMigrateTo, "chat.migrateto");
    (MessageActionCustomAction, "custom");
    (MessageActionEmpty, "empty");
    (MessageActionGameScore, "game.score");
    (MessageActionHistoryClear, "history.clear");
    (MessageActionPaymentSent, "payment.sent");
    (MessageActionPaymentSentMe, "payment.sentme");
    (MessageActionPhoneCall, "phone.call");
    (MessageActionPinMessage, "pin.message");
    (MessageActionScreenshotTaken, "screenshottaken");
    (ChannelAdminLogEventActionChangeAbout, "change.about");
    (ChannelAdminLogEventActionChangePhoto, "change.photo");
    (ChannelAdminLogEventActionChangeStickerSet, "change.stickerset");
    (ChannelAdminLogEventActionChangeTitle, "change.title");
    (ChannelAdminLogEventActionChangeUsername, "change.username");
    (ChannelAdminLogEventActionDeleteMessage, "delete.message");
    (ChannelAdminLogEventActionEditMessage, "edit.message");
    (ChannelAdminLogEventActionParticipantInvite, "participant.invite");
    (ChannelAdminLogEventActionParticipantJoin, "participant.join");
    (ChannelAdminLogEventActionParticipantLeave, "participant.leave");
    (ChannelAdminLogEventActionParticipantToggleAdmin, "participant.toggleadmin");
    (ChannelAdminLogEventActionParticipantToggleBan, "participant.toggleban");
    (ChannelAdminLogEventActionToggleInvites, "toggle.invites");
    (ChannelAdminLogEventActionTogglePreHistoryHidden, "toggle.prehistoryhidden");
    (ChannelAdminLogEventActionToggleSignatures, "toggle.signatures");
    (ChannelAdminLogEventActionUpdatePinned, "update.pinned") ].

(** [action_to_name(action)], for an action of the given class:
    [dict.get(type(action), None)]. *)
Definition action_to_name (cls : action_class) : option string :=
  Utils.dict_get ACTION_NAMES cls.

End Actions.

(** ** Further predicates about the media filter and the downloads *)

(** A content message whose media is a photo or a document that is not
    empty: what [download_media] passes on to the remote. *)
Definition downloadable (m : Downloader.message) : bool :=
  match m with
  | Downloader.Message _ _ _ _
      (Some (Downloader.MessageMediaPhoto (Downloader.Photo _ _ _)))
  | Downloader.Message _ _ _ _
      (Some (Downloader.MessageMediaDocument (Downloader.Document _ _ _))) =>
      true
  | _ => false
  end.

(** The same client with another way of downloading files. *)
Definition with_download_file (client : Downloader.Client)
    (df : Z → Z → Z → string → pyres unit) : Downloader.Client :=
  Downloader.mkClient (Downloader.GetFullUserRequest client)
    (Downloader.GetFullChannelRequest client) df
    (Downloader.client_download_media client)
    (Downloader.GetHistory client).

(** The same client with another way of downloading media. *)
Definition with_download_media (client : Downloader.Client)
    (dm : Downloader.message_media → string → pyres (option string))
    : Downloader.Client :=
  Downloader.mkClient (Downloader.GetFullUserRequest client)
    (Downloader.GetFullChannelRequest client)
    (Downloader.download_file client) dm
    (Downloader.GetHistory client).

(** A photo format that disables the download of profile photos. *)
Definition no_photo_fmt (ed : Downloader.EntityDownloader) : Prop :=
  Downloader.photo_fmt ed = None
  ∨ Downloader.photo_fmt ed = Some EmptyString.


(** ** Further predicates about the entity queue *)

(** What [extend_pending] may put in the queue: users and channels it
    does not pass over. *)
Definition queueable (e : Downloader.entity) : bool :=
  is_user_or_channel e && negb (dropped e).

(** The ids the queue has met: pending or dumped. *)
Definition seen_ids (ed : Downloader.EntityDownloader) : gset Z :=
  Downloader._pending_ids ed ∪ Downloader._dumped_ids ed.

(** ** Predicates used in the statements about a whole run *)

Definition is_empty_message (m : Downloader.message) : bool :=
  match m with Downloader.MessageEmpty _ => true | _ => false end.

(** A remote all of whose calls succeed, and whose pages hold content
    and service messages only. *)
Definition remote_answers (client : Downloader.Client) : Prop :=
  entity_calls_succeed client
  ∧ (∀ media path,
       ∃ r, Downloader.client_download_media client media path = Ok r)
  ∧ (∀ r, ∃ h, Downloader.GetHistory client r = Ok h
               ∧ Forall (λ m, is_empty_message m = false)
                   (Downloader.h_messages h)).

(** Every entity the remote sends along with a page is one of
    [universe]. *)
Definition entities_within (client : Downloader.Client)
    (universe : list Downloader.entity) : Prop :=
  ∀ r h, Downloader.GetHistory client r = Ok h →
    ∀ e, e ∈ Downloader.h_users h ++ Downloader.h_chats h → e ∈ universe.

(** The states of the running example of the queue. *)
Module SimQueue.
Import Downloader Sim.

Definition remote : Client := steady_client (history_of []).

Definition offered_first : list entity :=
  [ User 1 false false; Chat 2 None; Channel 3 false true;
    Channel 4 true false; User 1 false false; User 5 true false ].

Definition after_offer : EntityDownloader :=
  mkEntityDownloader None [User 1 false false; Channel 3 false true]
    {[ 1; -1000000000003 ]} {[ -2 ]}.

Definition journal_offer : Dumper :=
  mkDumper 100 0 [ RowChat (Chat 2 None) None ].

Definition after_first : EntityDownloader :=
  mkEntityDownloader None [Channel 3 false true]
    {[ -1000000000003 ]} {[ 1; -2 ]}.

Definition journal_first : Dumper :=
  mkDumper 100 0
    [ RowChat (Chat 2 None) None;
      RowUser (UserFull (User 1 false false) None) None ].

Definition after_pop : EntityDownloader :=
  mkEntityDownloader None [] ∅ {[ 1; -2; -1000000000003 ]}.

Definition journal_pop : Dumper :=
  mkDumper 100 0
    [ RowChat (Chat 2 None) None;
      RowUser (UserFull (User 1 false false) None) None;
      RowSupergroup (ChatFull 0 None) (Channel 3 false true) None ].

End SimQueue.

(** The running example of a whole run: the dialog with user 7 and its
    five messages, and what [save_messages] returns for it. *)
Module SimRun.
Import Downloader Sim.

Definition five : Client := steady_client (history_of (ids_down 5 1)).

Definition returned5 : EntityDownloader * Dumper :=
  (entity_downloader end5, commit (dumper end5)).

End SimRun.

(** ** downloader.py: Downloader.save_admin_log *)

Module AdminLog.
Import Downloader.

(** The actions of the admin log, as far as [save_admin_log] tells them
    apart. *)
Inductive admin_action : Type :=
| ChannelAdminLogEventActionChangePhoto (prev_photo new_photo : profile_photo)
| AdminActionOther.

Record admin_event : Type := ChannelAdminLogEvent {
  ev_id : Z;
  ev_action : admin_action;
}.

Record admin_results : Type := AdminLogResults {
  events : list admin_event;
  users : list entity;
  chats : list entity;
}.

(** Modelled from the spec: the dumper's upsert of an admin-log event,
    with the media ids of the two photos of a photo change.  The events
    written are kept in a journal of their own, beside the journal of
    the other rows. *)
Record event_row : Type := EventRow {
  er_context_id : Z;
  er_event : admin_event;
  er_media_id1 : option Z;
  er_media_id2 : option Z;
}.

(** The keyword arguments of [tqdm.tqdm]. *)
Definition TQDM_KEYWORDS : list string :=
  [ "iterable"; "desc"; "total"; "leave"; "file"; "ncols"; "mininterval";
    "maxinterval"; "miniters"; "ascii"; "disable"; "unit"; "unit_scale";
    "dynamic_ncols"; "smoothing"; "bar_format"; "initial"; "position";
    "postfix"; "unit_divisor"; "write_bytes"; "lock_args"; "nrows";
    "colour"; "delay"; "gui" ].

(** [tqdm.tqdm] called with keyword arguments, for a bar that is not
    disabled: the library refuses a keyword it does not know with a
    [TqdmKeyError]. *)
Definition tqdm (keywords : list string) : pyres unit :=
  if forallb (λ k, bool_decide (k ∈ TQDM_KEYWORDS)) keywords then Ok tt
  else Raise TqdmKeyError.

Section WithSession.

Variable get_peer_id : entity → Z.
Variable client : Client.
Variable naming : Naming.
Variable self : DownloaderSelf.

(** [self.client(req)] for the admin-log request, as a function of
    [req.max_id], the only field of the request that changes. *)
Variable GetAdminLogRequest : Z → pyres admin_results.

(** The variables of [save_admin_log] that change from page to page. *)
Record LogState : Type := mkLog {
  log_max_id : Z;
  log_chunks_left : Z;
  log_entity_downloader : EntityDownloader;
  log_dumper : Dumper;
  log_events : list event_row;
}.

(** The body of the [for event in result.events] loop. *)
Definition dump_event (ed : EntityDownloader) (target : entity)
    (target_id : Z) (dl : Dumper * list event_row) (event : admin_event)
    : pyres (Dumper * list event_row) :=
  let '(d, log) := dl in
  match ev_action event with
  | ChannelAdminLogEventActionChangePhoto prev_photo new_photo =>
      let '(media_id1, d) := dump_media d (Some (inr new_photo)) in
      let '(media_id2, d) := dump_media d (Some (inr prev_photo)) in
      _ <~ download_profile_photo get_peer_id client naming ed
             (Some new_photo) target (Some (ev_id event)) ;;
      _ <~ download_profile_photo get_peer_id client naming ed
             (Some prev_photo) target (Some (ev_id event)) ;;
      Ok (d, log ++ [EventRow target_id event media_id1 media_id2])
  | AdminActionOther =>
      Ok (d, log ++ [EventRow target_id event None None])
  end.

Fixpoint dump_events (ed : EntityDownloader) (target : entity)
    (target_id : Z) (dl : Dumper * list event_row) (es : list admin_event)
    : pyres (Dumper * list event_row) :=
  match es with
  | [] => Ok dl
  | e :: es' =>
      dl <~ dump_event ed target target_id dl e ;;
      dump_events ed target target_id dl es'
  end.

(** One turn of the [while True] loop; sleeping and the progress bar
    are not modelled. *)
Definition log_body (target : entity) (st : LogState)
    : pyres (LogState * flow) :=
  let target_id := get_peer_id target in
  result <~ GetAdminLogRequest (log_max_id st) ;;
  r <~ extend_pending get_peer_id client naming (log_entity_downloader st)
         (log_dumper st) (users result ++ chats result) ;;
  let '(ed, d) := r in
  r <~ pop_pending get_peer_id client naming ed d ;;
  let '(_, ed, d) := r in
  match events result with
  | [] =>
      Ok (mkLog (log_max_id st) (log_chunks_left st) ed d (log_events st),
          Break)
  | _ :: _ =>
      r <~ dump_events ed target target_id (d, log_events st)
             (events result) ;;
      let '(d, log) := r in
      max_id <~ py_min (map ev_id (events result)) ;;
      let chunks_left := log_chunks_left st - 1 in
      Ok (mkLog max_id chunks_left ed d log,
          if bool_decide (chunks_left ≤ 0) then Break else Continue)
  end.

(** The [while True] loop, for at most [fuel] pages. *)
Fixpoint log_paging (fuel : nat) (target : entity) (st : LogState)
    : pyres (LogState * flow) :=
  match fuel with
  | O => Ok (st, Continue)
  | S fuel' =>
      r <~ log_body target st ;;
      match r with
      | (st', Break) => Ok (st', Break)
      | (st', Continue) => log_paging fuel' target st'
      end
  end.

(** The state in which [save_admin_log] enters its loop. *)
Definition save_admin_log_init (d : Dumper) : LogState :=
  mkLog 0 (max_chunks d)
    (EntityDownloader_init
       (if bool_decide ("chatphoto" ∈ types self)
        then Some (media_fmt self) else None))
    d [].

(** [save_admin_log], with a bound on the pages fetched: [None] when the
    bound was reached before the loop was left.  The target is given
    resolved.  The progress bar is built before the loop, as
    [tqdm.tqdm(entbar=tqdm.tqdm(unit='log events'))]: the inner bar
    first, then the outer one, with the keyword [entbar]. *)
Definition save_admin_log (fuel : nat) (d : Dumper) (target : entity)
    : pyres (option (EntityDownloader * Dumper * list event_row)) :=
  let st := save_admin_log_init d in
  _ <~ tqdm ["unit"] ;;
  _ <~ tqdm ["entbar"] ;;
  r <~ log_paging fuel target st ;;
  match r with
  | (st, Break) =>
      let ed := log_entity_downloader st in
      r <~ drain get_peer_id client naming (List.length (_pending ed)) ed
             (log_dumper st) ;;
      Ok (Some (r, log_events st))
  | (_, Continue) => Ok None
  end.

End WithSession.

End AdminLog.

(** ** downloader.py: Downloader.load_entities_from_str *)

Module Entities.

Definition is_digit (c : ascii) : bool :=
  let n := nat_of_ascii c in ((48 <=? n) && (n <=? 57))%nat.

Fixpoint all_digits (s : string) : bool :=
  match s with
  | EmptyString => true
  | String c s' => is_digit c && all_digits s'
  end.

(** [s.isdigit()] on the ASCII range. *)
Definition isdigit (s : string) : bool :=
  match s with
  | EmptyString => false
  | _ => all_digits s
  end.

(** [s.startswith(c)] for a character. *)
Definition startswith (c : ascii) (s : string) : bool :=
  match s with
  | String a _ => Ascii.eqb a c
  | EmptyString => false
  end.

(** Digits, possibly separated by single underscores; [after_digit]
    tells whether the character before was a digit. *)
Fixpoint grouped (after_digit : bool) (s : string) : bool :=
  match s with
  | EmptyString => after_digit
  | String c s' =>
      if is_digit c then grouped true s'
      else Ascii.eqb c "_" && after_digit && grouped false s'
  end.

(** [int(s)] as Python reads a string in base ten: blanks around the
    numeral, one sign, digits that single underscores may separate.
    (The limit later versions of Python put on the number of digits is
    not modelled.) *)
Definition py_int (s : string) : pyres Z :=
  let t := PyCfg.strip s in
  let '(sign, body) :=
    match t with
    | String a r =>
        if Ascii.eqb a "-" then ("-", r)
        else if Ascii.eqb a "+" then (EmptyString, r)
        else (EmptyString, t)
    | EmptyString => (EmptyString, t)
    end in
  if grouped false body
  then PyStr.to_int (sign +:+ PyStr.replace "_" EmptyString body)
  else Raise ValueError.

(** [who.strip().split(':', 1)[0]]. *)
Definition key_text (who : string) : string :=
  hd EmptyString (PyStr.split ":" (PyCfg.strip who)).

(** What one item of the string makes the generator look up: an
    integer id or a name; [int] may raise. *)
Definition parse_who (who : string) : pyres (Z + string) :=
  let who := key_text who in
  if negb (startswith "+" who) && isdigit who || startswith "-" who
  then n <~ py_int who ;; Ok (inl n)
  else Ok (inr who).

Section WithClient.

Variable InputEntity : Type.

(** [self.client.get_input_entity]. *)
Variable get_input_entity : Z + string → pyres InputEntity.

(** The values a generator yields, and the exception that ends it, if
    one does. *)
Fixpoint lookups (keys : list (pyres (Z + string)))
    : list InputEntity * option exn :=
  match keys with
  | [] => ([], None)
  | k :: keys' =>
      match k' <~ k ;; get_input_entity k' with
      | Ok x => let '(xs, e) := lookups keys' in (x :: xs, e)
      | Raise e => ([], Some e)
      end
  end.

Definition load_entities_from_str (s : string)
    : list InputEntity * option exn :=
  lookups (map parse_who (PyStr.split "," s)).

End WithClient.

End Entities.

(** ** Predicates used in the statements about the configuration *)

(** A string of the ASCII range. *)
Definition ascii_only (s : string) : bool :=
  forallb (λ c, (nat_of_ascii c <? 128)%nat) (list_ascii_of_string s).

(** A session that resolves every key to itself. *)
Definition resolve_all (key : Z + string) : pyres (Z + string) := Ok key.

(** ** Predicates used in the statements about a first run *)

(** The page a remote holding [msgs] serves for a request: the first
    [limit] messages below the offset, all of them counting when the
    offset is zero. *)
Definition served_from (msgs : list Downloader.message)
    (r : Downloader.history_request) : list Downloader.message :=
  take (Z.to_nat (Downloader.limit r))
    (filter (λ m, Downloader.offset_id r = 0
                  ∨ Downloader.msg_id m < Downloader.offset_id r) msgs).

Definition serves (client : Downloader.Client)
    (msgs : list Downloader.message) : Prop :=
  ∀ r, ∃ h, Downloader.GetHistory client r = Ok h
            ∧ Downloader.h_messages h = served_from msgs r.

(** A conversation as the remote holds it: content and service
    messages, newest first, with positive ids. *)
Fixpoint descending (ids : list Z) : Prop :=
  match ids with
  | [] => True
  | x :: ids' => Forall (λ y, y < x) ids' ∧ descending ids'
  end.

Definition newest_first (msgs : list Downloader.message) : Prop :=
  descending (map Downloader.msg_id msgs)
  ∧ Forall (λ m, 0 < Downloader.msg_id m ∧ is_empty_message m = false) msgs.

(** A short conversation with a photo and a service message, and a
    remote that serves it. *)
Module SimFirst.
Import Downloader Sim.

Definition talk : list message :=
  [ Message 3 30 None None (Some (MessageMediaPhoto (Photo 1 1 [])));
    MessageService 2 20 MessageActionOther;
    text 1 ].

Definition remote : Client :=
  mkClient
    (λ e, Ok (UserFull e None))
    (λ e, Ok (ChatFull 0 None))
    (λ _ _ _ _, Ok tt)
    (λ _ path, Ok (Some path))
    (λ r, Ok (History (served_from talk r) [] [] None)).

(** The store after a run over [talk] that a budget of one page of two
    messages has cut short. *)
Definition interrupted : Dumper :=
  mkDumper 2 0
    [ RowUser (UserFull me None) None;
      RowMedia (inl (MessageMediaPhoto (Photo 1 1 [])));
      RowMessage 7 (Message 3 30 None None
                      (Some (MessageMediaPhoto (Photo 1 1 []))))
        None (Some 1);
      RowMessageService 7 (MessageService 2 20 MessageActionOther) None;
      RowResume 7 2 20 0;
      RowCommit ].

End SimFirst.

(** ** downloader.py: the end of a file name *)

Module Filename.

(** [s.endswith(suffix)]. *)
Definition endswith (s suffix : string) : bool :=
  bool_decide (list_ascii_of_string suffix
                 `suffix_of` list_ascii_of_string s).

(** [s[:-1]]. *)
Fixpoint drop_last (s : string) : string :=
  match s with
  | EmptyString => EmptyString
  | String c EmptyString => EmptyString
  | String c s' => String c (drop_last s')
  end.

(** What [download_media] and [download_profile_photo] do to the
    formatted name before they hand it to the remote:
    [if not filename.endswith(ext)], drop one final dot and append
    [ext]. *)
Definition with_ext (filename ext : string) : string :=
  if endswith filename ext then filename
  else (if endswith filename "." then drop_last filename else filename)
       +:+ ext.

End Filename.

(** * Properties *)

(** ** The string primitives *)

Section PyStrFacts.
Import PyStr.

Lemma contains_app (c : ascii) (a b : string) :
  contains c (a +:+ b) = contains c a || contains c b.
Proof.
  induction a as [|x a IH]; simpl; [done|].
  rewrite IH. by destruct (Ascii.eqb x c).
Qed.

Lemma split_plain (sep : ascii) (s : string) :
  contains sep s = false → split sep s = [s].
Proof.
  induction s as [|x s IH]; simpl; [done|].
  destruct (Ascii.eqb x sep); simpl; [done|].
  intros H. by rewrite (IH H).
Qed.

Lemma split_app (sep : ascii) (a b : string) :
  contains sep a = false →
  split sep (a +:+ String sep b) = a :: split sep b.
Proof.
  induction a as [|x a IH]; simpl.
  - intros _. by rewrite Ascii.eqb_refl.
  - destruct (Ascii.eqb x sep); simpl; [done|].
    intros H. by rewrite (IH H).
Qed.

Lemma split_join (sep : ascii) (parts : list string) :
  parts ≠ [] →
  Forall (λ p, contains sep p = false) parts →
  split sep (join sep parts) = parts.
Proof.
  induction parts as [|p [|q rest] IH]; [done| |].
  - intros _ Hp. apply Forall_inv in Hp. by apply split_plain.
  - intros _ Hp. inversion Hp as [|? ? Hp1 Hp2]; subst.
    change (join sep (p :: q :: rest))
      with (p +:+ String sep (join sep (q :: rest))).
    rewrite split_app by done. f_equal. by apply IH.
Qed.

Lemma replace_plain (old : ascii) (new s : string) :
  contains old s = false → replace old new s = s.
Proof.
  induction s as [|x s IH]; simpl; [done|].
  destruct (Ascii.eqb x old); simpl; [done|].
  intros H. by rewrite (IH H).
Qed.

Lemma contains_replace_old (old : ascii) (new s : string) :
  contains old new = false → contains old (replace old new s) = false.
Proof.
  intros Hnew. induction s as [|x s IH]; simpl; [done|].
  destruct (Ascii.eqb x old) eqn:Hx; simpl.
  - by rewrite contains_app, Hnew, IH.
  - by rewrite Hx, IH.
Qed.

Lemma contains_replace_other (c old : ascii) (new s : string) :
  contains c new = false → contains c s = false →
  contains c (replace old new s) = false.
Proof.
  intros Hnew. induction s as [|x s IH]; simpl; [done|].
  destruct (Ascii.eqb x c) eqn:Hx; simpl; [done|].
  intros Hs. destruct (Ascii.eqb x old); simpl.
  - by rewrite contains_app, Hnew, IH.
  - by rewrite Hx, IH.
Qed.

Lemma contains_uint (c : ascii) (d : Decimal.uint) :
  is_numeral_char c = false →
  contains c (NilEmpty.string_of_uint d) = false.
Proof.
  unfold is_numeral_char. simpl. intros H.
  induction d as [|d IH|d IH|d IH|d IH|d IH|d IH|d IH|d IH|d IH|d IH];
    simpl; [done|..]; rewrite IH;
    repeat (apply orb_false_elim in H as [? H]); by rewrite ?orb_false_r.
Qed.

Lemma contains_of_int (c : ascii) (n : Z) :
  is_numeral_char c = false → contains c (of_int n) = false.
Proof.
  intros H.
  assert (Hu : ∀ d, contains c (NilZero.string_of_uint d) = false).
  { intros d. pose proof (contains_uint c d H) as Hd.
    destruct d; try exact Hd. simpl.
    unfold is_numeral_char in H. simpl in H.
    repeat (apply orb_false_elim in H as [? H]). by rewrite ?orb_false_r. }
  unfold of_int. destruct (Z.to_int n) as [d|d]; simpl; [apply Hu|].
  rewrite Hu. unfold is_numeral_char in H. simpl in H.
  apply orb_false_elim in H as [H _]. by rewrite H.
Qed.

Lemma to_int_of_int (n : Z) : to_int (of_int n) = Ok n.
Proof.
  unfold to_int, of_int. rewrite NilZero.isi.
  - by rewrite DecimalZ.of_to.
  - destruct n; simpl; try done.
    intros [= H]. by apply DecimalPos.Unsigned.to_uint_nonnil in H.
  - destruct n; simpl; try done.
    intros [= H]. by apply DecimalPos.Unsigned.to_uint_nonnil in H.
Qed.

End PyStrFacts.

(** ** utils.py: decoding what was encoded *)

Section CodecFacts.
Import PyStr Utils.

Lemma escaped_plain (e : MessageEntity) : url_plain e → escaped e = e.
Proof.
  destruct e; simpl; try done. intros [Hc Hs].
  by rewrite (replace_plain "," _ _ Hc), (replace_plain ";" _ _ Hs).
Qed.

Lemma contains_escaped_url (c : ascii) (url : string) :
  c = ","%char ∨ c = ";"%char →
  contains c (replace ";" "%3b" (replace "," "%2c" url)) = false.
Proof.
  intros [-> | ->].
  - apply contains_replace_other; [done|]. by apply contains_replace_old.
  - by apply contains_replace_old.
Qed.

Lemma append_empty (s : string) : s +:+ "" = s.
Proof.
  induction s as [|a s IH]; [done|].
  change (String a (s +:+ "") = String a s). by rewrite IH.
Qed.

(** Splitting [head,o,rest] at its first two commas. *)
Lemma split_fields (head rest : string) (o : Z) :
  contains "," head = false →
  split "," (head +:+ "," +:+ of_int o +:+ "," +:+ rest)
  = head :: of_int o :: split "," rest.
Proof.
  intros Hh.
  change (head +:+ "," +:+ of_int o +:+ "," +:+ rest)
    with (head +:+ String "," (of_int o +:+ String "," rest)).
  rewrite split_app by done.
  by rewrite split_app by (by apply contains_of_int).
Qed.

Lemma encode_entity_supported (e : MessageEntity) :
  supported e → ∃ part, encode_entity e = [part] ∧
    contains ";" part = false ∧
    decode_part part
    = if is_pre e then Raise TypeError else Ok [escaped e].
Proof.
  intros Hsup.
  assert (Hint : ∀ n, to_int (of_int n) = Ok n) by apply to_int_of_int.
  assert (Hc : ∀ n, contains "," (of_int n) = false)
    by (intros; by apply contains_of_int).
  assert (Hs : ∀ n, contains ";" (of_int n) = false)
    by (intros; by apply contains_of_int).
  destruct e as [o l lang|o l|o l|o l|o l url|o l uid|o l];
    try (by destruct Hsup as [? [=]]);
    (eexists; split; [reflexivity|]);
    cbn [offset length escaped is_pre]; split.
  all: try (rewrite !contains_app, !Hs, ?contains_escaped_url by auto;
            reflexivity).
  all: unfold decode_part; rewrite split_fields by done.
  1-4: rewrite append_empty, split_plain by apply Hc;
       simpl; by rewrite !Hint.
  all: change (of_int l +:+ "," +:+ ?x) with (of_int l +:+ String "," x);
       rewrite split_app by apply Hc.
  - rewrite split_plain by (apply contains_escaped_url; auto).
    simpl. by rewrite !Hint.
  - rewrite split_plain by apply Hc.
    simpl. by rewrite !Hint.
Qed.

Lemma encode_all_supported (entities : list MessageEntity) :
  Forall supported entities →
  ∃ parts, flat_map encode_entity entities = parts ∧
    List.length parts = List.length entities ∧
    Forall (λ p, contains ";" p = false) parts ∧
    ∀ parsed, decode_parts parts parsed
      = if existsb is_pre entities then Raise TypeError
        else Ok (parsed ++ map escaped entities).
Proof.
  induction 1 as [|e entities He _ (parts & Hparts & Hlen & Hsemi & Hdec)].
  - exists []. repeat split; [constructor|]. intros. simpl.
    by rewrite app_nil_r.
  - destruct (encode_entity_supported e He) as (part & Hpart & Hs & Hd).
    exists (part :: parts). simpl. rewrite Hpart, Hparts. simpl.
    repeat split; [by rewrite Hlen|by constructor|].
    intros parsed. rewrite Hd. destruct (is_pre e); simpl; [done|].
    rewrite Hdec. destruct (existsb is_pre entities); [done|].
    by rewrite <- app_assoc.
Qed.

(** Decoding an encoded list of supported entities raises when the
    list holds a preformatted block; otherwise it gives the entities
    back, their URLs escaped, and an empty list comes back as [None]. *)
Lemma decode_encode_escaped (entities : list MessageEntity) :
  Forall supported entities →
  decode_msg_entities (encode_msg_entities (Some entities))
  = if existsb is_pre entities then Raise TypeError
    else Ok (match entities with
             | [] => None
             | _ :: _ => Some (map escaped entities)
             end).
Proof.
  intros Hsup. destruct entities as [|e entities]; [done|].
  destruct (encode_all_supported _ Hsup) as (parts & Hparts & Hlen & Hs & Hd).
  unfold encode_msg_entities. rewrite Hparts.
  destruct parts as [|p parts]; [done|].
  unfold decode_msg_entities.
  assert (Hne : join ";" (p :: parts) ≠ EmptyString).
  { intros Hj. assert (p = EmptyString) as ->.
    { destruct p; [done|]. by destruct parts. }
    specialize (Hd []).
    change (decode_parts (EmptyString :: parts) [])
      with (Raise IndexError : pyres (list MessageEntity)) in Hd.
    by destruct (existsb is_pre (e :: entities)). }
  destruct (join ";" (p :: parts)) eqn:Hj; [done|]. rewrite <- Hj.
  rewrite split_join by done. rewrite Hd.
  by destruct (existsb is_pre (e :: entities)).
Qed.

(** The round trip, where the decoder can build what it reads: for a
    list of supported entities without a preformatted block, whose text
    URLs hold no comma and no semicolon, decoding the encoded string
    returns the same entities. *)
Lemma decode_encode_without_pre (entities : list Utils.MessageEntity) :
  Forall supported entities →
  Forall url_plain entities →
  existsb is_pre entities = false →
  Utils.decode_msg_entities (Utils.encode_msg_entities (Some entities))
  = Ok (match entities with
        | [] => None
        | _ :: _ => Some entities
        end).
Proof.
  intros Hsup Hurl Hpre.
  rewrite decode_encode_escaped, Hpre by done.
  destruct entities as [|e entities]; [done|].
  do 2 f_equal. clear Hsup Hpre.
  induction Hurl as [|x xs Hx _ IH]; [done|].
  simpl. by rewrite (escaped_plain x Hx), IH.
Qed.

(** C9. The round trip fails on a preformatted block: the encoder
    writes it as [pre,offset,length], and the decoder, which says it
    reverses the encoder, calls [MessageEntityPre] with these two
    numbers alone, which the class refuses; a list of the other
    supported classes comes back as it was, and the empty and absent
    inputs give [None]. *)
Theorem decode_encode_pre_raises :
  Utils.decode_msg_entities
    (Utils.encode_msg_entities
       (Some [ Utils.MessageEntityBold 0 5;
               Utils.MessageEntityPre 20 7 "python" ]))
  = Raise TypeError
  ∧ Utils.encode_msg_entities
      (Some [ Utils.MessageEntityBold 0 5;
              Utils.MessageEntityPre 20 7 "python" ])
    = Some "bold,0,5;pre,20,7"
  ∧ Utils.decode_msg_entities
      (Utils.encode_msg_entities
         (Some [ Utils.MessageEntityBold 0 5;
                 Utils.MessageEntityTextUrl 6 4 "https://t.me/x?a=1";
                 Utils.MessageEntityMentionName 11 3 (-42) ]))
    = Ok (Some [ Utils.MessageEntityBold 0 5;
                 Utils.MessageEntityTextUrl 6 4 "https://t.me/x?a=1";
                 Utils.MessageEntityMentionName 11 3 (-42) ])
  ∧ Utils.encode_msg_entities (Some []) = None
  ∧ Utils.encode_msg_entities None = None
  ∧ Utils.decode_msg_entities None = Ok None
  ∧ Utils.decode_msg_entities (Some EmptyString) = Ok None.
Proof.
  split_and!; [vm_compute; reflexivity|reflexivity| |done..].
  apply (decode_encode_without_pre
           [ Utils.MessageEntityBold 0 5;
             Utils.MessageEntityTextUrl 6 4 "https://t.me/x?a=1";
             Utils.MessageEntityMentionName 11 3 (-42) ]).
  - repeat constructor; by eexists.
  - repeat constructor; reflexivity.
  - reflexivity.
Qed.

End CodecFacts.

(** ** downloader.py: the media filter *)

Section MediaFacts.
Import Downloader.

Lemma get_media_type_document (d : document) :
  _get_media_type (Some (MessageMediaDocument d)) = Ok (PBool false).
Proof. reflexivity. Qed.

(** The classification never raises. *)
Lemma get_media_type_total (media : option message_media) :
  ∃ v, _get_media_type media = Ok v.
Proof. destruct media as [[]|]; by eexists. Qed.

Lemma check_media_total (self : DownloaderSelf)
    (media : option message_media) :
  ∃ b, check_media self media = Ok b.
Proof.
  unfold check_media.
  destruct (py_not media || bool_decide (max_size self = 0)); [by eexists|].
  destruct (bool_decide (types self = ∅)); [by eexists|].
  destruct (get_media_type_total media) as [v ->]. by eexists.
Qed.

(** A sticker document under a whitelist that allows stickers: the
    classification answers [False] and the document is refused. *)
Example sticker_document_refused :
  let media := MessageMediaDocument (Document 1 1024 [DocumentAttributeSticker]) in
  _get_media_type (Some media) = Ok (PBool false)
  ∧ check_media (mkDownloader 1 {[ "sticker"; "unknown" ]} "out") (Some media)
    = Ok false.
Proof. split; [reflexivity|]. by vm_compute. Qed.

(** C8, as stated, fails: with [MaxSize] zero a photo is refused although
    its classified type is in the whitelist. *)
Lemma check_media_whitelisted_photo_refused :
  let self := mkDownloader 0 {[ "photo"; "unknown" ]} "out" in
  let media := MessageMediaPhoto (Photo 1 1 []) in
  _get_media_type (Some media) = Ok (PStr "photo")
  ∧ "photo" ∈ types self
  ∧ check_media self (Some media) = Ok false.
Proof. split; [reflexivity|]. split; [set_solver|]. by vm_compute. Qed.

(** C8, amended. The classification maps every media that is not of
    document kind into the fixed taxonomy (a photo to photo, the others
    to unknown), and [check_media] accepts such a media exactly when
    [MaxSize] is not zero and the whitelist is empty or holds the
    classified type. *)
Theorem check_media_classified (self : DownloaderSelf) (m : message_media) :
  is_document_media m = false →
  (∃ t, _get_media_type (Some m) = Ok (PStr t) ∧ t ∈ taxonomy
        ∧ (t = "photo" ↔ ∃ p, m = MessageMediaPhoto p)
        ∧ (t = "unknown" ↔ m = MessageMediaOther))
  ∧ (check_media self (Some m) = Ok true ↔
     max_size self ≠ 0 ∧
     (types self = ∅ ∨
      ∃ t, _get_media_type (Some m) = Ok (PStr t) ∧ t ∈ types self)).
Proof.
  intros Hm. split.
  - destruct m as [p| |]; [|done|].
    + exists "photo". split_and!; [done|set_solver|naive_solver..].
    + exists "unknown".
      split_and!; [done|set_solver|split; [done|by intros [? [=]]]|done].
  - unfold check_media. simpl.
    destruct (decide (max_size self = 0)) as [H0|H0].
    { rewrite bool_decide_true by done. split; [done|by intros [? _]]. }
    rewrite bool_decide_false by done.
    destruct (decide (types self = ∅)) as [He|He].
    { rewrite bool_decide_true by done. naive_solver. }
    rewrite bool_decide_false by done.
    destruct m as [p| |]; [|done|]; simpl.
    + rewrite bool_decide_decide. destruct (decide ("photo" ∈ types self)).
      * naive_solver.
      * split; [done|]. intros [_ [?|(t & [= <-] & ?)]]; done.
    + rewrite bool_decide_decide. destruct (decide ("unknown" ∈ types self)).
      * naive_solver.
      * split; [done|]. intros [_ [?|(t & [= <-] & ?)]]; done.
Qed.

Lemma check_media_classified_witness :
  check_media (mkDownloader 1 {[ "photo"; "unknown" ]} "out")
    (Some (MessageMediaPhoto (Photo 1 1 []))) = Ok true.
Proof.
  apply (check_media_classified
           (mkDownloader 1 {[ "photo"; "unknown" ]} "out")
           (MessageMediaPhoto (Photo 1 1 []))); [reflexivity|].
  split; [done|]. right. exists "photo". split; [reflexivity|set_solver].
Defined.

Lemma Downloader_init_fields (config : Config) (self : DownloaderSelf) :
  Downloader_init config = Ok self →
  max_size self = MaxSize config
  ∧ (types self = ∅ ↔ parse_whitelist (MediaWhitelist config) = ∅).
Proof.
  unfold Downloader_init. case_decide; [|done]. intros [= <-]. simpl.
  split; [done|]. case_decide; [done|]. split; [|done].
  intros Hu. exfalso. set_solver.
Qed.

(** C10. [check_media] returns [False] whenever the media is absent or
    [MaxSize] is zero, whatever the whitelist; with a non-zero [MaxSize]
    and an empty whitelist it returns [True] for every present media,
    whatever its type; and its answer depends neither on which non-zero
    value [MaxSize] has nor on the size of the media. *)
Theorem check_media_max_size (self : DownloaderSelf)
    (media : option message_media) :
  (media = None ∨ max_size self = 0 → check_media self media = Ok false)
  ∧ (max_size self ≠ 0 → types self = ∅ →
     ∀ m, check_media self (Some m) = Ok true)
  ∧ (∀ n, n ≠ 0 → max_size self ≠ 0 →
     check_media (mkDownloader n (types self) (media_fmt self)) media
     = check_media self media)
  ∧ (∀ id size size' attrs,
     check_media self (Some (MessageMediaDocument (Document id size attrs)))
     = check_media self
         (Some (MessageMediaDocument (Document id size' attrs))))
  ∧ (∀ config, Downloader_init config = Ok self →
     (MaxSize config = 0 → check_media self media = Ok false)
     ∧ (MaxSize config ≠ 0 →
        parse_whitelist (MediaWhitelist config) = ∅ →
        ∀ m, check_media self (Some m) = Ok true)).
Proof.
  assert (Hoff : media = None ∨ max_size self = 0 →
                 check_media self media = Ok false).
  { unfold check_media. intros [-> | H0]; [done|].
    rewrite (bool_decide_true _ H0). by rewrite orb_true_r. }
  assert (Hall : max_size self ≠ 0 → types self = ∅ →
                 ∀ m, check_media self (Some m) = Ok true).
  { unfold check_media. intros H0 He m. simpl.
    by rewrite (bool_decide_false _ H0), (bool_decide_true _ He). }
  split_and!; [done|done| | |].
  - intros n Hn H0. unfold check_media. simpl.
    by rewrite (bool_decide_false _ Hn), (bool_decide_false _ H0).
  - done.
  - intros config Hinit.
    destruct (Downloader_init_fields _ _ Hinit) as [Hmax Hty].
    split.
    + intros H0. apply Hoff. right. by rewrite Hmax.
    + intros H0 He. apply Hall; [by rewrite Hmax|by apply Hty].
Qed.

Lemma check_media_max_size_witness :
  check_media (mkDownloader 0 {[ "photo"; "unknown" ]} "out")
    (Some (MessageMediaPhoto (Photo 1 1 []))) = Ok false
  ∧ check_media (mkDownloader 5 ∅ "out") (Some MessageMediaOther) = Ok true.
Proof.
  split.
  - apply (check_media_max_size
             (mkDownloader 0 {[ "photo"; "unknown" ]} "out")
             (Some (MessageMediaPhoto (Photo 1 1 [])))).
    right. reflexivity.
  - apply (check_media_max_size (mkDownloader 5 ∅ "out") None);
      [discriminate|reflexivity].
Defined.

End MediaFacts.

(** ** downloader.py: the entity queue *)

Section QueueFacts.
Import Downloader.

Variable get_peer_id : entity → Z.
Variable client : Client.
Variable naming : Naming.

Local Abbreviation pid := get_peer_id.
Local Abbreviation inv := (queue_inv get_peer_id).
Local Abbreviation apart := (chats_apart get_peer_id).

(** Take a [bind] in a hypothesis apart. *)
Local Ltac unbind H :=
  match type of H with
  | bind ?m _ = Ok _ =>
      let E := fresh "E" in
      destruct m eqn:E; simpl in H; [|discriminate H]
  end.

Lemma dump_entity_Ok ed d e s ed' d' :
  _dump_entity pid client naming ed d e = Ok (s, ed', d') →
  ed' = mkEntityDownloader (photo_fmt ed) (_pending ed)
          (_pending_ids ed ∖ {[ pid e ]}) ({[ pid e ]} ∪ _dumped_ids ed).
Proof.
  unfold _dump_entity. intros H. unbind H.
  destruct a as [s0 d0]. by injection H as _ <- _.
Qed.

Lemma offer_one_inv U ed d e ed' d' :
  apart U → e ∈ U → inv U ed →
  offer_one pid client naming ed d e = Ok (ed', d') →
  inv U ed' ∧ _dumped_ids ed ⊆ _dumped_ids ed'.
Proof.
  intros Hapart HeU (Hnd & Hids & Hdisj & Hq) Hoffer.
  assert (Henq : is_user_or_channel e = true →
    (if bool_decide (pid e ∉ _dumped_ids ed)
        && negb (bool_decide (pid e ∈ _pending_ids ed))
     then Ok (mkEntityDownloader (photo_fmt ed) (_pending ed ++ [e])
                ({[ pid e ]} ∪ _pending_ids ed) (_dumped_ids ed), d)
     else Ok (ed, d)) = Ok (ed', d') →
    inv U ed' ∧ _dumped_ids ed ⊆ _dumped_ids ed').
  { intros Hk.
    destruct (bool_decide (pid e ∉ _dumped_ids ed)) eqn:Hd; simpl;
      [|intros [= <- <-]; by repeat split].
    destruct (bool_decide (pid e ∈ _pending_ids ed)) eqn:Hp; simpl;
      intros [= <- <-]; [by repeat split|].
    apply bool_decide_eq_true in Hd. apply bool_decide_eq_false in Hp.
    split; [|done]. unfold queue_inv. simpl. split_and!.
    - rewrite fmap_app. apply NoDup_app. split_and!; [done| |apply NoDup_singleton].
      intros x Hx ->%list_elem_of_singleton. apply Hp. rewrite Hids.
      by apply elem_of_list_to_set.
    - rewrite fmap_app, list_to_set_app_L, Hids. simpl. set_solver.
    - set_solver.
    - apply Forall_app. split; [done|]. by repeat constructor. }
  destruct e as [id deleted min|id photo|id has_left mega|id]; simpl in Hoffer.
  - destruct (deleted || min); [injection Hoffer as <- <-; by repeat split|].
    by apply Henq.
  - unbind Hoffer. destruct a as [[s0 ed0] d0].
    injection Hoffer as <- <-. apply dump_entity_Ok in E. subst ed0.
    set (c := Chat id photo) in *.
    assert (Hfresh : pid c ∉ _pending_ids ed).
    { rewrite Hids, elem_of_list_to_set, list_elem_of_fmap.
      intros (e' & Heq & He'). rewrite Forall_forall in Hq.
      destruct (Hq e' He') as [Hk HU]. by apply (Hapart c e'). }
    split; [|simpl; set_solver]. unfold queue_inv. simpl.
    split_and!; [done| |set_solver|done].
    rewrite <- Hids. set_solver.
  - destruct has_left; [injection Hoffer as <- <-; by repeat split|].
    by apply Henq.
  - injection Hoffer as <- <-. by repeat split.
Qed.

Lemma extend_pending_inv U ed d es ed' d' :
  apart U → (∀ e, e ∈ es → e ∈ U) → inv U ed →
  extend_pending pid client naming ed d es = Ok (ed', d') →
  inv U ed' ∧ _dumped_ids ed ⊆ _dumped_ids ed'.
Proof.
  intros Hapart. revert ed d.
  induction es as [|e es IH]; intros ed d HU Hinv; simpl.
  - by intros [= <- <-].
  - intros H. unbind H. destruct a as [ed1 d1].
    destruct (offer_one_inv U _ _ _ _ _ Hapart (HU e ltac:(by left)) Hinv E)
      as [Hinv1 Hsub1].
    destruct (IH ed1 d1 (λ x Hx, HU x ltac:(by right)) Hinv1 H)
      as [Hinv2 Hsub2].
    split; [done|set_solver].
Qed.

Lemma pop_pending_inv U ed d s ed' d' :
  inv U ed →
  pop_pending pid client naming ed d = Ok (s, ed', d') →
  inv U ed' ∧ _dumped_ids ed ⊆ _dumped_ids ed'.
Proof.
  intros (Hnd & Hids & Hdisj & Hq). unfold pop_pending.
  destruct (_pending ed) as [|e rest] eqn:Hp.
  - intros [= <- <- <-]. unfold queue_inv. by rewrite Hp.
  - intros H. apply dump_entity_Ok in H. subst ed'. simpl in *.
    apply NoDup_cons in Hnd as [Hfresh Hnd]. apply Forall_cons in Hq as [_ Hq].
    split; [|set_solver]. unfold queue_inv. simpl.
    split_and!; [done| |set_solver|done].
    rewrite Hids.
    assert (pid e ∉ (list_to_set (pid <$> rest) : gset Z))
      by by rewrite elem_of_list_to_set.
    set_solver.
Qed.

Lemma run_ops_inv U ops q q' :
  apart U → (∀ e, e ∈ offered ops → e ∈ U) → inv U q.1 →
  run_ops pid client naming ops q = Ok q' →
  inv U q'.1 ∧ _dumped_ids q.1 ⊆ _dumped_ids q'.1.
Proof.
  intros Hapart. revert q.
  induction ops as [|op ops IH]; intros [ed d] HU Hinv; simpl.
  - by intros [= <-].
  - intros H. unbind H. destruct a as [ed1 d1].
    assert (Hstep : inv U ed1 ∧ _dumped_ids ed ⊆ _dumped_ids ed1).
    { destruct op as [es|]; simpl in E.
      - eapply extend_pending_inv; [done| |done|done].
        intros e He. apply HU. simpl. apply elem_of_app. by left.
      - unbind E. destruct a as [[s0 ed2] d2]. simpl in E.
        injection E as <- <-. by eapply pop_pending_inv. }
    destruct Hstep as [Hinv1 Hsub1].
    destruct (IH (ed1, d1)) as [Hinv2 Hsub2]; [|done|done|].
    + intros e He. apply HU. simpl. apply elem_of_app. by right.
    + split; [done|]. simpl in *. set_solver.
Qed.

Lemma queue_inv_init U fmt : inv U (EntityDownloader_init fmt).
Proof.
  unfold queue_inv. simpl. split_and!; [constructor|done|set_solver|done].
Qed.

Lemma queue_inv_count U ed :
  inv U ed → List.length (_pending ed) = size (_pending_ids ed).
Proof.
  intros (Hnd & Hids & _ & _).
  by rewrite Hids, size_list_to_set, length_fmap.
Qed.

Lemma chats_apartb_sound es :
  chats_apartb pid es = true → apart es.
Proof.
  unfold chats_apartb. rewrite forallb_forall.
  intros H c e Hc He Hchat Hk Heq.
  apply list_elem_of_In in Hc, He.
  specialize (H c Hc). rewrite forallb_forall in H. specialize (H e He).
  rewrite Hchat, Hk in H. simpl in H.
  apply negb_true_iff, Z.eqb_neq in H. done.
Qed.

(** C4. After every sequence of [extend_pending] and [pop_pending]
    calls on a new queue, provided peer ids tell the offered basic
    groups from the offered users and channels: no id is both pending
    and dumped, [total_count] is the length of the queue plus
    [dumped_count] (the queue is as long as the set of pending ids is
    large), and an id that is dumped stays dumped and is never pending
    again, whatever calls follow. *)
Theorem entity_queue_invariant (fmt : option string) (d0 : Dumper)
    (ops ops' : list queue_op) (ed ed' : EntityDownloader) (d d' : Dumper) :
  chats_apart get_peer_id (offered (ops ++ ops')) →
  run_ops get_peer_id client naming ops (EntityDownloader_init fmt, d0)
    = Ok (ed, d) →
  run_ops get_peer_id client naming ops' (ed, d) = Ok (ed', d') →
  (∀ i, ¬ (i ∈ _pending_ids ed ∧ i ∈ _dumped_ids ed))
  ∧ (∀ e, e ∈ _pending ed →
       get_peer_id e ∈ _pending_ids ed ∧ get_peer_id e ∉ _dumped_ids ed)
  ∧ total_count ed = len ed + dumped_count ed
  ∧ List.length (_pending ed) = size (_pending_ids ed)
  ∧ (∀ i, i ∈ _dumped_ids ed →
       i ∈ _dumped_ids ed' ∧ (i ∉ _pending_ids ed')
       ∧ ∀ e, e ∈ _pending ed' → get_peer_id e ≠ i).
Proof.
  intros Hapart Hrun Hrun'.
  set (U := offered (ops ++ ops')).
  assert (HU : ∀ e, e ∈ offered ops → e ∈ U).
  { intros e He. unfold U, offered. rewrite flat_map_app.
    apply elem_of_app. by left. }
  assert (HU' : ∀ e, e ∈ offered ops' → e ∈ U).
  { intros e He. unfold U, offered. rewrite flat_map_app.
    apply elem_of_app. by right. }
  destruct (run_ops_inv U ops (EntityDownloader_init fmt, d0) _
              Hapart HU (queue_inv_init U fmt) Hrun) as [Hinv _].
  destruct (run_ops_inv U ops' (ed, d) _ Hapart HU' Hinv Hrun')
    as [Hinv' Hsub].
  simpl in *.
  pose proof (queue_inv_count U ed Hinv) as Hcount.
  destruct Hinv as (Hnd & Hids & Hdisj & Hq).
  destruct Hinv' as (Hnd' & Hids' & Hdisj' & Hq').
  assert (Hin : ∀ ed0 e, _pending_ids ed0
                  = list_to_set (get_peer_id <$> _pending ed0) →
                e ∈ _pending ed0 → get_peer_id e ∈ _pending_ids ed0).
  { intros ed0 e -> He. apply elem_of_list_to_set, list_elem_of_fmap.
    by exists e. }
  split_and!.
  - intros i [Hp Hd]. by apply (Hdisj i).
  - intros e He. pose proof (Hin ed e Hids He) as Hp.
    split; [done|]. intros Hd. by apply (Hdisj (get_peer_id e)).
  - unfold total_count, len, dumped_count. by rewrite Hcount.
  - done.
  - intros i Hi. assert (Hi' : i ∈ _dumped_ids ed') by by apply Hsub.
    split_and!; [done| |].
    + intros Hp. by apply (Hdisj' i).
    + intros e He <-. apply (Hdisj' (get_peer_id e)); [|done].
      by apply Hin.
Qed.

Lemma offer_one_dropped ed d e :
  dropped e = true → offer_one pid client naming ed d e = Ok (ed, d).
Proof.
  destruct e as [id deleted min|id photo|id has_left mega|id]; simpl;
    [|done| |done]; by intros ->.
Qed.

Lemma extend_pending_filter ed d es :
  extend_pending pid client naming ed d es
  = extend_pending pid client naming ed d
      (filter (λ e, dropped e = false) es).
Proof.
  revert ed d. induction es as [|e es IH]; intros ed d; [done|].
  destruct (dropped e) eqn:He.
  - rewrite filter_cons_False by (simpl; congruence).
    simpl. rewrite (offer_one_dropped _ _ _ He). simpl. apply IH.
  - rewrite filter_cons_True by done. simpl.
    destruct (offer_one pid client naming ed d e) as [[ed1 d1]|]; [|done].
    simpl. apply IH.
Qed.

(** C6. [extend_pending] passes over every empty or forbidden entity,
    every deleted or minimally-known user and every channel that was
    left: the queue, the dumped ids, [total_count] and the dumper are
    what they were, and the other entities of the same call are
    treated as if the dropped ones had not been offered. *)
Theorem extend_pending_drops (ed : EntityDownloader) (d : Dumper)
    (e : entity) (es es' : list entity) :
  dropped e = true →
  extend_pending get_peer_id client naming ed d [e] = Ok (ed, d)
  ∧ extend_pending get_peer_id client naming ed d (es ++ e :: es')
    = extend_pending get_peer_id client naming ed d (es ++ es')
  ∧ (∀ ed' d',
       extend_pending get_peer_id client naming ed d [e] = Ok (ed', d') →
       _pending ed' = _pending ed
       ∧ _pending_ids ed' = _pending_ids ed
       ∧ _dumped_ids ed' = _dumped_ids ed
       ∧ total_count ed' = total_count ed
       ∧ journal d' = journal d).
Proof.
  intros He.
  assert (H1 : extend_pending pid client naming ed d [e] = Ok (ed, d)).
  { simpl. by rewrite (offer_one_dropped _ _ _ He). }
  split_and!; [done| |].
  - rewrite extend_pending_filter,
      (extend_pending_filter ed d (es ++ es')).
    rewrite !filter_app, filter_cons_False; [done|]. simpl. congruence.
  - intros ed' d'. rewrite H1. by intros [= <- <-].
Qed.

Lemma dump_chat_eq (cl : Client) ed d id photo :
  _dump_entity pid cl naming ed d (Chat id photo)
  = (_ <~ download_profile_photo pid cl naming ed photo
            (Chat id photo) None ;;
     Ok (0,
         mkEntityDownloader (photo_fmt ed) (_pending ed)
           (_pending_ids ed ∖ {[ pid (Chat id photo) ]})
           ({[ pid (Chat id photo) ]} ∪ _dumped_ids ed),
         mkDumper (chunk_size d) (max_chunks d)
           (journal d ++ chat_rows (Chat id photo) d))).
Proof.
  unfold _dump_entity.
  destruct photo as [p|]; simpl;
    destruct (download_profile_photo _ _ _ _ _ _ _) as [[]|];
    simpl; try done.
  unfold dump_chat, write. simpl. by rewrite <- app_assoc.
Qed.

Lemma offer_one_kinds ed d e ed' d' :
  Forall (λ x, is_user_or_channel x = true) (_pending ed) →
  offer_one pid client naming ed d e = Ok (ed', d') →
  Forall (λ x, is_user_or_channel x = true) (_pending ed').
Proof.
  intros Hq.
  assert (Henq : is_user_or_channel e = true →
    (if bool_decide (pid e ∉ _dumped_ids ed)
        && negb (bool_decide (pid e ∈ _pending_ids ed))
     then Ok (mkEntityDownloader (photo_fmt ed) (_pending ed ++ [e])
                ({[ pid e ]} ∪ _pending_ids ed) (_dumped_ids ed), d)
     else Ok (ed, d)) = Ok (ed', d') →
    Forall (λ x, is_user_or_channel x = true) (_pending ed')).
  { intros Hk. destruct (_ && _); intros [= <- <-]; [|done].
    simpl. apply Forall_app. split; [done|]. by repeat constructor. }
  destruct e as [id deleted min|id photo|id has_left mega|id]; simpl.
  - destruct (deleted || min); [by intros [= <- <-]|by apply Henq].
  - intros H. unbind H. destruct a as [[s0 ed0] d0].
    injection H as <- <-. apply dump_entity_Ok in E. by subst ed0.
  - destruct has_left; [by intros [= <- <-]|by apply Henq].
  - by intros [= <- <-].
Qed.

Lemma run_ops_kinds ops q q' :
  Forall (λ x, is_user_or_channel x = true) (_pending q.1) →
  run_ops pid client naming ops q = Ok q' →
  Forall (λ x, is_user_or_channel x = true) (_pending q'.1).
Proof.
  revert q. induction ops as [|op ops IH]; intros [ed d] Hq; simpl in *.
  - by intros [= <-].
  - intros H. unbind H. destruct a as [ed1 d1]. apply (IH (ed1, d1)); [|done].
    simpl. destruct op as [es|]; simpl in E.
    + clear H IH. revert ed d Hq E.
      induction es as [|e es IHes]; intros ed d Hq; simpl.
      * by intros [= <- <-].
      * intros H. unbind H. destruct a as [ed2 d2].
        eapply IHes; [|done]. by eapply offer_one_kinds.
    + unbind E. destruct a as [[s0 ed2] d2]. simpl in E.
      injection E as <- <-. unfold pop_pending in E0.
      destruct (_pending ed) as [|e rest] eqn:Hp.
      * injection E0 as _ <- _. by rewrite Hp.
      * apply dump_entity_Ok in E0. subst ed2. simpl.
        by apply Forall_cons in Hq as [_ Hq].
Qed.

(** C7. A basic group met by [extend_pending] is dumped on the spot
    from what the caller passed in: its rows are written, its peer id
    becomes a dumped id, the queue is left as it was, the full-info
    requests of the remote play no part, and the only remote call is
    the download of its photo.  Hence the queue only ever holds users
    and channels, and those are what [pop_pending] removes. *)
Theorem chat_dumped_at_offer (ed : EntityDownloader) (d : Dumper)
    (id : Z) (photo : option profile_photo) :
  let c := Chat id photo in
  offer_one get_peer_id client naming ed d c
  = (_ <~ download_profile_photo get_peer_id client naming ed photo c None ;;
     Ok (mkEntityDownloader (photo_fmt ed) (_pending ed)
           (_pending_ids ed ∖ {[ get_peer_id c ]})
           ({[ get_peer_id c ]} ∪ _dumped_ids ed),
         mkDumper (chunk_size d) (max_chunks d)
           (journal d ++ chat_rows c d)))
  ∧ (∀ full_user full_channel,
       offer_one get_peer_id
         (mkClient full_user full_channel (download_file client)
            (client_download_media client) (GetHistory client))
         naming ed d c
       = offer_one get_peer_id client naming ed d c)
  ∧ (∀ ops fmt d0 ed1 d1,
       run_ops get_peer_id client naming ops (EntityDownloader_init fmt, d0)
         = Ok (ed1, d1) →
       Forall (λ e, is_user_or_channel e = true) (_pending ed1)
       ∧ ∀ e rest, _pending ed1 = e :: rest →
           is_user_or_channel e = true
           ∧ pop_pending get_peer_id client naming ed1 d1
             = _dump_entity get_peer_id client naming
                 (mkEntityDownloader (photo_fmt ed1) rest
                    (_pending_ids ed1) (_dumped_ids ed1)) d1 e).
Proof.
  intros c. split_and!.
  - unfold offer_one, c. rewrite dump_chat_eq.
    by destruct (download_profile_photo _ _ _ _ _ _ _) as [[]|].
  - intros gfu gfc. unfold offer_one, c.
    by rewrite !dump_chat_eq.
  - intros ops fmt d0 ed1 d1 Hrun.
    pose proof (run_ops_kinds ops (EntityDownloader_init fmt, d0) _
                  (List.Forall_nil _) Hrun) as Hq.
    simpl in Hq. split; [done|]. intros e rest Hp. rewrite Hp in Hq.
    apply Forall_cons in Hq as [He _]. split; [done|].
    unfold pop_pending. by rewrite Hp.
Qed.

(** With a remote that answers, every sequence of queue operations
    runs to its end. *)
Lemma download_profile_photo_total ed photo target known_id :
  entity_calls_succeed client →
  download_profile_photo pid client naming ed photo target known_id = Ok tt.
Proof.
  intros (_ & _ & Hfile). unfold download_profile_photo.
  destruct (photo_fmt ed) as [[|? ?]|]; try done.
  match goal with
  | |- match ?x with _ => _ end = _ => destruct x as [[[[v l] s0] k]|]
  end; [apply Hfile|done].
Qed.

Lemma dump_entity_total ed d e :
  entity_calls_succeed client →
  ∃ r, _dump_entity pid client naming ed d e = Ok r.
Proof.
  intros Hc. pose proof Hc as (Hu & Hch & _). unfold _dump_entity.
  destruct e as [id deleted min|id photo|id has_left mega|id]; simpl.
  - destruct (Hu (User id deleted min)) as [full ->]. simpl.
    destruct (dump_media d _) as [photo_id d1].
    rewrite download_profile_photo_total by done. by eexists.
  - destruct (dump_media d _) as [photo_id d1].
    rewrite download_profile_photo_total by done. by eexists.
  - destruct (Hch (Channel id has_left mega)) as [full ->]. simpl.
    destruct (dump_media d _) as [photo_id d1].
    rewrite download_profile_photo_total by done. by eexists.
  - by eexists.
Qed.

Lemma run_ops_total ops q :
  entity_calls_succeed client →
  ∃ q', run_ops pid client naming ops q = Ok q'.
Proof.
  intros Hc. revert q. induction ops as [|op ops IH]; intros [ed d]; simpl.
  - by eexists.
  - assert (∃ q1, run_op pid client naming (ed, d) op = Ok q1) as [q1 ->].
    { destruct op as [es|]; simpl.
      - revert ed d. induction es as [|e es IHes]; intros ed d; simpl.
        + by eexists.
        + assert (∃ q1, offer_one pid client naming ed d e = Ok q1)
            as [[ed1 d1] ->].
          { destruct e as [id deleted min|id photo|id has_left mega|id];
              simpl.
            - destruct (deleted || min); [by eexists|].
              destruct (_ && _); by eexists.
            - destruct (dump_entity_total ed d (Chat id photo) Hc)
                as [[[s0 ed1] d1] ->]. by eexists.
            - destruct has_left; [by eexists|].
              destruct (_ && _); by eexists.
            - by eexists. }
          simpl. apply IHes.
      - unfold pop_pending. destruct (_pending ed) as [|e rest].
        + by eexists.
        + destruct (dump_entity_total
                      (mkEntityDownloader (photo_fmt ed) rest
                         (_pending_ids ed) (_dumped_ids ed)) d e Hc)
            as [r ->]. by eexists. }
    simpl. apply IH.
Qed.

End QueueFacts.

Section QueueScenarios.
Import Downloader Sim.

Lemma steady_client_succeeds pages :
  entity_calls_succeed (steady_client pages).
Proof. repeat split; intros; by eexists. Qed.

Lemma entity_queue_invariant_witness :
  let ed := mkEntityDownloader None [Channel 3 false true]
              {[ -1000000000003 ]} {[ 1; -2 ]} in
  let ed' := mkEntityDownloader None [User 6 false false]
               {[ 6 ]} {[ 1; -2; -1000000000003 ]} in
  total_count ed = len ed + dumped_count ed
  ∧ (1 ∈ _dumped_ids ed → 1 ∈ _dumped_ids ed' ∧ 1 ∉ _pending_ids ed').
Proof.
  intros ed ed'.
  set (d := mkDumper 100 0
              [ RowChat (Chat 2 None) None;
                RowUser (UserFull (User 1 false false) None) None ]).
  set (d' := mkDumper 100 0
               [ RowChat (Chat 2 None) None;
                 RowUser (UserFull (User 1 false false) None) None;
                 RowSupergroup (ChatFull 0 None) (Channel 3 false true)
                   None ]).
  assert (H1 : run_ops mark_peer_id (steady_client (history_of []))
                 plain_naming first_batch
                 (EntityDownloader_init None, fresh_dumper 100 0)
               = Ok (ed, d)) by (vm_compute; reflexivity).
  assert (H2 : run_ops mark_peer_id (steady_client (history_of []))
                 plain_naming second_batch (ed, d) = Ok (ed', d'))
    by (vm_compute; reflexivity).
  assert (Hapart : chats_apart mark_peer_id
                     (offered (first_batch ++ second_batch)))
    by (apply chats_apartb_sound; vm_compute; reflexivity).
  destruct (entity_queue_invariant mark_peer_id
              (steady_client (history_of [])) plain_naming None
              (fresh_dumper 100 0) first_batch second_batch
              ed ed' d d' Hapart H1 H2)
    as (_ & _ & Hcount & _ & Hlater).
  split; [exact Hcount|]. intros H.
  destruct (Hlater 1 H) as (Hd & Hp & _). exact (conj Hd Hp).
Defined.

Lemma extend_pending_drops_witness :
  extend_pending mark_peer_id (steady_client (history_of [])) plain_naming
    (EntityDownloader_init None) (fresh_dumper 100 0)
    [Channel 9 true false]
  = Ok (EntityDownloader_init None, fresh_dumper 100 0).
Proof.
  apply (extend_pending_drops mark_peer_id (steady_client (history_of []))
           plain_naming (EntityDownloader_init None) (fresh_dumper 100 0)
           (Channel 9 true false) [] []).
  reflexivity.
Defined.

Lemma chat_dumped_at_offer_witness :
  Forall (λ e, is_user_or_channel e = true) [Channel 3 false true].
Proof.
  assert (H1 : run_ops mark_peer_id (steady_client (history_of []))
                 plain_naming first_batch
                 (EntityDownloader_init None, fresh_dumper 100 0)
               = Ok (mkEntityDownloader None [Channel 3 false true]
                       {[ -1000000000003 ]} {[ 1; -2 ]},
                     mkDumper 100 0
                       [ RowChat (Chat 2 None) None;
                         RowUser (UserFull (User 1 false false) None)
                           None ]))
    by (vm_compute; reflexivity).
  exact (proj1 (proj2 (proj2 (chat_dumped_at_offer mark_peer_id
    (steady_client (history_of [])) plain_naming
    (EntityDownloader_init None) (fresh_dumper 100 0) 2 None))
    first_batch None (fresh_dumper 100 0) _ _ H1)).
Defined.

End QueueScenarios.

(** ** downloader.py: what the paging loop writes *)

Section JournalFacts.
Import Downloader.

Variable get_peer_id : entity → Z.
Variable client : Client.
Variable naming : Naming.
Variable self : DownloaderSelf.
Variable tid : Z.

Local Abbreviation pid := get_peer_id.

Local Ltac unbind H :=
  match type of H with
  | bind ?m _ = Ok _ =>
      let E := fresh "E" in
      destruct m eqn:E; simpl in H; [|discriminate H]
  end.

Lemma message_ids_app j1 j2 :
  message_ids tid (j1 ++ j2) = message_ids tid j1 ++ message_ids tid j2.
Proof. unfold message_ids. apply flat_map_app. Qed.

Lemma resume_rows_app j1 j2 :
  resume_rows tid (j1 ++ j2) = resume_rows tid j1 ++ resume_rows tid j2.
Proof. unfold resume_rows. apply flat_map_app. Qed.

Lemma adds_refl d : adds tid [] d d.
Proof. exists []. rewrite app_nil_r. by destruct d. Qed.

Lemma adds_trans ids1 ids2 d d1 d2 :
  adds tid ids1 d d1 → adds tid ids2 d1 d2 → adds tid (ids1 ++ ids2) d d2.
Proof.
  intros (r1 & -> & Hm1 & Hr1) (r2 & -> & Hm2 & Hr2). exists (r1 ++ r2).
  simpl. rewrite app_assoc, message_ids_app, resume_rows_app, Hm1, Hm2, Hr1, Hr2.
  done.
Qed.

Lemma adds_quiet d r : quiet_row r = true → adds tid [] d (write d r).
Proof. intros Hq. exists [r]. by destruct r. Qed.

Lemma adds_nil_trans d d1 d2 :
  adds tid [] d d1 → adds tid [] d1 d2 → adds tid [] d d2.
Proof. intros H1 H2. apply (adds_trans [] [] d d1 d2 H1 H2). Qed.

Lemma dump_media_adds d x :
  adds tid [] d (dump_media d x).2.
Proof.
  destruct x as [x|]; simpl; [by apply adds_quiet|apply adds_refl].
Qed.

Lemma dump_forward_adds d x :
  adds tid [] d (dump_forward d x).2.
Proof.
  destruct x as [x|]; simpl; [by apply adds_quiet|apply adds_refl].
Qed.

Lemma dump_entity_adds ed d e s ed' d' :
  _dump_entity pid client naming ed d e = Ok (s, ed', d') →
  adds tid [] d d'.
Proof.
  unfold _dump_entity. intros H. unbind H. destruct a as [s0 d0].
  injection H as _ _ <-.
  destruct e as [id deleted min|id photo|id has_left mega|id].
  - unbind E. pose proof (dump_media_adds d (inr <$> uf_profile_photo a)) as Hm.
    destruct (dump_media d _) as [photo_id d1]. simpl in *.
    unbind E. injection E as _ <-.
    eapply adds_nil_trans; [done|]. by apply adds_quiet.
  - pose proof (dump_media_adds d (inr <$> photo)) as Hm.
    destruct (dump_media d _) as [photo_id d1]. simpl in *.
    unbind E. injection E as _ <-.
    eapply adds_nil_trans; [done|]. by apply adds_quiet.
  - unbind E. pose proof (dump_media_adds d (inr <$> cf_chat_photo a)) as Hm.
    destruct (dump_media d _) as [photo_id d1]. simpl in *.
    unbind E. injection E as _ <-.
    eapply adds_nil_trans; [done|]. destruct mega; by apply adds_quiet.
  - injection E as _ <-. apply adds_refl.
Qed.

Lemma offer_one_adds ed d e ed' d' :
  offer_one pid client naming ed d e = Ok (ed', d') → adds tid [] d d'.
Proof.
  assert (Henq :
    (if bool_decide (pid e ∉ _dumped_ids ed)
        && negb (bool_decide (pid e ∈ _pending_ids ed))
     then Ok (mkEntityDownloader (photo_fmt ed) (_pending ed ++ [e])
                ({[ pid e ]} ∪ _pending_ids ed) (_dumped_ids ed), d)
     else Ok (ed, d)) = Ok (ed', d') → adds tid [] d d').
  { destruct (_ && _); intros [= _ <-]; apply adds_refl. }
  destruct e as [id deleted min|id photo|id has_left mega|id]; simpl.
  - destruct (deleted || min); [|done]. intros [= _ <-]; apply adds_refl.
  - intros H. unbind H. destruct a as [[s0 ed0] d0]. injection H as _ <-.
    by eapply dump_entity_adds.
  - destruct has_left; [|done]. intros [= _ <-]; apply adds_refl.
  - intros [= _ <-]; apply adds_refl.
Qed.

Lemma extend_pending_adds ed d es ed' d' :
  extend_pending pid client naming ed d es = Ok (ed', d') → adds tid [] d d'.
Proof.
  revert ed d. induction es as [|e es IH]; intros ed d; simpl.
  - intros [= _ <-]. apply adds_refl.
  - intros H. unbind H. destruct a as [ed1 d1].
    eapply adds_nil_trans; [by eapply offer_one_adds|by eapply IH].
Qed.

Lemma pop_pending_adds ed d s ed' d' :
  pop_pending pid client naming ed d = Ok (s, ed', d') → adds tid [] d d'.
Proof.
  unfold pop_pending. destruct (_pending ed) as [|e rest].
  - intros [= _ _ <-]. apply adds_refl.
  - apply dump_entity_adds.
Qed.

Lemma adds_message d m f md :
  adds tid [msg_id m] d (dump_message d m tid f md).
Proof.
  exists [RowMessage tid m f md]. split; [done|]. simpl.
  by rewrite decide_True by done.
Qed.

Lemma adds_message_service d m md :
  adds tid [msg_id m] d (dump_message_service d m tid md).
Proof.
  exists [RowMessageService tid m md]. split; [done|]. simpl.
  by rewrite decide_True by done.
Qed.

Lemma dump_page_message_adds ed target d m d' :
  dump_page_message pid client naming self ed target tid d m = Ok d' →
  adds tid (persisted_ids [m]) d d'.
Proof.
  destruct m as [id date from fwd media|id date action|id]; simpl.
  - intros H. unbind H. unbind H.
    pose proof (dump_forward_adds d fwd) as Hf.
    destruct (dump_forward d fwd) as [fwd_id d1]. simpl in Hf.
    pose proof (dump_media_adds d1 (inl <$> media)) as Hm.
    destruct (dump_media d1 _) as [media_id d2]. simpl in Hm.
    injection H as <-.
    apply (adds_trans [] [id] d d2); [by eapply adds_nil_trans|].
    apply (adds_message d2 (Message id date from fwd media)).
  - destruct action as [p|].
    + pose proof (dump_media_adds d (Some (inr (FullPhoto p)))) as Hm.
      simpl in Hm. intros H. unbind H. injection H as <-.
      apply (adds_trans [] [id] d _ _ Hm).
      apply (adds_message_service _ (MessageService id date _)).
    + intros [= <-].
      apply (adds_message_service d (MessageService id date _)).
  - intros [= <-]. apply adds_refl.
Qed.

Lemma dump_page_adds ed target d ms d' :
  dump_page pid client naming self ed target tid d ms = Ok d' →
  adds tid (persisted_ids ms) d d'.
Proof.
  revert d. induction ms as [|m ms IH]; intros d H; simpl in H.
  - injection H as <-. apply adds_refl.
  - unbind H.
    replace (persisted_ids (m :: ms))
      with (persisted_ids [m] ++ persisted_ids ms)
      by (unfold persisted_ids; simpl; by rewrite app_nil_r).
    apply (adds_trans (persisted_ids [m]) (persisted_ids ms) d a d').
    + by eapply dump_page_message_adds.
    + by apply IH.
Qed.

(** What [process_page] leaves behind when it returns. *)
Lemma process_page_spec target st n st1 :
  pid target = tid →
  process_page pid client naming self target st = Ok (n, st1) →
  ∃ h, GetHistory client (req st) = Ok h
    ∧ n = Z.of_nat (List.length (h_messages h))
    ∧ adds tid (persisted_ids (h_messages h)) (dumper st) (dumper st1)
    ∧ stop_at st1 = stop_at st
    ∧ chunks_left st1 = chunks_left st
    ∧ limit (req st1) = limit (req st)
    ∧ match h_messages h with
      | [] => req st1 = req st
      | m :: ms => offset_id (req st1) = foldl Z.min (msg_id m) (map msg_id ms)
      end.
Proof.
  intros Htid. unfold process_page. rewrite Htid. intros H.
  unbind H. rename a into h. exists h. split; [done|].
  unbind H. destruct a as [ed1 d1].
  apply extend_pending_adds in E0.
  unbind H. destruct a as [[s0 ed2] d2].
  apply pop_pending_adds in E1.
  unbind H. rename a into d3. apply dump_page_adds in E2.
  assert (Hadds : adds tid (persisted_ids (h_messages h)) (dumper st) d3).
  { apply (adds_trans [] _ (dumper st) d2 d3); [|done].
    by eapply adds_nil_trans. }
  destruct (h_messages h) as [|m ms] eqn:Hms.
  - simpl in H. injection H as <- <-. by repeat split.
  - unbind H. destruct a as [found' req']. injection H as <- <-.
    simpl. simpl in E3. unbind E3. injection E3 as _ <-.
    by repeat split.
Qed.

End JournalFacts.

(** ** downloader.py: the paging loop *)

Section PagingFacts.
Import Downloader.

Variable get_peer_id : entity → Z.
Variable client : Client.
Variable naming : Naming.
Variable self : DownloaderSelf.

Local Abbreviation pid := get_peer_id.

Local Ltac unbind H :=
  match type of H with
  | bind ?m _ = Ok _ =>
      let E := fresh "E" in
      destruct m eqn:E; simpl in H; [|discriminate H]
  end.

Lemma get_resume_save d tid msg date stop :
  get_resume (save_resume d tid msg date stop) tid = (msg, date, stop).
Proof.
  unfold get_resume, save_resume, write. simpl.
  unfold resume_rows. rewrite flat_map_app. simpl.
  rewrite decide_True by done. simpl. by rewrite last_snoc.
Qed.

Lemma get_resume_commit d tid :
  get_resume (commit d) tid = get_resume d tid.
Proof.
  unfold get_resume, commit, write. simpl.
  unfold resume_rows. rewrite flat_map_app. simpl. by rewrite app_nil_r.
Qed.

(** C1. After a page is processed the ways out of the paging loop are
    tried in this order: (a) a page shorter than the limit: the cursor
    is reset with the highest persisted message id as the new stop-at,
    and the loop ends; (b) otherwise, an offset at or below the stop-at
    carried over: the same update, and the loop ends; (c) otherwise the
    cursor is saved at the new offset with the old stop-at, and the
    loop ends there, stop-at untouched, when the page budget is used
    up. *)
Theorem paging_exits_in_order (target : entity) (st st1 : LoopState)
    (n : Z) :
  process_page get_peer_id client naming self target st = Ok (n, st1) →
  let tid := get_peer_id target in
  let d := dumper st1 in
  let stopped :=
    mkLoop (req st1) (stop_at st) (chunks_left st) (found st1)
      (entity_downloader st1)
      (save_resume_stop_at d tid (get_message_id_MAX d tid)) in
  let saved :=
    save_resume d tid (offset_id (req st1)) (offset_date (req st1))
      (stop_at st) in
  (∃ h, GetHistory client (req st) = Ok h
        ∧ n = Z.of_nat (List.length (h_messages h)))
  ∧ (n < limit (req st) →
     loop_body get_peer_id client naming self target st
     = Ok (stopped, Break))
  ∧ (limit (req st) ≤ n → offset_id (req st1) ≤ stop_at st →
     loop_body get_peer_id client naming self target st
     = Ok (stopped, Break))
  ∧ (limit (req st) ≤ n → stop_at st < offset_id (req st1) →
     chunks_left st - 1 = 0 →
     loop_body get_peer_id client naming self target st
     = Ok (mkLoop (req st1) (stop_at st) 0 (found st1)
             (entity_downloader st1) saved, Break))
  ∧ (limit (req st) ≤ n → stop_at st < offset_id (req st1) →
     chunks_left st - 1 ≠ 0 →
     loop_body get_peer_id client naming self target st
     = Ok (mkLoop (req st1) (stop_at st) (chunks_left st - 1) (found st1)
             (entity_downloader st1) (commit saved), Continue))
  ∧ get_resume (dumper stopped) tid = (0, 0, get_message_id_MAX d tid)
  ∧ get_resume saved tid
    = (offset_id (req st1), offset_date (req st1), stop_at st)
  ∧ get_resume (commit saved) tid
    = (offset_id (req st1), offset_date (req st1), stop_at st).
Proof.
  intros Hpage tid d stopped saved.
  destruct (process_page_spec pid client naming self tid target st n st1
              eq_refl Hpage)
    as (h & Hh & Hn & _ & Hstop & Hchunks & Hlim & _).
  assert (Hbody : loop_body pid client naming self target st
                  = Ok (end_of_page tid n st1)).
  { unfold loop_body. by rewrite Hpage. }
  rewrite Hbody. unfold end_of_page. rewrite Hlim, Hstop, Hchunks.
  split_and!.
  - by exists h.
  - intros Hlt. by rewrite bool_decide_true by done.
  - intros Hge Hle.
    rewrite bool_decide_false by lia. by rewrite bool_decide_true by done.
  - intros Hge Hgt H0.
    rewrite bool_decide_false by lia. rewrite bool_decide_false by lia.
    rewrite bool_decide_true by done. by rewrite H0.
  - intros Hge Hgt H0.
    rewrite bool_decide_false by lia. rewrite bool_decide_false by lia.
    by rewrite bool_decide_false by done.
  - apply get_resume_save.
  - apply get_resume_save.
  - rewrite get_resume_commit. apply get_resume_save.
Qed.

(** *** The highest persisted id only grows *)

Lemma foldr_max_init (x : Z) (l : list Z) : x ≤ foldr Z.max x l.
Proof. induction l as [|y l IH]; simpl; lia. Qed.

Lemma foldr_max_app (x : Z) (l l' : list Z) :
  foldr Z.max x l ≤ foldr Z.max x (l ++ l').
Proof.
  induction l as [|y l IH]; simpl; [apply foldr_max_init|lia].
Qed.

Lemma MAX_adds tid ids d d' :
  adds tid ids d d' → Forall (λ i, 0 < i) ids →
  get_message_id_MAX d tid ≤ get_message_id_MAX d' tid.
Proof.
  intros (rows & -> & Hids & _) Hpos. unfold get_message_id_MAX. simpl.
  unfold message_ids in *. rewrite flat_map_app, Hids.
  destruct (flat_map _ (journal d)) as [|x l]; simpl.
  - destruct Hpos as [|y ids Hy _]; [done|]. simpl.
    pose proof (foldr_max_init y ids). lia.
  - apply foldr_max_app.
Qed.

Lemma adds_reads tid d d' :
  adds tid [] d d' →
  get_resume d' tid = get_resume d tid
  ∧ get_message_id_MAX d' tid = get_message_id_MAX d tid
  ∧ chunk_size d' = chunk_size d ∧ max_chunks d' = max_chunks d.
Proof.
  intros (rows & -> & Hids & Hres).
  unfold get_resume, get_message_id_MAX. simpl.
  unfold message_ids, resume_rows in *.
  by rewrite !flat_map_app, Hids, Hres, !app_nil_r.
Qed.

Lemma MAX_save_resume d tid msg date stop :
  get_message_id_MAX (save_resume d tid msg date stop) tid
  = get_message_id_MAX d tid.
Proof.
  unfold get_message_id_MAX, save_resume, write, message_ids. simpl.
  by rewrite flat_map_app, app_nil_r.
Qed.

Lemma MAX_commit d tid :
  get_message_id_MAX (commit d) tid = get_message_id_MAX d tid.
Proof.
  unfold get_message_id_MAX, commit, write, message_ids. simpl.
  by rewrite flat_map_app, app_nil_r.
Qed.

(** *** Chains of cursors *)

Lemma monotone_cursors_nil : monotone_cursors [].
Proof. intros i c1 c2 H. by rewrite lookup_nil in H. Qed.

Lemma monotone_cursors_snoc cs c :
  monotone_cursors cs → Forall (λ c1, cursor_step c1 c) cs →
  monotone_cursors (cs ++ [c]).
Proof.
  intros Hm Hall i c1 c2 H1 H2.
  destruct (decide (S i < List.length cs)%nat) as [Hlt|Hge].
  - rewrite lookup_app_l in H1 by lia. rewrite lookup_app_l in H2 by lia.
    by apply (Hm i).
  - assert (i < List.length cs)%nat as Hi.
    { apply lookup_lt_Some in H2. rewrite length_app in H2. simpl in H2. lia. }
    rewrite lookup_app_l in H1 by lia.
    rewrite lookup_app_r in H2 by lia.
    replace (S i - List.length cs)%nat with 0%nat in H2 by lia.
    injection H2 as <-.
    rewrite Forall_forall in Hall. apply Hall.
    by eapply list_elem_of_lookup_2.
Qed.

(** *** One turn of the loop writes one cursor *)

Lemma foldl_min_in (x : Z) (l : list Z) : foldl Z.min x l ∈ x :: l.
Proof.
  revert x. induction l as [|y l IH]; intros x; simpl; [by left|].
  specialize (IH (Z.min x y)). apply elem_of_cons in IH as [->|IH].
  - destruct (Z.min_spec x y) as [[_ ->]|[_ ->]]; [by left|by right; left].
  - by right; right.
Qed.

Lemma persisted_ids_subset (ms : list message) :
  ∀ i, i ∈ persisted_ids ms → i ∈ map msg_id ms.
Proof.
  induction ms as [|m ms IH]; intros i; [done|].
  unfold persisted_ids. simpl. rewrite elem_of_app. intros [Hi|Hi].
  - destruct m; simpl in *; try (by apply elem_of_nil in Hi);
      apply list_elem_of_singleton in Hi as ->; by left.
  - right. by apply IH.
Qed.

Lemma loop_body_cursors target st st' f cs s0 :
  let tid := pid target in
  0 < limit (req st) → newest_first_remote client →
  stop_at st = s0 → s0 ≤ get_message_id_MAX (dumper st) tid →
  Forall (λ c, c.2 = s0 ∧ offset_id (req st) ≤ c.1.1) cs →
  (cs ≠ [] → 0 < offset_id (req st)) →
  loop_body pid client naming self target st = Ok (st', f) →
  ∃ rows c,
    journal (dumper st') = journal (dumper st) ++ rows
    ∧ resume_rows tid rows = [c]
    ∧ Forall (λ c1, cursor_step c1 c) cs
    ∧ s0 ≤ c.2
    ∧ c.2 ≤ get_message_id_MAX (dumper st') tid
    ∧ s0 ≤ get_message_id_MAX (dumper st') tid
    ∧ (f = Continue →
       stop_at st' = s0 ∧ limit (req st') = limit (req st)
       ∧ Forall (λ c1, c1.2 = s0 ∧ offset_id (req st') ≤ c1.1.1) (cs ++ [c])
       ∧ 0 < offset_id (req st')).
Proof.
  intros tid Hlim Hremote Hs0 Hmax Hcs Hne Hbody.
  unfold loop_body in Hbody. unbind Hbody. destruct a as [n st1].
  injection Hbody as Hend.
  destruct (process_page_spec pid client naming self tid target st n st1
              eq_refl E)
    as (h & Hh & Hn & Hadds & Hstop & Hchunks & Hlim1 & Hoff).
  pose proof (Hremote _ _ Hh) as Hpage.
  assert (Hpos : Forall (λ i, 0 < i) (persisted_ids (h_messages h))).
  { apply Forall_forall. intros i Hi.
    apply persisted_ids_subset, list_elem_of_In, in_map_iff in Hi
      as (m & <- & Hm).
    rewrite Forall_forall in Hpage.
    by destruct (Hpage m (proj2 (list_elem_of_In _ _) Hm)). }
  pose proof (MAX_adds tid _ _ _ Hadds Hpos) as Hmax1.
  destruct Hadds as (rows1 & Hd1 & _ & Hres1).
  assert (Hj1 : journal (dumper st1) = journal (dumper st) ++ rows1)
    by by rewrite Hd1.
  assert (Hstopped :
    ∀ st2, dumper st2
           = save_resume_stop_at (dumper st1) tid
               (get_message_id_MAX (dumper st1) tid) →
      ∃ rows c,
        journal (dumper st2) = journal (dumper st) ++ rows
        ∧ resume_rows tid rows = [c]
        ∧ Forall (λ c1, cursor_step c1 c) cs
        ∧ s0 ≤ c.2
        ∧ c.2 ≤ get_message_id_MAX (dumper st2) tid
        ∧ s0 ≤ get_message_id_MAX (dumper st2) tid).
  { intros st2 Hd2.
    exists (rows1 ++ [RowResume tid 0 0 (get_message_id_MAX (dumper st1) tid)]),
      (0, 0, get_message_id_MAX (dumper st1) tid).
    rewrite Hd2. unfold save_resume_stop_at. rewrite MAX_save_resume.
    split_and!.
    - simpl. by rewrite Hj1, app_assoc.
    - unfold resume_rows in *. rewrite flat_map_app, Hres1. simpl.
      by rewrite decide_True by done.
    - apply Forall_forall. intros c1 Hc1.
      rewrite Forall_forall in Hcs. destruct (Hcs c1 Hc1) as [Hc1s Hc1o].
      assert (cs ≠ []) as Hcsne by (intros ->; by apply elem_of_nil in Hc1).
      specialize (Hne Hcsne). unfold cursor_step. simpl. lia.
    - simpl. lia.
    - simpl. lia.
    - lia. }
  unfold end_of_page in Hend.
  destruct (bool_decide (n < limit (req st1))) eqn:Ha.
  { injection Hend as Hst <-.
    destruct (Hstopped st' ltac:(by rewrite <- Hst))
      as (rows & c & ? & ? & ? & ? & ? & ?).
    exists rows, c. by split_and!. }
  destruct (bool_decide (offset_id (req st1) ≤ stop_at st1)) eqn:Hb.
  { injection Hend as Hst <-.
    destruct (Hstopped st' ltac:(by rewrite <- Hst))
      as (rows & c & ? & ? & ? & ? & ? & ?).
    exists rows, c. by split_and!. }
  apply bool_decide_eq_false in Ha, Hb.
  (* the page was full, hence not empty *)
  destruct (h_messages h) as [|m ms] eqn:Hms; [simpl in Hn; lia|].
  pose proof (foldl_min_in (msg_id m) (map msg_id ms)) as Hmin.
  rewrite <- Hoff in Hmin.
  change (msg_id m :: map msg_id ms) with (map msg_id (m :: ms)) in Hmin.
  apply list_elem_of_In, in_map_iff in Hmin as (m' & Hm' & Hin).
  rewrite Forall_forall in Hpage.
  destruct (Hpage m' (proj2 (list_elem_of_In _ _) Hin)) as [Hm'pos Hm'lt].
  rewrite Hm' in Hm'pos, Hm'lt.
  set (c := (offset_id (req st1), offset_date (req st1), stop_at st1)).
  assert (Hstep : Forall (λ c1, cursor_step c1 c) cs).
  { apply Forall_forall. intros c1 Hc1.
    rewrite Forall_forall in Hcs. destruct (Hcs c1 Hc1) as [Hc1s Hc1o].
    assert (cs ≠ []) as Hcsne by (intros ->; by apply elem_of_nil in Hc1).
    specialize (Hne Hcsne). unfold cursor_step, c. simpl. lia. }
  assert (Hsaved :
    ∀ st2 rows2, journal (dumper st2)
                 = journal (dumper st1) ++ RowResume tid (offset_id (req st1))
                     (offset_date (req st1)) (stop_at st1) :: rows2 →
      resume_rows tid rows2 = [] → message_ids tid rows2 = [] →
      ∃ rows c,
        journal (dumper st2) = journal (dumper st) ++ rows
        ∧ resume_rows tid rows = [c]
        ∧ Forall (λ c1, cursor_step c1 c) cs
        ∧ s0 ≤ c.2
        ∧ c.2 ≤ get_message_id_MAX (dumper st2) tid
        ∧ s0 ≤ get_message_id_MAX (dumper st2) tid
        ∧ Forall (λ c1, c1.2 = s0 ∧ offset_id (req st1) ≤ c1.1.1) (cs ++ [c])).
  { intros st2 rows2 Hj2 Hr2 Hm2.
    assert (HM : get_message_id_MAX (dumper st2) tid
                 = get_message_id_MAX (dumper st1) tid).
    { unfold get_message_id_MAX. rewrite Hj2.
      unfold message_ids in *.
      rewrite flat_map_app. simpl. by rewrite Hm2, app_nil_r. }
    exists (rows1 ++ RowResume tid (offset_id (req st1))
                      (offset_date (req st1)) (stop_at st1) :: rows2), c.
    rewrite HM. split_and!.
    - by rewrite Hj2, Hj1, <- app_assoc.
    - unfold resume_rows in *. rewrite flat_map_app, Hres1. simpl.
      rewrite decide_True by done. by rewrite Hr2.
    - done.
    - unfold c. simpl. lia.
    - unfold c. simpl. lia.
    - lia.
    - apply Forall_app. split.
      + apply Forall_forall. intros c1 Hc1.
        rewrite Forall_forall in Hcs. destruct (Hcs c1 Hc1) as [Hc1s Hc1o].
        assert (cs ≠ []) as Hcsne by (intros ->; by apply elem_of_nil in Hc1).
        specialize (Hne Hcsne). split; [done|lia].
      + apply Forall_singleton. unfold c. simpl. split; [lia|lia]. }
  destruct (bool_decide (chunks_left st1 - 1 = 0)) eqn:Hc.
  - injection Hend as <- <-.
    destruct (Hsaved (mkLoop (req st1) (stop_at st1) (chunks_left st1 - 1)
                        (found st1) (entity_downloader st1)
                        (save_resume (dumper st1) tid (offset_id (req st1))
                           (offset_date (req st1)) (stop_at st1)))
                [] eq_refl eq_refl eq_refl)
      as (rows & c' & ? & ? & ? & ? & ? & ? & ?).
    exists rows, c'. by split_and!.
  - injection Hend as <- <-.
    destruct (Hsaved (mkLoop (req st1) (stop_at st1) (chunks_left st1 - 1)
                        (found st1) (entity_downloader st1)
                        (commit (save_resume (dumper st1) tid
                           (offset_id (req st1)) (offset_date (req st1))
                           (stop_at st1))))
                [RowCommit]
                ltac:(simpl; by rewrite <- app_assoc) eq_refl eq_refl)
      as (rows & c' & ? & ? & ? & ? & ? & ? & ?).
    exists rows, c'. split_and!; try done.
    intros _. simpl. split_and!; [lia|done|done|lia].
Qed.

Lemma get_resume_last d tid rows c :
  resume_rows tid rows = [c] →
  get_resume (mkDumper (chunk_size d) (max_chunks d) (journal d ++ rows)) tid
  = c.
Proof.
  intros Hc. unfold get_resume. simpl.
  unfold resume_rows in *. rewrite flat_map_app, Hc. by rewrite last_snoc.
Qed.

Lemma paging_cursors target fuel j0 s0 :
  let tid := pid target in
  newest_first_remote client →
  ∀ st new0 st' f,
    0 < limit (req st) →
    stop_at st = s0 → s0 ≤ get_message_id_MAX (dumper st) tid →
    (get_resume (dumper st) tid).2 ≤ get_message_id_MAX (dumper st) tid →
    journal (dumper st) = j0 ++ new0 →
    monotone_cursors (resume_rows tid new0) →
    Forall (λ c, c.2 = s0 ∧ offset_id (req st) ≤ c.1.1)
      (resume_rows tid new0) →
    (resume_rows tid new0 ≠ [] → 0 < offset_id (req st)) →
    paging pid client naming self fuel target st = Ok (st', f) →
    ∃ new, journal (dumper st') = j0 ++ new
      ∧ monotone_cursors (resume_rows tid new)
      ∧ Forall (λ c, s0 ≤ c.2) (resume_rows tid new)
      ∧ (get_resume (dumper st') tid).2
        ≤ get_message_id_MAX (dumper st') tid.
Proof.
  intros tid Hremote. subst tid.
  induction fuel as [|fuel IH];
    intros st new0 st' f Hlim Hs0 Hmax Hres Hj Hmono Hcs Hne Hrun;
    simpl in Hrun.
  - injection Hrun as <- <-. exists new0. split_and!; [done|done| |done].
    eapply Forall_impl; [exact Hcs|]. intros c [-> _]. lia.
  - unbind Hrun. destruct a as [st1 f1].
    destruct (loop_body_cursors target st st1 f1 _ s0 Hlim Hremote
                Hs0 Hmax Hcs Hne E)
      as (rows & c & Hj1 & Hr1 & Hstep & Hc0 & HcM & Hmax1 & Hcont).
    assert (Hres_new : resume_rows (pid target) (new0 ++ rows)
                       = resume_rows (pid target) new0 ++ [c]).
    { by rewrite resume_rows_app, Hr1. }
    assert (Hj1' : journal (dumper st1) = j0 ++ (new0 ++ rows)).
    { by rewrite Hj1, Hj, app_assoc. }
    assert (Hmono1 : monotone_cursors
                       (resume_rows (pid target) (new0 ++ rows))).
    { rewrite Hres_new. by apply monotone_cursors_snoc. }
    assert (Hres1 : (get_resume (dumper st1) (pid target)).2
                    ≤ get_message_id_MAX (dumper st1) (pid target)).
    { unfold get_resume. rewrite Hj1.
      rewrite resume_rows_app, Hr1, last_snoc. done. }
    destruct f1.
    + destruct (Hcont eq_refl) as (Hs1 & Hlim1 & Hcs1 & Hpos1).
      apply (IH st1 (new0 ++ rows) st' f); try done.
      * lia.
      * by rewrite Hres_new.
    + injection Hrun as <- <-. exists (new0 ++ rows).
      split_and!; [done|done| |done].
      rewrite Hres_new. apply Forall_app. split.
      * eapply Forall_impl; [exact Hcs|]. intros c1 [-> _]. lia.
      * by apply Forall_singleton.
Qed.

Lemma save_messages_init_spec d target st0 :
  let tid := pid target in
  save_messages_init pid client naming self d target = Ok st0 →
  adds tid [] d (dumper st0)
  ∧ stop_at st0 = (get_resume d tid).2
  ∧ limit (req st0) = chunk_size d
  ∧ offset_id (req st0) = (get_resume d tid).1.1
  ∧ chunks_left st0 = max_chunks d.
Proof.
  intros tid. subst tid. unfold save_messages_init. intros H. unbind H.
  destruct a as [ed d1].
  apply (extend_pending_adds pid client naming (pid target)) in E.
  destruct (adds_reads (pid target) d d1 E) as (Hr & _ & Hc & Hm).
  rewrite Hr in H.
  destruct (get_resume d (pid target)) as [[o dt] sa]. injection H as <-.
  simpl. by split_and!.
Qed.

(** C3. Within one run of [save_messages], from one persisted cursor to
    the next the offset id does not grow and the stop-at does not
    shrink, and no persisted stop-at is below the one the run started
    with.  The remote keeps its contract (positive ids, pages below the
    offset asked for), the page size is positive, and the stop-at
    loaded at the start is not above the highest stored message id (as
    it is after every run). *)
Theorem resume_cursor_monotone (d : Dumper) (target : entity) (fuel : nat)
    (st0 st' : LoopState) (f : flow) :
  let tid := get_peer_id target in
  0 < chunk_size d →
  stop_at_persisted d tid →
  newest_first_remote client →
  save_messages_init get_peer_id client naming self d target = Ok st0 →
  paging get_peer_id client naming self fuel target st0 = Ok (st', f) →
  ∃ new, journal (dumper st') = journal d ++ new
    ∧ monotone_cursors (resume_rows tid new)
    ∧ Forall (λ c, (get_resume d tid).2 ≤ c.2) (resume_rows tid new)
    ∧ stop_at_persisted (dumper st') tid.
Proof.
  intros tid Hchunk Hstore Hremote Hinit Hrun. subst tid.
  destruct (save_messages_init_spec d target st0 Hinit)
    as (Hadds & Hs0 & Hlim & _ & _).
  destruct (adds_reads _ _ _ Hadds) as (Hr & HM & _ & _).
  destruct Hadds as (rows0 & Hd0 & _ & Hres0).
  unfold stop_at_persisted in *.
  apply (paging_cursors target fuel (journal d)
           (get_resume d (pid target)).2 Hremote st0 rows0 st' f).
  - lia.
  - done.
  - by rewrite HM.
  - by rewrite Hr, HM.
  - by rewrite Hd0.
  - rewrite Hres0. apply monotone_cursors_nil.
  - by rewrite Hres0.
  - by rewrite Hres0.
  - done.
Qed.

(** *** Catching up with an earlier run *)

Lemma foldl_min_le (x : Z) (l : list Z) :
  ∀ y, y ∈ x :: l → foldl Z.min x l ≤ y.
Proof.
  revert x. induction l as [|z l IH]; intros x y Hy; simpl.
  - apply list_elem_of_singleton in Hy as ->. lia.
  - apply elem_of_cons in Hy as [->|Hy].
    + specialize (IH (Z.min x z) (Z.min x z) ltac:(by left)). lia.
    + apply elem_of_cons in Hy as [->|Hy].
      * specialize (IH (Z.min x z) (Z.min x z) ltac:(by left)). lia.
      * apply IH. by right.
Qed.

Lemma adds_message_ids tid ids d d' :
  adds tid ids d d' →
  message_ids tid (journal d') = message_ids tid (journal d) ++ ids.
Proof. intros (rows & -> & <- & _). simpl. apply message_ids_app. Qed.

Lemma message_ids_save_resume d tid msg date stop :
  message_ids tid (journal (save_resume d tid msg date stop))
  = message_ids tid (journal d).
Proof. simpl. by rewrite message_ids_app, app_nil_r. Qed.

Lemma message_ids_commit d tid :
  message_ids tid (journal (commit d)) = message_ids tid (journal d).
Proof. simpl. by rewrite message_ids_app, app_nil_r. Qed.

(** The message ids are the same before and after the exits are tried. *)
Lemma end_of_page_message_ids tid n st :
  message_ids tid (journal (dumper (end_of_page tid n st).1))
  = message_ids tid (journal (dumper st)).
Proof.
  unfold end_of_page.
  repeat case_bool_decide; simpl;
    by rewrite ?message_ids_app, ?app_nil_r.
Qed.

Lemma paging_break_stable target fuel st st' :
  paging pid client naming self fuel target st = Ok (st', Break) →
  ∀ k, paging pid client naming self (fuel + k) target st = Ok (st', Break).
Proof.
  revert st. induction fuel as [|fuel IH]; intros st; simpl; [done|].
  intros H k.
  destruct (loop_body pid client naming self target st) as [[st1 [|]]|];
    simpl in *; [by apply IH|done|done].
Qed.

(** C2, amended. When the lowest id of the last page of new history is
    the stop-at of the earlier run plus one, and a page fetched after it
    holds only ids up to that stop-at, the loop is left after at most
    that one extra page.  The messages of the extra page are written
    to the dumper once more; no other message with an id up to the
    stop-at is. *)
Theorem caught_up_within_one_page (target : entity) (st st1 : LoopState)
    (n1 : Z) :
  let tid := get_peer_id target in
  0 < limit (req st) →
  process_page get_peer_id client naming self target st = Ok (n1, st1) →
  offset_id (req st1) = stop_at st + 1 →
  (∀ next,
     loop_body get_peer_id client naming self target st
     = Ok (next, Continue) →
     ∃ h2 n2 st2,
       GetHistory client (req next) = Ok h2
       ∧ Forall (λ m, msg_id m ≤ stop_at st) (h_messages h2)
       ∧ process_page get_peer_id client naming self target next
         = Ok (n2, st2)) →
  ∃ st' ids1 ids2,
    (∀ k, paging get_peer_id client naming self (2 + k) target st
          = Ok (st', Break))
    ∧ message_ids tid (journal (dumper st'))
      = message_ids tid (journal (dumper st)) ++ ids1 ++ ids2
    ∧ Forall (λ i, stop_at st < i) ids1
    ∧ Forall (λ i, i ≤ stop_at st) ids2
    ∧ (ids2 ≠ [] →
       ∃ next h2,
         loop_body get_peer_id client naming self target st
         = Ok (next, Continue)
         ∧ GetHistory client (req next) = Ok h2
         ∧ ids2 = persisted_ids (h_messages h2)).
Proof.
  intros tid Hlim Hpage Hlow Hnext. subst tid.
  destruct (process_page_spec pid client naming self (pid target) target
              st n1 st1 eq_refl Hpage)
    as (h1 & Hh1 & Hn1 & Hadds1 & Hstop1 & Hchunks1 & Hlim1 & Hoff1).
  assert (Hbody : loop_body pid client naming self target st
                  = Ok (end_of_page (pid target) n1 st1)).
  { unfold loop_body. by rewrite Hpage. }
  pose proof (adds_message_ids _ _ _ _ Hadds1) as Hids1.
  assert (Hnew : Forall (λ i, stop_at st < i) (persisted_ids (h_messages h1))).
  { apply Forall_forall. intros i Hi. apply persisted_ids_subset in Hi.
    destruct (h_messages h1) as [|m ms]; [by apply elem_of_nil in Hi|].
    pose proof (foldl_min_le (msg_id m) (map msg_id ms) i Hi). lia. }
  destruct (end_of_page (pid target) n1 st1) as [next f] eqn:Hend.
  pose proof (end_of_page_message_ids (pid target) n1 st1) as Hids_end.
  rewrite Hend in Hids_end. simpl in Hids_end.
  destruct f.
  - (* a further page is fetched *)
    destruct (Hnext next Hbody) as (h2 & n2 & st2 & Hh2 & Hseen & Hpage2).
    assert (Hnext_fields : stop_at next = stop_at st
                           ∧ limit (req next) = limit (req st)).
    { unfold end_of_page in Hend.
      repeat case_bool_decide; simplify_eq; simpl; lia. }
    destruct Hnext_fields as [Hstopn Hlimn].
    destruct (process_page_spec pid client naming self (pid target) target
                next n2 st2 eq_refl Hpage2)
      as (h2' & Hh2' & Hn2 & Hadds2 & Hstop2 & Hchunks2 & Hlim2 & Hoff2).
    rewrite Hh2 in Hh2'. injection Hh2' as <-.
    pose proof (adds_message_ids _ _ _ _ Hadds2) as Hids2.
    assert (Hbody2 : loop_body pid client naming self target next
                     = Ok (end_of_page (pid target) n2 st2)).
    { unfold loop_body. by rewrite Hpage2. }
    assert (Hbreak : (end_of_page (pid target) n2 st2).2 = Break).
    { unfold end_of_page. case_bool_decide as Ha; [done|].
      case_bool_decide as Hb; [done|]. exfalso. apply Hb.
      destruct (h_messages h2) as [|m ms] eqn:Hms; [simpl in Hn2; lia|].
      pose proof (foldl_min_in (msg_id m) (map msg_id ms)) as Hin.
      rewrite <- Hoff2 in Hin.
      change (msg_id m :: map msg_id ms) with (map msg_id (m :: ms)) in Hin.
      apply list_elem_of_In, in_map_iff in Hin as (m' & Hm' & Hin).
      rewrite Forall_forall in Hseen.
      specialize (Hseen m' (proj2 (list_elem_of_In _ _) Hin)). lia. }
    pose proof (end_of_page_message_ids (pid target) n2 st2) as Hids_end2.
    destruct (end_of_page (pid target) n2 st2) as [st' f2] eqn:Hend2.
    simpl in Hbreak, Hids_end2. subst f2.
    exists st', (persisted_ids (h_messages h1)),
      (persisted_ids (h_messages h2)).
    split_and!.
    + intros k. simpl. rewrite Hbody. simpl. by rewrite Hbody2.
    + by rewrite Hids_end2, Hids2, Hids_end, Hids1, <- app_assoc.
    + done.
    + apply Forall_forall. intros i Hi.
      apply persisted_ids_subset, list_elem_of_In, in_map_iff in Hi
        as (m & <- & Hm).
      rewrite Forall_forall in Hseen.
      by apply Hseen, list_elem_of_In.
    + intros _. by exists next, h2.
  - (* the loop is left at once *)
    exists next, (persisted_ids (h_messages h1)), [].
    split_and!.
    + intros k. simpl. by rewrite Hbody.
    + by rewrite Hids_end, Hids1, app_nil_r.
    + done.
    + done.
    + done.
Qed.

(** *** A media that could not be downloaded *)


End PagingFacts.

(** ** The scenarios *)

Section PagingScenarios.
Import Downloader Sim.

Lemma history_of_newest_first (ids : list Z) :
  Forall (λ i, 0 < i) ids →
  newest_first_remote (steady_client (history_of ids)).
Proof.
  intros Hpos r h [= <-]. simpl. apply Forall_forall. intros m Hm.
  apply list_elem_of_In, in_map_iff in Hm as (i & <- & Hi).
  apply list_elem_of_In, subseteq_take, list_elem_of_filter in Hi
    as [Hbelow Hi].
  rewrite Forall_forall in Hpos. simpl. split; [by apply Hpos|].
  intros Hne. by destruct Hbelow.
Qed.

Lemma ids_down_positive : Forall (λ i, 0 < i) (ids_down 5 1).
Proof. vm_compute. repeat constructor. Qed.

(** Scenario A: 250 messages in pages of 100 take three pages, and the
    run ends with stop-at 250 and 250 messages stored. *)
Example scenario_A :
  save_messages mark_peer_id (steady_client (history_of (ids_down 250 1)))
    plain_naming all_media 2 (fresh_dumper 100 0) me = Ok None
  ∧ match
      save_messages mark_peer_id
        (steady_client (history_of (ids_down 250 1)))
        plain_naming all_media 3 (fresh_dumper 100 0) me
    with
    | Ok (Some (_, d)) =>
        get_resume d 7 = (0, 0, 250) ∧ get_message_count d 7 = 250
    | _ => False
    end.
Proof. split; vm_compute; [reflexivity|split; reflexivity]. Qed.

(** Scenario B: a run cut after its first page leaves the cursor at
    offset 151; the next run fetches 150 down to 1 and nothing above,
    and ends as the uninterrupted run does. *)
Example scenario_B :
  match
    save_messages mark_peer_id (steady_client (history_of (ids_down 250 1)))
      plain_naming all_media 1 (fresh_dumper 100 1) me
  with
  | Ok (Some (_, d1)) =>
      get_resume d1 7 = (151, 151, 0)
      ∧ get_message_count d1 7 = 100
      ∧ match
          save_messages mark_peer_id
            (steady_client (history_of (ids_down 250 1)))
            plain_naming all_media 2 (mkDumper 100 0 (journal d1)) me
        with
        | Ok (Some (_, d2)) =>
            get_resume d2 7 = (0, 0, 250)
            ∧ get_message_count d2 7 = 250
            ∧ message_ids 7 (drop (List.length (journal d1)) (journal d2))
              = ids_down 150 1
        | _ => False
        end
  | _ => False
  end.
Proof. vm_compute. repeat split; reflexivity. Qed.

(** Scenario A, in small: five messages in pages of two are fetched in
    three pages, and the run ends with stop-at 5. *)
Example three_pages_of_two :
  save_messages_init mark_peer_id (steady_client (history_of (ids_down 5 1)))
    plain_naming all_media (fresh_dumper 2 0) me = Ok start5
  ∧ paging mark_peer_id (steady_client (history_of (ids_down 5 1)))
      plain_naming all_media 3 me start5 = Ok (end5, Break)
  ∧ get_resume (dumper end5) 7 = (0, 0, 5)
  ∧ get_message_count (dumper end5) 7 = 5.
Proof. split_and!; vm_compute; reflexivity. Qed.

Lemma paging_exits_in_order_witness :
  loop_body mark_peer_id (steady_client (history_of (ids_down 5 1)))
    plain_naming all_media me start5
  = Ok (mkLoop (req page1_5) (stop_at start5) (chunks_left start5 - 1)
          (found page1_5) (entity_downloader page1_5)
          (commit (save_resume (dumper page1_5) (mark_peer_id me)
                     (offset_id (req page1_5)) (offset_date (req page1_5))
                     (stop_at start5))),
        Continue).
Proof.
  assert (H : process_page mark_peer_id
                (steady_client (history_of (ids_down 5 1)))
                plain_naming all_media me start5 = Ok (2, page1_5))
    by (vm_compute; reflexivity).
  apply (paging_exits_in_order mark_peer_id
           (steady_client (history_of (ids_down 5 1))) plain_naming
           all_media me start5 page1_5 2 H).
  - simpl. lia.
  - simpl. lia.
  - simpl. lia.
Defined.

Lemma resume_cursor_monotone_witness :
  ∃ new, journal (dumper end5) = journal (fresh_dumper 2 0) ++ new
    ∧ monotone_cursors (resume_rows (mark_peer_id me) new)
    ∧ Forall (λ c, (get_resume (fresh_dumper 2 0) (mark_peer_id me)).2 ≤ c.2)
        (resume_rows (mark_peer_id me) new)
    ∧ stop_at_persisted (dumper end5) (mark_peer_id me).
Proof.
  apply (resume_cursor_monotone mark_peer_id
           (steady_client (history_of (ids_down 5 1))) plain_naming
           all_media (fresh_dumper 2 0) me 3 start5 end5 Break).
  - reflexivity.
  - unfold stop_at_persisted. vm_compute. discriminate.
  - apply history_of_newest_first, ids_down_positive.
  - vm_compute; reflexivity.
  - vm_compute; reflexivity.
Defined.

(** C2, as stated, fails: the second run fetches [4; 3], whose lowest id
    is the stop-at 2 plus one, then [2; 1], and writes the messages 2
    and 1 of the earlier run again before it stops. *)
Lemma caught_up_repersists :
  get_resume prior2 7 = (0, 0, 2)
  ∧ save_messages mark_peer_id (steady_client (history_of (ids_down 4 1)))
      plain_naming all_media 2 prior2 me
    = Ok (Some (mkEntityDownloader None [] ∅ {[ 7 ]}, again_end))
  ∧ message_ids 7 (drop 3 (journal again_end)) = [4; 3; 2; 1].
Proof. split_and!; vm_compute; reflexivity. Qed.

Lemma caught_up_within_one_page_witness :
  ∃ st' ids1 ids2,
    (∀ k, paging mark_peer_id (steady_client (history_of (ids_down 4 1)))
            plain_naming all_media (2 + k) me start_again
          = Ok (st', Break))
    ∧ message_ids (mark_peer_id me) (journal (dumper st'))
      = message_ids (mark_peer_id me) (journal (dumper start_again))
          ++ ids1 ++ ids2
    ∧ Forall (λ i, stop_at start_again < i) ids1
    ∧ Forall (λ i, i ≤ stop_at start_again) ids2
    ∧ (ids2 ≠ [] →
       ∃ next h2,
         loop_body mark_peer_id (steady_client (history_of (ids_down 4 1)))
           plain_naming all_media me start_again = Ok (next, Continue)
         ∧ GetHistory (steady_client (history_of (ids_down 4 1))) (req next)
           = Ok h2
         ∧ ids2 = persisted_ids (h_messages h2)).
Proof.
  assert (H1 : process_page mark_peer_id
                 (steady_client (history_of (ids_down 4 1)))
                 plain_naming all_media me start_again
               = Ok (2, page1_again)) by (vm_compute; reflexivity).
  apply (caught_up_within_one_page mark_peer_id
           (steady_client (history_of (ids_down 4 1))) plain_naming
           all_media me start_again page1_again 2).
  - reflexivity.
  - exact H1.
  - reflexivity.
  - intros next Hnext.
    assert (Hbody : loop_body mark_peer_id
                      (steady_client (history_of (ids_down 4 1)))
                      plain_naming all_media me start_again
                    = Ok (next_again, Continue)) by (vm_compute; reflexivity).
    rewrite Hbody in Hnext. injection Hnext as <-.
    exists (history_of (ids_down 4 1) (req next_again)), 2, page2_again.
    split_and!.
    + reflexivity.
    + vm_compute. repeat constructor; discriminate.
    + vm_compute; reflexivity.
Defined.



End PagingScenarios.

(** ** utils.py: what the codec does to any input *)

Section CodecMore.
Import PyStr Utils.

Lemma codec_keeps_supported (e : MessageEntity) :
  codec_keeps e = true → supported e.
Proof.
  unfold codec_keeps, supported.
  destruct (dict_get ENTITY_TO_TEXT (class_of e)); [by eexists|done].
Qed.

Lemma encode_entity_dropped (e : MessageEntity) :
  codec_keeps e = false → encode_entity e = [].
Proof.
  unfold codec_keeps, encode_entity.
  by destruct (dict_get ENTITY_TO_TEXT (class_of e)).
Qed.

Lemma encode_all (entities : list MessageEntity) :
  ∃ parts, flat_map encode_entity entities = parts
    ∧ Forall (λ p, contains ";" p = false) parts
    ∧ List.length parts = List.length (List.filter codec_keeps entities)
    ∧ ∀ parsed, decode_parts parts parsed
        = if existsb is_pre entities then Raise TypeError
          else Ok (parsed
                   ++ map escaped (List.filter codec_keeps entities)).
Proof.
  induction entities as [|e entities (parts & Hparts & Hsemi & Hlen & Hdec)].
  - exists []. split_and!; [done|constructor|done|].
    intros. simpl. by rewrite app_nil_r.
  - simpl. destruct (codec_keeps e) eqn:He.
    + destruct (encode_entity_supported e (codec_keeps_supported e He))
        as (part & Hpart & Hs & Hd).
      exists (part :: parts). rewrite Hpart, Hparts. simpl.
      split_and!; [done|by constructor|by rewrite Hlen|].
      intros parsed. rewrite Hd. destruct (is_pre e); simpl; [done|].
      rewrite Hdec. destruct (existsb is_pre entities); [done|].
      by rewrite <- app_assoc.
    + exists parts. rewrite (encode_entity_dropped e He), Hparts.
      split_and!; [done..|]. intros parsed. rewrite Hdec.
      assert (is_pre e = false) as ->; [|done].
      by destruct e.
Qed.

(** X1. Whatever list is encoded, decoding the result either raises
    or loses nothing but the classes the encoder leaves out: when the
    list holds a preformatted block the decoder raises [TypeError], as
    it calls [MessageEntityPre] without its language; otherwise it
    gives back the entities of the other encodable classes, in order,
    their URLs with commas and semicolons left escaped, and a list
    without encodable entities comes back as [None]. *)
Theorem decode_encode_any (entities : list Utils.MessageEntity) :
  Utils.decode_msg_entities (Utils.encode_msg_entities (Some entities))
  = if existsb is_pre entities then Raise TypeError
    else Ok (match List.filter codec_keeps entities with
             | [] => None
             | kept => Some (map escaped kept)
             end).
Proof.
  destruct (encode_all entities) as (parts & Hparts & Hsemi & Hlen & Hdec).
  destruct entities as [|e0 entities0]; [done|].
  change (encode_msg_entities (Some (e0 :: entities0)))
    with (Some (join ";" (flat_map encode_entity (e0 :: entities0)))).
  rewrite Hparts. revert Hlen Hdec.
  generalize (List.filter codec_keeps (e0 :: entities0)).
  generalize (existsb is_pre (e0 :: entities0)).
  intros pre kept Hlen Hdec.
  destruct parts as [|p parts].
  { specialize (Hdec []). destruct kept; [|done]. by destruct pre. }
  assert (Hne : join ";" (p :: parts) ≠ EmptyString).
  { intros Hj. assert (p = EmptyString) as ->.
    { destruct p; [done|]. by destruct parts. }
    specialize (Hdec []).
    change (decode_parts (EmptyString :: parts) [])
      with (Raise IndexError : pyres (list MessageEntity)) in Hdec.
    by destruct pre. }
  unfold decode_msg_entities.
  destruct (join ";" (p :: parts)) eqn:Hj; [done|]. rewrite <- Hj.
  rewrite split_join by done. rewrite Hdec.
  destruct pre; [done|]. simpl. by destruct kept.
Qed.

Lemma decode_nonempty (s : string) :
  s ≠ EmptyString →
  decode_msg_entities (Some s)
  = (parsed <~ decode_parts (split ";" s) [] ;; Ok (Some parsed)).
Proof. by destruct s. Qed.

Lemma split_head_plain (c sep : ascii) (s : string) :
  contains c s = false →
  ∃ p ps, split sep s = p :: ps ∧ contains c p = false.
Proof.
  induction s as [|x s IH]; simpl; [by eexists _, _|].
  intros [Hx Hs]%orb_false_elim.
  destruct (IH Hs) as (p & ps & Hsplit & Hp).
  destruct (Ascii.eqb x sep); [by eexists _, _|].
  rewrite Hsplit. eexists _, _. split; [done|]. simpl. by rewrite Hx, Hp.
Qed.

(** X2. A non-empty string without a comma cannot be decoded: its
    first part has no offset field, and the decoder raises
    [IndexError]. *)
Theorem decode_without_comma_raises (s : string) :
  s ≠ EmptyString → PyStr.contains "," s = false →
  Utils.decode_msg_entities (Some s) = Raise IndexError.
Proof.
  intros Hne Hc. rewrite decode_nonempty by done.
  destruct (split_head_plain "," ";" s Hc) as (p & ps & -> & Hp).
  simpl. unfold decode_part. by rewrite (split_plain "," p Hp).
Qed.

Lemma decode_without_comma_raises_witness :
  Utils.decode_msg_entities (Some "bold;italic") = Raise IndexError.
Proof.
  apply decode_without_comma_raises; [discriminate|reflexivity].
Defined.

(** X3. A part whose kind is not one of the six known names is passed
    over, provided it carries its two numbers: a string made of such a
    part decodes to the empty list, not to [None]. *)
Theorem decode_unknown_kind_skipped (kind : string) (o l : Z) :
  PyStr.contains "," kind = false → PyStr.contains ";" kind = false →
  Utils.dict_get Utils.TEXT_TO_ENTITY kind = None →
  Utils.decode_msg_entities
    (Some (kind +:+ "," +:+ PyStr.of_int o +:+ "," +:+ PyStr.of_int l))
  = Ok (Some []).
Proof.
  intros Hc Hs Hk.
  assert (Hsemi : contains ";"
            (kind +:+ "," +:+ of_int o +:+ "," +:+ of_int l) = false).
  { rewrite !contains_app, Hs, !contains_of_int by done. reflexivity. }
  rewrite decode_nonempty.
  - rewrite (split_plain ";" _ Hsemi). simpl. unfold decode_part.
    replace (kind +:+ "," +:+ of_int o +:+ "," +:+ of_int l)
      with (kind +:+ "," +:+ of_int o +:+ "," +:+ of_int l +:+ "")
      by (by rewrite append_empty).
    rewrite split_fields by done.
    rewrite append_empty, split_plain by (by apply contains_of_int).
    cbn -[dict_get TEXT_TO_ENTITY to_int]. rewrite !to_int_of_int.
    cbn -[dict_get TEXT_TO_ENTITY]. by rewrite Hk.
  - intros He. rewrite He in Hsemi.
    assert (contains "," (kind +:+ "," +:+ of_int o +:+ "," +:+ of_int l)
            = true) as Hcomma.
    { rewrite !contains_app. simpl. by rewrite orb_true_r. }
    by rewrite He in Hcomma.
Qed.

Lemma decode_unknown_kind_skipped_witness :
  Utils.decode_msg_entities (Some "mention,3,8") = Ok (Some []).
Proof.
  apply (decode_unknown_kind_skipped "mention" 3 8); reflexivity.
Defined.

End CodecMore.

(** ** utils.py: the names of actions *)

Section ActionFacts.
Import Actions.

(** X4. [action_to_name] gives different names to different classes
    of actions, so that the class can be told from the name, and it
    returns [None] exactly for the classes missing from its table. *)
Theorem action_to_name_injective (a b : Actions.action_class) :
  (Actions.action_to_name a = Actions.action_to_name b ↔ a = b)
  ∧ (Actions.action_to_name a = None ↔ a = Actions.OtherAction).
Proof.
  split; (split; [|by intros ->]).
  - destruct a, b; vm_compute; intros H; first [reflexivity|discriminate H].
  - destruct a; vm_compute; intros H; first [reflexivity|discriminate H].
Qed.

End ActionFacts.

(** ** downloader.py: more on the media filter *)

Section MediaMore.
Import Downloader.

Lemma Downloader_init_kept (config : Config) (self : DownloaderSelf) :
  Downloader_init config = Ok self →
  parse_whitelist (MediaWhitelist config) ⊆ VALID_TYPES
  ∧ types self ⊆ taxonomy
  ∧ (types self = ∅ ∨ "unknown" ∈ types self)
  ∧ max_size self = MaxSize config.
Proof.
  unfold Downloader_init. case_decide as Hsub; [|done].
  intros [= <-]. simpl. split_and!; [done| | |done].
  - unfold taxonomy. case_decide; set_solver.
  - case_decide; [by left|right; set_solver].
Qed.

(** X5. A [Downloader] is built only from a whitelist of valid types:
    [__init__] fails its assertion exactly when some listed type is
    not valid, and otherwise the types it keeps are within the
    taxonomy and are either none at all or include [unknown]. *)
Theorem Downloader_init_types (config : Config) :
  (Downloader_init config = Raise AssertionError ↔
   ∃ t, t ∈ parse_whitelist (MediaWhitelist config) ∧ t ∉ VALID_TYPES)
  ∧ (∀ self, Downloader_init config = Ok self →
       parse_whitelist (MediaWhitelist config) ⊆ VALID_TYPES
       ∧ types self ⊆ taxonomy
       ∧ (types self = ∅ ∨ "unknown" ∈ types self)
       ∧ max_size self = MaxSize config).
Proof.
  split; [|apply Downloader_init_kept].
  unfold Downloader_init.
  destruct (decide (parse_whitelist (MediaWhitelist config) ⊆ VALID_TYPES))
    as [Hsub|Hsub].
  - split; [done|]. intros (t & Ht & Hnt). exfalso. by apply Hnt, Hsub.
  - split; [|done]. intros _.
    destruct (not_set_Forall_Exists (λ t, t ∈ VALID_TYPES)
                (parse_whitelist (MediaWhitelist config)))
      as (t & Ht & Hnt); [|by exists t].
    intros Hall. apply Hsub. intros t Ht. by apply Hall.
Qed.

(** X6. A [Downloader] that [__init__] has built and whose [MaxSize]
    is not zero accepts every media of a kind other than photo and
    document, whatever the whitelist. *)
Theorem unknown_media_always_accepted (config : Config)
    (self : DownloaderSelf) :
  Downloader_init config = Ok self → MaxSize config ≠ 0 →
  check_media self (Some MessageMediaOther) = Ok true.
Proof.
  intros Hinit Hmax.
  destruct (Downloader_init_kept config self Hinit)
    as (_ & _ & Hunk & Hms).
  unfold check_media. simpl.
  rewrite bool_decide_false by (by rewrite Hms).
  destruct (decide (types self = ∅)) as [He|He].
  - by rewrite bool_decide_true.
  - rewrite bool_decide_false by done. simpl.
    destruct Hunk as [?|Hunk]; [done|]. by rewrite bool_decide_true.
Qed.

Lemma unknown_media_always_accepted_witness :
  ∃ self, Downloader_init (mkConfig 10 (Some " Photo, VIDEO ,") "out" "f")
          = Ok self
    ∧ check_media self (Some MessageMediaOther) = Ok true.
Proof.
  destruct (Downloader_init (mkConfig 10 (Some " Photo, VIDEO ,") "out" "f"))
    as [self|e] eqn:Hinit.
  - exists self. split; [done|].
    by apply (unknown_media_always_accepted
                (mkConfig 10 (Some " Photo, VIDEO ,") "out" "f") self Hinit).
  - exfalso. vm_compute in Hinit. discriminate Hinit.
Defined.

(** X7. [check_media] accepts a document only when no whitelist is
    set: under any whitelist a document is refused, also when its own
    type is listed, because the classification answers [False] for
    it. *)
Theorem document_needs_empty_whitelist (self : DownloaderSelf)
    (d : document) :
  check_media self (Some (MessageMediaDocument d)) = Ok true
  ↔ max_size self ≠ 0 ∧ types self = ∅.
Proof.
  unfold check_media. simpl.
  destruct (decide (max_size self = 0)) as [H0|H0].
  { rewrite bool_decide_true by done. split; [done|by intros [? _]]. }
  rewrite bool_decide_false by done.
  destruct (decide (types self = ∅)) as [He|He].
  { by rewrite bool_decide_true by done. }
  rewrite bool_decide_false by done. simpl.
  split; [done|by intros [_ ?]].
Qed.

End MediaMore.

(** ** downloader.py: when the remote is asked for a file *)

Section DownloadFacts.
Import Downloader.

Variable get_peer_id : entity → Z.
Variable client : Client.
Variable naming : Naming.
Variable self : DownloaderSelf.

Local Abbreviation pid := get_peer_id.

(** X8. [download_media] passes a message on to the remote only when
    its media is a photo or a document that is not empty; for any other
    message it returns [None] at once, so that such a message is dumped
    whatever the remote would do with a download, even under a filter
    that lets its media through. *)
Theorem download_media_only_photo_or_document (m : message) (tid : Z)
    (ed : EntityDownloader) (target : entity) (d : Dumper) :
  downloadable m = false →
  download_media client naming self m tid = Ok None
  ∧ ∀ dm,
      dump_page_message get_peer_id (with_download_media client dm)
        naming self ed target tid d m
      = dump_page_message get_peer_id client naming self ed target tid d m.
Proof.
  intros Hm. split.
  - destruct m as [id date from fwd [[[]|[]|]|]|id date action|id];
      simpl in *; done.
  - intros dm.
    destruct m as [id date from fwd media|id date action|id]; [|done|done].
    unfold dump_page_message.
    destruct (check_media_total self media) as [b ->]. simpl.
    destruct b; [|done].
    by destruct media as [[[]|[]|]|].
Qed.

(** *** Profile photos are only fetched when asked for *)

Local Ltac unbind H :=
  match type of H with
  | bind ?m _ = Ok _ =>
      let E := fresh "E" in
      destruct m eqn:E; simpl in H; [|discriminate H]
  end.

Lemma download_profile_photo_off (cl : Client) ed photo target known_id :
  no_photo_fmt ed →
  download_profile_photo pid cl naming ed photo target known_id = Ok tt.
Proof. unfold download_profile_photo. by intros [-> | ->]. Qed.

Lemma dump_entity_off df ed d e :
  no_photo_fmt ed →
  _dump_entity pid (with_download_file client df) naming ed d e
  = _dump_entity pid client naming ed d e.
Proof.
  intros Hoff. unfold _dump_entity.
  destruct e as [id deleted min|id photo|id has_left mega|id]; simpl;
    [destruct (GetFullUserRequest client _); simpl; [|done]
    |
    |destruct (GetFullChannelRequest client _); simpl; [|done]
    |done];
    destruct (dump_media d _) as [photo_id d1];
    by rewrite !download_profile_photo_off.
Qed.

Lemma offer_one_off df ed d e :
  no_photo_fmt ed →
  offer_one pid (with_download_file client df) naming ed d e
  = offer_one pid client naming ed d e.
Proof.
  intros Hoff. destruct e; simpl; try done. by rewrite dump_entity_off.
Qed.

Lemma dump_entity_photo_fmt (cl : Client) ed d e s ed' d' :
  _dump_entity pid cl naming ed d e = Ok (s, ed', d') →
  photo_fmt ed' = photo_fmt ed.
Proof.
  unfold _dump_entity. intros H. unbind H. destruct a as [s0 d0].
  by injection H as _ <- _.
Qed.

Lemma offer_one_photo_fmt (cl : Client) ed d e ed' d' :
  offer_one pid cl naming ed d e = Ok (ed', d') →
  photo_fmt ed' = photo_fmt ed.
Proof.
  assert (Henq :
    (if bool_decide (pid e ∉ _dumped_ids ed)
        && negb (bool_decide (pid e ∈ _pending_ids ed))
     then Ok (mkEntityDownloader (photo_fmt ed) (_pending ed ++ [e])
                ({[ pid e ]} ∪ _pending_ids ed) (_dumped_ids ed), d)
     else Ok (ed, d)) = Ok (ed', d') → photo_fmt ed' = photo_fmt ed).
  { by destruct (_ && _); intros [= <- _]. }
  destruct e as [id deleted min|id photo|id has_left mega|id]; simpl.
  - destruct (deleted || min); [by intros [= <- _]|done].
  - intros H. unbind H. destruct a as [[s0 ed0] d0]. injection H as <- _.
    by eapply dump_entity_photo_fmt.
  - destruct has_left; [by intros [= <- _]|done].
  - by intros [= <- _].
Qed.

Lemma extend_pending_photo_fmt (cl : Client) ed d es ed' d' :
  extend_pending pid cl naming ed d es = Ok (ed', d') →
  photo_fmt ed' = photo_fmt ed.
Proof.
  revert ed d. induction es as [|e es IH]; intros ed d; simpl.
  - by intros [= <- _].
  - intros H. unbind H. destruct a as [ed1 d1].
    rewrite (IH _ _ H). by eapply offer_one_photo_fmt.
Qed.

Lemma pop_pending_photo_fmt (cl : Client) ed d s ed' d' :
  pop_pending pid cl naming ed d = Ok (s, ed', d') →
  photo_fmt ed' = photo_fmt ed.
Proof.
  unfold pop_pending. destruct (_pending ed) as [|e rest].
  - by intros [= _ <- _].
  - intros H. by apply dump_entity_photo_fmt in H.
Qed.

Lemma extend_pending_off df ed d es :
  no_photo_fmt ed →
  extend_pending pid (with_download_file client df) naming ed d es
  = extend_pending pid client naming ed d es.
Proof.
  revert ed d. induction es as [|e es IH]; intros ed d Hoff; [done|].
  simpl. rewrite offer_one_off by done.
  destruct (offer_one pid client naming ed d e) as [[ed1 d1]|] eqn:E;
    [|done].
  simpl. apply IH. unfold no_photo_fmt in *.
  by rewrite (offer_one_photo_fmt _ _ _ _ _ _ E).
Qed.

Lemma pop_pending_off df ed d :
  no_photo_fmt ed →
  pop_pending pid (with_download_file client df) naming ed d
  = pop_pending pid client naming ed d.
Proof.
  intros Hoff. unfold pop_pending.
  destruct (_pending ed) as [|e rest]; [done|].
  by apply dump_entity_off.
Qed.

Lemma dump_page_off df ed target tid d ms :
  no_photo_fmt ed →
  dump_page pid (with_download_file client df) naming self ed target tid d ms
  = dump_page pid client naming self ed target tid d ms.
Proof.
  intros Hoff. revert d. induction ms as [|m ms IH]; intros d; [done|].
  simpl.
  assert (dump_page_message pid (with_download_file client df) naming self
            ed target tid d m
          = dump_page_message pid client naming self ed target tid d m)
    as ->.
  { destruct m as [id date from fwd media|id date [p|]|id]; try done.
    simpl. by rewrite !download_profile_photo_off. }
  destruct (dump_page_message pid client naming self ed target tid d m);
    [|done].
  simpl. apply IH.
Qed.

Lemma process_page_off df target st :
  no_photo_fmt (entity_downloader st) →
  process_page pid (with_download_file client df) naming self target st
  = process_page pid client naming self target st.
Proof.
  intros Hoff. unfold process_page. simpl.
  destruct (GetHistory client (req st)) as [h|]; [|done]. simpl.
  rewrite extend_pending_off by done.
  destruct (extend_pending pid client naming _ _ _) as [[ed1 d1]|] eqn:E1;
    [|done].
  simpl.
  assert (Hoff1 : no_photo_fmt ed1).
  { unfold no_photo_fmt in *.
    by rewrite (extend_pending_photo_fmt _ _ _ _ _ _ E1). }
  rewrite pop_pending_off by done.
  destruct (pop_pending pid client naming ed1 d1) as [[[s0 ed2] d2]|] eqn:E2;
    [|done].
  simpl.
  assert (Hoff2 : no_photo_fmt ed2).
  { unfold no_photo_fmt in *.
    by rewrite (pop_pending_photo_fmt _ _ _ _ _ _ E2). }
  by rewrite dump_page_off.
Qed.

Lemma process_page_photo_fmt (cl : Client) target st n st1 :
  process_page pid cl naming self target st = Ok (n, st1) →
  photo_fmt (entity_downloader st1) = photo_fmt (entity_downloader st).
Proof.
  unfold process_page. intros H.
  unbind H. unbind H. destruct a0 as [ed1 d1].
  unbind H. destruct a0 as [[s0 ed2] d2].
  unbind H. unbind H. destruct a1 as [found' req'].
  injection H as _ <-. simpl.
  rewrite (pop_pending_photo_fmt _ _ _ _ _ _ E1).
  by rewrite (extend_pending_photo_fmt _ _ _ _ _ _ E0).
Qed.

Lemma end_of_page_photo_fmt tid n st :
  entity_downloader (end_of_page tid n st).1 = entity_downloader st.
Proof. unfold end_of_page. by repeat case_bool_decide. Qed.

Lemma paging_off df fuel target st :
  no_photo_fmt (entity_downloader st) →
  paging pid (with_download_file client df) naming self fuel target st
  = paging pid client naming self fuel target st.
Proof.
  revert st. induction fuel as [|fuel IH]; intros st Hoff; [done|].
  simpl. unfold loop_body. rewrite process_page_off by done.
  destruct (process_page pid client naming self target st)
    as [[n st1]|] eqn:E; [|done].
  simpl.
  pose proof (end_of_page_photo_fmt (pid target) n st1) as Hed.
  destruct (end_of_page (pid target) n st1) as [st2 [|]]; [|done].
  apply IH. simpl in Hed. unfold no_photo_fmt in *. rewrite Hed.
  by rewrite (process_page_photo_fmt _ _ _ _ _ E).
Qed.

Lemma drain_off df fuel ed d :
  no_photo_fmt ed →
  drain pid (with_download_file client df) naming fuel ed d
  = drain pid client naming fuel ed d.
Proof.
  revert ed d. induction fuel as [|fuel IH]; intros ed d Hoff; [done|].
  simpl. destruct (nonempty ed); [|done].
  rewrite pop_pending_off by done.
  destruct (pop_pending pid client naming ed d) as [[[s0 ed1] d1]|] eqn:E;
    [|done].
  simpl. apply IH. unfold no_photo_fmt in *.
  by rewrite (pop_pending_photo_fmt _ _ _ _ _ _ E).
Qed.

Lemma paging_photo_fmt (cl : Client) fuel target st st' f :
  paging pid cl naming self fuel target st = Ok (st', f) →
  photo_fmt (entity_downloader st') = photo_fmt (entity_downloader st).
Proof.
  revert st. induction fuel as [|fuel IH]; intros st; simpl.
  - by intros [= <- _].
  - unfold loop_body. intros H. unbind H. destruct a as [st1 f1].
    unbind E. destruct a as [n st2]. injection E as Hend.
    pose proof (end_of_page_photo_fmt (pid target) n st2) as Hed.
    rewrite Hend in Hed. simpl in Hed.
    pose proof (process_page_photo_fmt _ _ _ _ _ E0) as Hp.
    destruct f1.
    + rewrite (IH _ H). by rewrite Hed.
    + injection H as <- _. by rewrite Hed.
Qed.

(** X9. Unless [chatphoto] is among the whitelisted types,
    [save_messages] never downloads a profile or chat photo: the
    entity downloader is created without a photo format and keeps it
    that way, so the run is the same whatever the remote would answer
    to a file download. *)
Theorem no_profile_photos_unless_whitelisted (fuel : nat) (d : Dumper)
    (target : entity) (df : Z → Z → Z → string → pyres unit) :
  "chatphoto" ∉ types self →
  save_messages get_peer_id (with_download_file client df) naming self
    fuel d target
  = save_messages get_peer_id client naming self fuel d target.
Proof.
  intros Hno. unfold save_messages, save_messages_init.
  rewrite (bool_decide_false _ Hno).
  assert (Hoff0 : no_photo_fmt (EntityDownloader_init None)) by by left.
  rewrite extend_pending_off by done.
  destruct (extend_pending pid client naming _ d [target])
    as [[ed1 d1]|] eqn:E1; [|done].
  simpl.
  assert (Hoff1 : no_photo_fmt ed1).
  { unfold no_photo_fmt in *.
    by rewrite (extend_pending_photo_fmt _ _ _ _ _ _ E1). }
  destruct (get_resume d1 (pid target)) as [[o dt] sa]. simpl.
  rewrite paging_off by done.
  destruct (paging pid client naming self fuel target _)
    as [[st' [|]]|] eqn:E2; [done| |done].
  simpl. rewrite drain_off; [done|].
  unfold no_photo_fmt in *.
  by rewrite (paging_photo_fmt _ _ _ _ _ _ E2).
Qed.

End DownloadFacts.

Section DownloadScenarios.
Import Downloader Sim.

Lemma download_media_only_photo_or_document_witness :
  download_media (failing_client one_snapshot) plain_naming all_media
    (Message 9 9 None None (Some MessageMediaOther)) 7
  = Ok None.
Proof.
  exact (proj1 (download_media_only_photo_or_document mark_peer_id
                  (failing_client one_snapshot) plain_naming all_media
                  (Message 9 9 None None (Some MessageMediaOther)) 7
                  (EntityDownloader_init None) me (fresh_dumper 2 0)
                  eq_refl)).
Defined.

Lemma no_profile_photos_unless_whitelisted_witness :
  save_messages mark_peer_id
    (with_download_file (steady_client (history_of (ids_down 5 1)))
       (λ _ _ _ _, Raise (RPCError "FileMigrate")))
    plain_naming all_media 4 (fresh_dumper 2 0) (Channel 3 false true)
  = save_messages mark_peer_id (steady_client (history_of (ids_down 5 1)))
      plain_naming all_media 4 (fresh_dumper 2 0) (Channel 3 false true).
Proof.
  exact (no_profile_photos_unless_whitelisted mark_peer_id
           (steady_client (history_of (ids_down 5 1))) plain_naming
           all_media 4 (fresh_dumper 2 0) (Channel 3 false true)
           (λ _ _ _ _, Raise (RPCError "FileMigrate"))
           (not_elem_of_empty (C:=gset string) "chatphoto")).
Defined.

End DownloadScenarios.

(** ** downloader.py: the order and the progress of the entity queue *)

Section QueueMore.
Import Downloader.

Variable get_peer_id : entity → Z.
Variable client : Client.
Variable naming : Naming.

Local Abbreviation pid := get_peer_id.
Local Abbreviation inv := (queue_inv get_peer_id).

Local Ltac unbind H :=
  match type of H with
  | bind ?m _ = Ok _ =>
      let E := fresh "E" in
      destruct m eqn:E; simpl in H; [|discriminate H]
  end.

Lemma offer_one_appends ed d e ed' d' :
  offer_one pid client naming ed d e = Ok (ed', d') →
  ∃ new, _pending ed' = _pending ed ++ new
         ∧ new `sublist_of` [e]
         ∧ Forall (λ x, queueable x = true) new.
Proof.
  assert (Hnil : ∃ new : list entity,
             _pending ed = _pending ed ++ new ∧ new `sublist_of` [e]
             ∧ Forall (λ x, queueable x = true) new).
  { exists []. rewrite app_nil_r. split_and!; [done| |done].
    apply sublist_nil_l. }
  destruct e as [id deleted min|id photo|id has_left mega|id]; simpl.
  - destruct (deleted || min) eqn:Hdm; [by intros [= <- _]|].
    destruct (_ && _); intros [= <- _]; [|done].
    exists [User id deleted min]. simpl. split_and!; [done..|].
    constructor; [|done]. unfold queueable. simpl. by rewrite Hdm.
  - intros H. unbind H. destruct a as [[s0 ed0] d0]. injection H as <- _.
    apply dump_entity_Ok in E. by rewrite E.
  - destruct has_left eqn:Hl; [by intros [= <- _]|].
    destruct (_ && _); intros [= <- _]; [|done].
    exists [Channel id false mega]. simpl. split_and!; [done..|].
    by constructor.
  - by intros [= <- _].
Qed.

Lemma extend_pending_appends ed d es ed' d' :
  extend_pending pid client naming ed d es = Ok (ed', d') →
  ∃ new, _pending ed' = _pending ed ++ new
         ∧ new `sublist_of` es
         ∧ Forall (λ x, queueable x = true) new.
Proof.
  revert ed d. induction es as [|e es IH]; intros ed d; simpl.
  - intros [= <- _]. exists []. by rewrite app_nil_r.
  - intros H. unbind H. destruct a as [ed1 d1].
    apply offer_one_appends in E as (new1 & E1 & Hs1 & Hq1).
    apply IH in H as (new2 & E2 & Hs2 & Hq2).
    exists (new1 ++ new2). rewrite E2, E1, <- app_assoc.
    split_and!; [done| |by apply Forall_app].
    change (e :: es) with ([e] ++ es). by apply sublist_app.
Qed.

(** X10. The queue is first in, first out: [extend_pending] leaves what
    was pending in front and in order, and appends entities taken, in
    order, from those offered, users and channels only; [pop_pending]
    then dumps the entity at the front and removes nothing else. *)
Theorem pending_first_in_first_out (ed : EntityDownloader) (d : Dumper)
    (es : list entity) (ed' : EntityDownloader) (d' : Dumper) :
  extend_pending get_peer_id client naming ed d es = Ok (ed', d') →
  (∃ new, _pending ed' = _pending ed ++ new
          ∧ new `sublist_of` es
          ∧ Forall (λ x, queueable x = true) new)
  ∧ (∀ e rest s ed'' d'',
       _pending ed' = e :: rest →
       pop_pending get_peer_id client naming ed' d' = Ok (s, ed'', d'') →
       _pending ed'' = rest
       ∧ get_peer_id e ∈ _dumped_ids ed''
       ∧ get_peer_id e ∉ _pending_ids ed'').
Proof.
  intros H. split; [by eapply extend_pending_appends|].
  intros e rest s ed'' d'' Hp Hpop. unfold pop_pending in Hpop.
  rewrite Hp in Hpop. apply dump_entity_Ok in Hpop. subst ed''. simpl.
  split_and!; [done|set_solver|set_solver].
Qed.

Lemma seen_ids_dump_entity ed d e s ed' d' :
  _dump_entity pid client naming ed d e = Ok (s, ed', d') →
  seen_ids ed ⊆ seen_ids ed' ∧ pid e ∈ _dumped_ids ed'.
Proof.
  intros H. apply dump_entity_Ok in H. subst ed'. unfold seen_ids. simpl.
  split; [|set_solver]. intros x Hx.
  destruct (decide (x = pid e)); set_solver.
Qed.

Lemma seen_ids_offer_one ed d e ed' d' :
  offer_one pid client naming ed d e = Ok (ed', d') →
  seen_ids ed ⊆ seen_ids ed'
  ∧ (dropped e = false → pid e ∈ seen_ids ed').
Proof.
  destruct e as [id deleted min|id photo|id has_left mega|id]; simpl.
  - destruct (deleted || min); [by intros [= <- _]|].
    destruct (_ && _) eqn:Hb; intros [= <- _]; unfold seen_ids; simpl.
    + set_solver.
    + split; [done|]. intros _.
      apply andb_false_iff in Hb as [Hb|Hb].
      * apply bool_decide_eq_false in Hb. apply dec_stable in Hb.
        set_solver.
      * apply negb_false_iff, bool_decide_eq_true in Hb. set_solver.
  - intros H. unbind H. destruct a as [[s0 ed0] d0]. injection H as <- _.
    apply seen_ids_dump_entity in E as [E1 E2]. split; [done|].
    intros _. unfold seen_ids. set_solver.
  - destruct has_left; [by intros [= <- _]|].
    destruct (_ && _) eqn:Hb; intros [= <- _]; unfold seen_ids; simpl.
    + set_solver.
    + split; [done|]. intros _.
      apply andb_false_iff in Hb as [Hb|Hb].
      * apply bool_decide_eq_false in Hb. apply dec_stable in Hb.
        set_solver.
      * apply negb_false_iff, bool_decide_eq_true in Hb. set_solver.
  - by intros [= <- _].
Qed.

Lemma seen_ids_extend_pending ed d es ed' d' :
  extend_pending pid client naming ed d es = Ok (ed', d') →
  seen_ids ed ⊆ seen_ids ed'
  ∧ (∀ e, e ∈ es → dropped e = false → pid e ∈ seen_ids ed').
Proof.
  revert ed d. induction es as [|e es IH]; intros ed d; simpl.
  - intros [= <- _]. split; [done|]. by intros e He%elem_of_nil.
  - intros H. unbind H. destruct a as [ed1 d1].
    apply seen_ids_offer_one in E as [E1 E2].
    apply IH in H as [H1 H2]. split; [set_solver|].
    intros x [->|Hx]%elem_of_cons Hd; [|by apply H2].
    apply H1. by apply E2.
Qed.

Lemma seen_ids_pop_pending ed d s ed' d' :
  pop_pending pid client naming ed d = Ok (s, ed', d') →
  seen_ids ed ⊆ seen_ids ed'.
Proof.
  unfold pop_pending. destruct (_pending ed) as [|e rest].
  - by intros [= _ <- _].
  - intros H. by apply seen_ids_dump_entity in H as [H _].
Qed.

Lemma pop_pending_counts U ed d s ed' d' :
  inv U ed → nonempty ed = true →
  pop_pending pid client naming ed d = Ok (s, ed', d') →
  dumped_count ed' = dumped_count ed + 1
  ∧ len ed' = len ed - 1
  ∧ total_count ed' = total_count ed.
Proof.
  intros (Hnd & Hids & Hdisj & Hall) Hne. unfold pop_pending, nonempty in *.
  destruct (_pending ed) as [|e rest] eqn:Hp; [done|].
  intros H. apply dump_entity_Ok in H. subst ed'.
  unfold dumped_count, len, total_count. simpl. rewrite Hp. simpl.
  assert (Hin : pid e ∈ _pending_ids ed).
  { rewrite Hids. simpl. set_solver. }
  assert (Hout : pid e ∉ _dumped_ids ed) by set_solver.
  rewrite size_union by set_solver. rewrite size_singleton.
  assert (Hsz : size (_pending_ids ed)
                = S (size (_pending_ids ed ∖ {[ pid e ]}))).
  { assert (HX : _pending_ids ed
                  = {[ pid e ]} ∪ (_pending_ids ed ∖ {[ pid e ]})).
    { apply set_eq. intros x. destruct (decide (x = pid e)); set_solver. }
    rewrite HX at 1. rewrite size_union by set_solver.
    by rewrite size_singleton. }
  rewrite Hsz. lia.
Qed.

(** X11. Each [pop_pending] on a queue that is not empty dumps exactly
    one entity that was not dumped before: in any state the queue
    reaches from its creation, the count of dumped entities goes up by
    one, the length of the queue down by one, and the total shown by
    the progress bar stays the same. *)
Theorem pop_pending_progress (fmt : option string) (d0 : Dumper)
    (ops : list queue_op) (ed : EntityDownloader) (d : Dumper)
    (s : Z) (ed' : EntityDownloader) (d' : Dumper) :
  chats_apart get_peer_id (offered ops) →
  run_ops get_peer_id client naming ops (EntityDownloader_init fmt, d0)
    = Ok (ed, d) →
  nonempty ed = true →
  pop_pending get_peer_id client naming ed d = Ok (s, ed', d') →
  dumped_count ed' = dumped_count ed + 1
  ∧ len ed' = len ed - 1
  ∧ total_count ed' = total_count ed.
Proof.
  intros Hapart Hrun Hne Hpop.
  destruct (run_ops_inv pid client naming (offered ops) ops
              (EntityDownloader_init fmt, d0) (ed, d) Hapart
              (λ e He, He) (queue_inv_init pid (offered ops) fmt) Hrun)
    as [Hinv _].
  by eapply pop_pending_counts.
Qed.

Lemma drain_spec U n ed d ed' d' :
  inv U ed → (List.length (_pending ed) ≤ n)%nat →
  drain pid client naming n ed d = Ok (ed', d') →
  _pending ed' = [] ∧ _pending_ids ed' = ∅
  ∧ _dumped_ids ed' = _dumped_ids ed ∪ _pending_ids ed
  ∧ inv U ed'.
Proof.
  revert ed d. induction n as [|n IH]; intros ed d Hinv Hlen; simpl.
  - intros [= <- _]. destruct (_pending ed) as [|e rest] eqn:Hp;
      [|simpl in Hlen; lia].
    pose proof Hinv as (Hnd & Hids & Hdisj & Hall). rewrite Hp in Hids.
    simpl in Hids. split_and!; [done|done|set_solver|done].
  - unfold nonempty. destruct (_pending ed) as [|e rest] eqn:Hp.
    + intros [= <- _].
      pose proof Hinv as (Hnd & Hids & Hdisj & Hall). rewrite Hp in Hids.
      simpl in Hids. split_and!; [done|done|set_solver|done].
    + intros H. unbind H. destruct a as [[s0 ed1] d1].
      pose proof (pop_pending_inv pid client naming U _ _ _ _ _ Hinv E)
        as [Hinv1 _].
      pose proof Hinv as (Hnd & Hids & Hdisj & Hall).
      unfold pop_pending in E. rewrite Hp in E.
      apply dump_entity_Ok in E. simpl in E.
      assert (Hlen1 : (List.length (_pending ed1) ≤ n)%nat).
      { rewrite E. simpl. simpl in Hlen. lia. }
      destruct (IH _ _ Hinv1 Hlen1 H) as (H1 & H2 & H3 & H4).
      split_and!; [done..| |done].
      rewrite H3, E. simpl.
      assert (Hin : pid e ∈ _pending_ids ed).
      { rewrite Hids, Hp. simpl. set_solver. }
      apply set_eq. intros x. destruct (decide (x = pid e)); set_solver.
Qed.

Lemma pop_pending_total ed d :
  entity_calls_succeed client →
  ∃ r, pop_pending pid client naming ed d = Ok r.
Proof.
  intros Hok. unfold pop_pending. destruct (_pending ed); [by eexists|].
  by apply dump_entity_total.
Qed.

Lemma drain_total n ed d :
  entity_calls_succeed client →
  ∃ r, drain pid client naming n ed d = Ok r.
Proof.
  intros Hok. revert ed d. induction n as [|n IH]; intros ed d; simpl;
    [by eexists|].
  destruct (nonempty ed); [|by eexists].
  destruct (pop_pending_total ed d Hok) as [[[s0 ed1] d1] ->]. simpl.
  apply IH.
Qed.

(** X12. The final loop of [save_messages] empties the queue: when
    the remote answers, as many [pop_pending] as there are pending
    entities dump all of them and leave nothing pending, whatever state
    the queue had reached; the ids that were pending are then exactly
    those added to the dumped ones. *)
Theorem drain_dumps_all_pending (fmt : option string) (d0 : Dumper)
    (ops : list queue_op) (ed : EntityDownloader) (d : Dumper) :
  chats_apart get_peer_id (offered ops) →
  entity_calls_succeed client →
  run_ops get_peer_id client naming ops (EntityDownloader_init fmt, d0)
    = Ok (ed, d) →
  ∃ ed' d',
    drain get_peer_id client naming (List.length (_pending ed)) ed d
    = Ok (ed', d')
    ∧ nonempty ed' = false
    ∧ _pending_ids ed' = ∅
    ∧ _dumped_ids ed' = _dumped_ids ed ∪ _pending_ids ed
    ∧ dumped_count ed' = total_count ed.
Proof.
  intros Hapart Hok Hrun.
  destruct (run_ops_inv pid client naming (offered ops) ops
              (EntityDownloader_init fmt, d0) (ed, d) Hapart
              (λ e He, He) (queue_inv_init pid (offered ops) fmt) Hrun)
    as [Hinv _]. simpl in Hinv.
  destruct (drain_total (List.length (_pending ed)) ed d Hok)
    as [[ed' d'] Hdrain].
  exists ed', d'. split; [done|].
  destruct (drain_spec _ _ _ _ _ _ Hinv (le_n _) Hdrain)
    as (H1 & H2 & H3 & _).
  split_and!; [by unfold nonempty; rewrite H1|done|done|].
  unfold dumped_count, total_count. rewrite H3.
  destruct Hinv as (_ & _ & Hdisj & _).
  rewrite size_union by set_solver. lia.
Qed.

End QueueMore.

Section QueueMoreScenarios.
Import Downloader Sim SimQueue.

Lemma pending_first_in_first_out_witness :
  ∃ new, _pending after_offer = _pending (EntityDownloader_init None) ++ new
         ∧ new `sublist_of` offered_first
         ∧ Forall (λ x, queueable x = true) new.
Proof.
  assert (H : extend_pending mark_peer_id remote plain_naming
                (EntityDownloader_init None) (fresh_dumper 100 0)
                offered_first
              = Ok (after_offer, journal_offer))
    by (vm_compute; reflexivity).
  exact (proj1 (pending_first_in_first_out mark_peer_id remote plain_naming
                  (EntityDownloader_init None) (fresh_dumper 100 0)
                  offered_first after_offer journal_offer H)).
Defined.

Lemma pop_pending_progress_witness :
  dumped_count after_pop = dumped_count after_first + 1
  ∧ len after_pop = len after_first - 1
  ∧ total_count after_pop = total_count after_first.
Proof.
  assert (Hapart : chats_apart mark_peer_id (offered first_batch))
    by (apply chats_apartb_sound; vm_compute; reflexivity).
  assert (H1 : run_ops mark_peer_id remote plain_naming first_batch
                 (EntityDownloader_init None, fresh_dumper 100 0)
               = Ok (after_first, journal_first))
    by (vm_compute; reflexivity).
  assert (H2 : nonempty after_first = true) by reflexivity.
  assert (H3 : pop_pending mark_peer_id remote plain_naming after_first
                 journal_first
               = Ok (1, after_pop, journal_pop))
    by (vm_compute; reflexivity).
  exact (pop_pending_progress mark_peer_id remote plain_naming None
           (fresh_dumper 100 0) first_batch after_first journal_first 1
           after_pop journal_pop Hapart H1 H2 H3).
Defined.

Lemma drain_dumps_all_pending_witness :
  ∃ ed' d',
    drain mark_peer_id remote plain_naming
      (List.length (_pending after_first)) after_first journal_first
    = Ok (ed', d')
    ∧ nonempty ed' = false
    ∧ _pending_ids ed' = ∅
    ∧ _dumped_ids ed' = _dumped_ids after_first ∪ _pending_ids after_first
    ∧ dumped_count ed' = total_count after_first.
Proof.
  assert (Hapart : chats_apart mark_peer_id (offered first_batch))
    by (apply chats_apartb_sound; vm_compute; reflexivity).
  assert (H1 : run_ops mark_peer_id remote plain_naming first_batch
                 (EntityDownloader_init None, fresh_dumper 100 0)
               = Ok (after_first, journal_first))
    by (vm_compute; reflexivity).
  exact (drain_dumps_all_pending mark_peer_id remote plain_naming None
           (fresh_dumper 100 0) first_batch after_first journal_first
           Hapart (steady_client_succeeds (history_of [])) H1).
Defined.

End QueueMoreScenarios.

(** ** downloader.py: a whole run of save_messages *)

Section SyncMore.
Import Downloader.

Variable get_peer_id : entity → Z.
Variable client : Client.
Variable naming : Naming.
Variable self : DownloaderSelf.

Local Abbreviation pid := get_peer_id.
Local Abbreviation inv := (queue_inv get_peer_id).

Local Ltac unbind H :=
  match type of H with
  | bind ?m _ = Ok _ =>
      let E := fresh "E" in
      destruct m eqn:E; simpl in H; [|discriminate H]
  end.

(** *** The queue along the pages *)

Lemma process_page_queue U target st n st1 :
  chats_apart pid U → entities_within client U → inv U (entity_downloader st) →
  process_page pid client naming self target st = Ok (n, st1) →
  inv U (entity_downloader st1)
  ∧ seen_ids (entity_downloader st) ⊆ seen_ids (entity_downloader st1).
Proof.
  intros Hapart Hwithin Hinv. unfold process_page. intros H.
  unbind H. rename a into h. unbind H. destruct a as [ed1 d1].
  unbind H. destruct a as [[s0 ed2] d2].
  unbind H. unbind H. destruct a0 as [found' req'].
  injection H as _ <-. simpl.
  pose proof (extend_pending_inv pid client naming U _ _ _ _ _ Hapart
                (Hwithin _ _ E) Hinv E0) as [Hinv1 _].
  pose proof (pop_pending_inv pid client naming U _ _ _ _ _ Hinv1 E1)
    as [Hinv2 _].
  split; [done|].
  apply seen_ids_extend_pending in E0 as [E0 _].
  apply seen_ids_pop_pending in E1. set_solver.
Qed.

Lemma paging_queue U target fuel st st' f :
  chats_apart pid U → entities_within client U → inv U (entity_downloader st) →
  paging pid client naming self fuel target st = Ok (st', f) →
  inv U (entity_downloader st')
  ∧ seen_ids (entity_downloader st) ⊆ seen_ids (entity_downloader st').
Proof.
  intros Hapart Hwithin. revert st.
  induction fuel as [|fuel IH]; intros st Hinv; simpl.
  - by intros [= <- _].
  - unfold loop_body. intros H. unbind H. destruct a as [st1 f1].
    unbind E. destruct a as [n st2]. injection E as Hend.
    pose proof (end_of_page_photo_fmt (pid target) n st2) as Hed.
    rewrite Hend in Hed. simpl in Hed.
    destruct (process_page_queue _ _ _ _ _ Hapart Hwithin Hinv E0)
      as [Hinv2 Hseen].
    rewrite <- Hed in Hinv2, Hseen.
    destruct f1.
    + destruct (IH _ Hinv2 H) as [H1 H2]. split; [done|set_solver].
    + by injection H as <- _.
Qed.

(** X13. When [save_messages] returns, nothing is left in the entity
    queue, and the dialog itself has been dumped, unless it is one of
    the entities the queue passes over. *)
Theorem save_messages_leaves_nothing_pending (U : list entity)
    (fuel : nat) (d : Dumper) (target : entity)
    (ed' : EntityDownloader) (d' : Dumper) :
  chats_apart get_peer_id (target :: U) →
  entities_within client U →
  save_messages get_peer_id client naming self fuel d target
    = Ok (Some (ed', d')) →
  nonempty ed' = false
  ∧ _pending_ids ed' = ∅
  ∧ (dropped target = false → get_peer_id target ∈ _dumped_ids ed').
Proof.
  intros Hapart Hwithin. unfold save_messages, save_messages_init.
  intros H. unbind H. rename a into st0. unbind E.
  destruct a as [ed1 d1].
  destruct (get_resume d1 (pid target)) as [[o dt] sa]. injection E as <-.
  unbind H. destruct a as [st1 [|]]; [discriminate H|].
  unbind H. injection H as ->.
  assert (Hwithin' : entities_within client (target :: U)).
  { intros r h Hh e He. right. by eapply Hwithin. }
  assert (Hself : ∀ e, e ∈ [target] → e ∈ target :: U).
  { intros e He. apply elem_of_cons in He as [->|He]; [left|]. by apply elem_of_nil in He. }
  pose proof (extend_pending_inv pid client naming (target :: U) _ _ _ _ _
                Hapart Hself (queue_inv_init pid (target :: U) _) E0)
    as [Hinv1 _].
  match type of E with
  | paging _ _ _ _ _ _ ?s = _ => set (st0 := s) in E
  end.
  destruct (paging_queue (target :: U) target fuel st0 st1 Break Hapart
              Hwithin' Hinv1 E)
    as [Hinv2 Hseen]. simpl in Hseen.
  destruct (drain_spec pid client naming _ _ _ _ _ _ Hinv2 (le_n _) E1)
    as (H1 & H2 & H3 & _).
  split_and!; [by unfold nonempty; rewrite H1|done|].
  intros Hd. apply seen_ids_extend_pending in E0 as [_ E0].
  specialize (E0 target ltac:(left) Hd).
  apply Hseen in E0. unfold seen_ids in E0. rewrite H3. set_solver.
Qed.

(** *** The page budget *)

Lemma loop_body_continue target st st' :
  loop_body pid client naming self target st = Ok (st', Continue) →
  chunks_left st' = chunks_left st - 1 ∧ chunks_left st' ≠ 0.
Proof.
  unfold loop_body. intros H. unbind H. destruct a as [n st1].
  apply (process_page_spec pid client naming self (pid target)) in E
    as (h & _ & _ & _ & _ & Hc & _); [|done].
  injection H as H. unfold end_of_page in H.
  repeat case_bool_decide; try discriminate H.
  injection H as <-. simpl. split; [by rewrite Hc|done].
Qed.

Lemma loop_body_break target st st' :
  loop_body pid client naming self target st = Ok (st', Break) →
  chunks_left st ≠ 1 →
  ∃ d, dumper st'
       = save_resume_stop_at d (pid target)
           (get_message_id_MAX d (pid target)).
Proof.
  unfold loop_body. intros H Hne. unbind H. destruct a as [n st1].
  apply (process_page_spec pid client naming self (pid target)) in E
    as (h & _ & _ & _ & _ & Hc & _); [|done].
  injection H as H. unfold end_of_page in H.
  repeat case_bool_decide; try discriminate H; try lia;
    injection H as <-; by eexists.
Qed.

Lemma paging_within_budget fuel target st st' :
  0 < chunks_left st → (Z.to_nat (chunks_left st) ≤ fuel)%nat →
  paging pid client naming self fuel target st ≠ Ok (st', Continue).
Proof.
  revert st. induction fuel as [|fuel IH]; intros st Hpos Hle; [lia|].
  simpl. intros H. unbind H. destruct a as [st1 [|]]; [|discriminate H].
  apply loop_body_continue in E as [E1 E2].
  apply (IH st1); [lia|lia|done].
Qed.

Lemma paging_more_fuel fuel k target st :
  (∀ st', paging pid client naming self fuel target st
          ≠ Ok (st', Continue)) →
  paging pid client naming self (fuel + k) target st
  = paging pid client naming self fuel target st.
Proof.
  revert st. induction fuel as [|fuel IH]; intros st Hno; simpl.
  - by destruct (Hno st).
  - simpl in Hno.
    destruct (loop_body pid client naming self target st)
      as [[st1 [|]]|]; simpl in *; [|done..].
    by apply IH.
Qed.

(** X14. A positive [max_chunks] bounds the pages of a run: with
    [max_chunks = k > 0], [save_messages] leaves its loop after at most
    [k] pages, so that allowing it more pages changes nothing. *)
Theorem max_chunks_bounds_pages (d : Dumper) (target : entity)
    (fuel : nat) :
  0 < max_chunks d →
  (Z.to_nat (max_chunks d) ≤ fuel)%nat →
  save_messages get_peer_id client naming self fuel d target
  = save_messages get_peer_id client naming self
      (Z.to_nat (max_chunks d)) d target
  ∧ save_messages get_peer_id client naming self fuel d target ≠ Ok None.
Proof.
  intros Hpos Hle. unfold save_messages.
  destruct (save_messages_init pid client naming self d target)
    as [st0|] eqn:E0; simpl; [|done].
  apply save_messages_init_spec in E0 as (_ & _ & _ & _ & Hc).
  assert (Hno : ∀ n st', (Z.to_nat (max_chunks d) ≤ n)%nat →
            paging pid client naming self n target st0
            ≠ Ok (st', Continue)).
  { intros n st' Hn. apply paging_within_budget; rewrite Hc; lia. }
  replace fuel
    with (Z.to_nat (max_chunks d) + (fuel - Z.to_nat (max_chunks d)))%nat
    by lia.
  rewrite paging_more_fuel by (intros st'; by apply Hno).
  split; [done|].
  destruct (paging pid client naming self (Z.to_nat (max_chunks d))
              target st0) as [[st1 [|]]|] eqn:E; simpl; [|by destruct drain|done].
  by apply Hno in E.
Qed.

(** *** No budget *)

Lemma drain_adds tid n ed d ed' d' :
  drain pid client naming n ed d = Ok (ed', d') → adds tid [] d d'.
Proof.
  revert ed d. induction n as [|n IH]; intros ed d; simpl.
  - intros [= _ <-]. apply adds_refl.
  - destruct (nonempty ed); [|intros [= _ <-]; apply adds_refl].
    intros H. unbind H. destruct a as [[s0 ed1] d1].
    apply (pop_pending_adds _ _ _ tid) in E.
    eapply adds_nil_trans; [exact E|].
    eapply adds_nil_trans;
      [apply (adds_quiet tid d1 RowCommit); reflexivity|]. by eapply IH.
Qed.

Lemma paging_without_budget fuel target st st' :
  chunks_left st ≤ 0 →
  paging pid client naming self fuel target st = Ok (st', Break) →
  ∃ d, dumper st'
       = save_resume_stop_at d (pid target)
           (get_message_id_MAX d (pid target)).
Proof.
  revert st. induction fuel as [|fuel IH]; intros st Hle; simpl; [done|].
  intros H. unbind H. destruct a as [st1 [|]].
  - apply loop_body_continue in E as [E1 E2]. apply (IH st1); [lia|done].
  - injection H as <-. apply loop_body_break in E; [done|lia].
Qed.

(** X15. Without a page budget ([max_chunks] zero or negative) a run
    of [save_messages] that returns has gone through the conversation
    to its end or to what an earlier run stored: the cursor it leaves
    makes the next run start from the top, with the highest stored id
    as stop-at. *)
Theorem no_budget_runs_to_the_end (d : Dumper) (target : entity)
    (fuel : nat) (ed' : EntityDownloader) (d' : Dumper) :
  max_chunks d ≤ 0 →
  save_messages get_peer_id client naming self fuel d target
    = Ok (Some (ed', d')) →
  get_resume d' (get_peer_id target)
  = (0, 0, get_message_id_MAX d' (get_peer_id target)).
Proof.
  intros Hle. unfold save_messages. intros H.
  unbind H. rename a into st0. unbind H.
  destruct a as [st1 [|]]; [discriminate H|].
  unbind H. injection H as ->.
  apply save_messages_init_spec in E as (_ & _ & _ & _ & Hc).
  apply paging_without_budget in E0 as [d1 Hd1]; [|lia].
  apply (drain_adds (pid target)) in E1.
  assert (Hadds : adds (pid target) [] (dumper st1) d').
  { eapply adds_nil_trans;
      [apply (adds_quiet _ (dumper st1) RowCommit); reflexivity|exact E1]. }
  apply adds_reads in Hadds as (-> & -> & _). rewrite Hd1.
  unfold save_resume_stop_at.
  by rewrite get_resume_save, MAX_save_resume.
Qed.

(** *** The run comes to an end *)

Lemma check_media_returns media :
  ∃ b, check_media self media = Ok b.
Proof.
  unfold check_media. destruct (_ || _); [by eexists|].
  case_bool_decide; [by eexists|].
  destruct media as [[| |]|]; by eexists.
Qed.

Lemma download_media_total m tid :
  remote_answers client →
  ∃ r, download_media client naming self m tid = Ok r.
Proof.
  intros (_ & Hdl & _).
  destruct m as [id date from fwd [[[]|[]|]|]|id date a|id]; simpl;
    try (by eexists); apply Hdl.
Qed.

Lemma dump_page_message_total ed target tid d m :
  remote_answers client →
  ∃ d', dump_page_message pid client naming self ed target tid d m = Ok d'.
Proof.
  intros Hok. pose proof Hok as (Hent & _ & _).
  destruct m as [id date from fwd media|id date [p|]|id];
    [| |by eexists..].
  - unfold dump_page_message.
    destruct (check_media_returns media) as [b ->]. cbn [bind].
    assert (∃ r, (if b then download_media client naming self
                              (Message id date from fwd media) tid
                  else Ok None) = Ok r) as [r ->].
    { destruct b; [by apply download_media_total|by eexists]. }
    cbn [bind]. destruct (dump_forward d fwd) as [fwd_id d1].
    destruct (dump_media d1 _) as [media_id d2]. by eexists.
  - simpl. rewrite download_profile_photo_total by done. by eexists.
Qed.

Lemma dump_page_total ed target tid d ms :
  remote_answers client →
  ∃ d', dump_page pid client naming self ed target tid d ms = Ok d'.
Proof.
  intros Hok. revert d. induction ms as [|m ms IH]; intros d; simpl;
    [by eexists|].
  destruct (dump_page_message_total ed target tid d m Hok) as [d1 ->].
  simpl. apply IH.
Qed.

Lemma dates_of_total ms :
  Forall (λ m, is_empty_message m = false) ms →
  ∃ ds, dates_of ms = Ok ds
        ∧ (ms ≠ [] → ds ≠ []).
Proof.
  induction 1 as [|m ms Hm _ IH]; simpl; [by eexists|].
  destruct IH as (ds & -> & _).
  destruct m; simpl in *; try discriminate Hm; by eexists.
Qed.

Lemma extend_pending_total ed d es :
  entity_calls_succeed client →
  ∃ r, extend_pending pid client naming ed d es = Ok r.
Proof.
  intros Hok.
  destruct (run_ops_total pid client naming [Offer es] (ed, d) Hok)
    as [q Hq]. simpl in Hq.
  destruct (extend_pending pid client naming ed d es); [by eexists|done].
Qed.

Lemma process_page_total target st :
  remote_answers client →
  ∃ r, process_page pid client naming self target st = Ok r.
Proof.
  intros Hok. pose proof Hok as (Hent & _ & Hh).
  unfold process_page. destruct (Hh (req st)) as (h & -> & Hmsgs). simpl.
  destruct (extend_pending_total (entity_downloader st) (dumper st)
              (h_users h ++ h_chats h) Hent) as [[ed1 d1] ->]. simpl.
  destruct (pop_pending_total pid client naming ed1 d1 Hent)
    as [[[s0 ed2] d2] ->]. simpl.
  destruct (dump_page_total ed2 target (pid target) d2 (h_messages h) Hok)
    as [d3 ->]. simpl.
  destruct (dates_of_total _ Hmsgs) as (ds & Hds & Hne).
  destruct (h_messages h) as [|m ms]; simpl; [by eexists|].
  simpl in Hds. rewrite Hds. simpl.
  destruct ds as [|x xs]; [by destruct Hne|]. simpl. by eexists.
Qed.

Lemma loop_body_total target st :
  remote_answers client →
  ∃ r, loop_body pid client naming self target st = Ok r.
Proof.
  intros Hok. unfold loop_body.
  destruct (process_page_total target st Hok) as [[n st1] ->]. simpl.
  by eexists.
Qed.

Lemma loop_body_moves_down target st st' :
  newest_first_remote client → 0 < limit (req st) →
  loop_body pid client naming self target st = Ok (st', Continue) →
  0 < offset_id (req st')
  ∧ limit (req st') = limit (req st)
  ∧ (offset_id (req st) ≠ 0 → offset_id (req st') < offset_id (req st)).
Proof.
  intros Hremote Hlimit. unfold loop_body. intros H. unbind H.
  destruct a as [n st1].
  apply (process_page_spec pid client naming self (pid target)) in E
    as (h & Hh & -> & _ & _ & _ & Hl & Hoff); [|done].
  injection H as H. unfold end_of_page in H.
  repeat case_bool_decide; try discriminate H.
  injection H as <-. simpl.
  destruct (h_messages h) as [|m ms] eqn:Hms; [simpl in *; lia|].
  pose proof (Hremote _ _ Hh) as Hall. rewrite Hms in Hall.
  pose proof (foldl_min_in (msg_id m) (map msg_id ms)) as Hin.
  rewrite <- Hoff in Hin.
  change (msg_id m :: map msg_id ms) with (map msg_id (m :: ms)) in Hin.
  apply list_elem_of_fmap in Hin as (m' & -> & Hm').
  rewrite Forall_forall in Hall. destruct (Hall m' Hm') as [Hpos Hlow].
  by split_and!.
Qed.

Lemma paging_ends_below (n : nat) target st :
  remote_answers client → newest_first_remote client →
  0 < limit (req st) → offset_id (req st) ≠ 0 →
  offset_id (req st) ≤ Z.of_nat n →
  ∃ st', paging pid client naming self (S n) target st = Ok (st', Break).
Proof.
  intros Hok Hremote. revert st.
  induction n as [|n IH]; intros st Hlimit Hne Hle;
    destruct (loop_body_total target st Hok) as [[st1 [|]] E];
    cbn [paging]; rewrite E; simpl; try (by eexists);
    destruct (loop_body_moves_down _ _ _ Hremote Hlimit E)
      as (H1 & H2 & H3); specialize (H3 Hne).
  - lia.
  - apply IH; lia.
Qed.

Lemma paging_ends target st :
  remote_answers client → newest_first_remote client →
  0 < limit (req st) →
  ∃ fuel st', paging pid client naming self fuel target st
              = Ok (st', Break).
Proof.
  intros Hok Hremote Hlimit.
  destruct (decide (offset_id (req st) = 0)) as [Hz|Hnz].
  - destruct (loop_body_total target st Hok) as [[st1 [|]] E].
    + destruct (loop_body_moves_down _ _ _ Hremote Hlimit E)
        as (H1 & H2 & _).
      destruct (paging_ends_below (Z.to_nat (offset_id (req st1))) target
                  st1 Hok Hremote) as [st' Hst']; [lia..|].
      exists (S (S (Z.to_nat (offset_id (req st1))))), st'.
      cbn [paging]. rewrite E. simpl. exact Hst'.
    + exists 1%nat, st1. simpl. by rewrite E.
  - destruct (paging_ends_below (Z.to_nat (offset_id (req st))) target st
                Hok Hremote) as [st' Hst']; [lia..|].
    by eexists _, _.
Qed.

(** X16. A run of [save_messages] comes to an end: when the remote
    answers every call with pages of content and service messages only
    (a [MessageEmpty] row has no date, and the code raises on it),
    serves each page below the offset it is asked for, with positive
    message ids, and the page size is positive, then after some number
    of pages the loop is left, the queue is drained and [save_messages]
    returns; allowing more pages gives the same result. *)
Theorem save_messages_terminates (d : Dumper) (target : entity) :
  0 < chunk_size d →
  newest_first_remote client →
  remote_answers client →
  ∃ fuel r, ∀ k,
    save_messages get_peer_id client naming self (fuel + k) d target
    = Ok (Some r).
Proof.
  intros Hsize Hremote Hok. pose proof Hok as (Hent & _ & _).
  unfold save_messages.
  assert (∃ st0, save_messages_init pid client naming self d target
                 = Ok st0) as [st0 E0].
  { unfold save_messages_init.
    destruct (extend_pending_total
                (EntityDownloader_init
                   (if bool_decide ("chatphoto" ∈ types self)
                    then Some (media_fmt self) else None)) d [target] Hent)
      as [[ed1 d1] ->]. simpl.
    destruct (get_resume d1 (pid target)) as [[o dt] sa]. by eexists. }
  rewrite E0. simpl.
  apply save_messages_init_spec in E0 as (_ & _ & Hl & _ & _).
  destruct (paging_ends target st0 Hok Hremote) as (fuel & st1 & E1);
    [lia|].
  destruct (drain_total pid client naming
              (List.length (_pending (entity_downloader st1)))
              (entity_downloader st1) (commit (dumper st1)) Hent)
    as [r Hr].
  exists fuel, r. intros k.
  rewrite (paging_break_stable _ _ _ _ _ _ _ _ E1 k). simpl.
  by rewrite Hr.
Qed.

End SyncMore.

Section SyncScenarios.
Import Downloader Sim SimRun.

Lemma history_of_entities_within (ids : list Z) :
  entities_within (steady_client (history_of ids)) [].
Proof. intros r h [= <-] e He. simpl in He. by apply elem_of_nil in He. Qed.

Lemma steady_client_answers (ids : list Z) :
  remote_answers (steady_client (history_of ids)).
Proof.
  split_and!; [apply steady_client_succeeds|by eexists|].
  intros r. eexists. split; [reflexivity|]. simpl.
  apply Forall_forall. intros m Hm.
  by apply list_elem_of_In, in_map_iff in Hm as (i & <- & _).
Qed.

Lemma save_messages_leaves_nothing_pending_witness :
  nonempty returned5.1 = false
  ∧ _pending_ids returned5.1 = ∅
  ∧ (dropped me = false → mark_peer_id me ∈ _dumped_ids returned5.1).
Proof.
  assert (Hapart : chats_apart mark_peer_id [me])
    by (apply chats_apartb_sound; vm_compute; reflexivity).
  assert (H : save_messages mark_peer_id five plain_naming all_media 3
                (fresh_dumper 2 0) me
              = Ok (Some (returned5.1, returned5.2)))
    by (vm_compute; reflexivity).
  exact (save_messages_leaves_nothing_pending mark_peer_id five plain_naming
           all_media [] 3 (fresh_dumper 2 0) me returned5.1 returned5.2
           Hapart (history_of_entities_within (ids_down 5 1)) H).
Defined.

Lemma max_chunks_bounds_pages_witness :
  save_messages mark_peer_id five plain_naming all_media 4
    (fresh_dumper 2 1) me
  = save_messages mark_peer_id five plain_naming all_media
      (Z.to_nat (max_chunks (fresh_dumper 2 1))) (fresh_dumper 2 1) me.
Proof.
  assert (Hpos : 0 < max_chunks (fresh_dumper 2 1)) by reflexivity.
  assert (Hle : (Z.to_nat (max_chunks (fresh_dumper 2 1)) ≤ 4)%nat)
    by (vm_compute; lia).
  exact (proj1 (max_chunks_bounds_pages mark_peer_id five plain_naming
                  all_media (fresh_dumper 2 1) me 4 Hpos Hle)).
Defined.

Lemma no_budget_runs_to_the_end_witness :
  get_resume returned5.2 (mark_peer_id me)
  = (0, 0, get_message_id_MAX returned5.2 (mark_peer_id me)).
Proof.
  assert (Hle : max_chunks (fresh_dumper 2 0) ≤ 0) by (simpl; lia).
  assert (H : save_messages mark_peer_id five plain_naming all_media 3
                (fresh_dumper 2 0) me
              = Ok (Some (returned5.1, returned5.2)))
    by (vm_compute; reflexivity).
  exact (no_budget_runs_to_the_end mark_peer_id five plain_naming all_media
           (fresh_dumper 2 0) me 3 returned5.1 returned5.2 Hle H).
Defined.

Lemma save_messages_terminates_witness :
  ∃ fuel r, ∀ k,
    save_messages mark_peer_id five plain_naming all_media (fuel + k)
      (fresh_dumper 2 0) me
    = Ok (Some r).
Proof.
  assert (Hsize : 0 < chunk_size (fresh_dumper 2 0)) by reflexivity.
  exact (save_messages_terminates mark_peer_id five plain_naming all_media
           (fresh_dumper 2 0) me Hsize
           (history_of_newest_first (ids_down 5 1) ids_down_positive)
           (steady_client_answers (ids_down 5 1))).
Defined.

End SyncScenarios.

(** ** downloader.py: the admin log *)

Section AdminLogFacts.
Import Downloader AdminLog.

Variable get_peer_id : entity → Z.
Variable client : Client.
Variable naming : Naming.
Variable self : DownloaderSelf.
Variable GetAdminLogRequest : Z → pyres admin_results.

Lemma tqdm_entbar :
  tqdm ["unit"] = Ok tt ∧ tqdm ["entbar"] = Raise TqdmKeyError.
Proof. split; vm_compute; reflexivity. Qed.

(** X17. [save_admin_log] never gets to its loop: once the target is
    resolved it builds its progress bar with the keyword [entbar],
    which [tqdm] does not know, and the [TqdmKeyError] this raises
    leaves the function before the first request; whatever the remote,
    the store and the page budget, no event is fetched and nothing is
    written. *)
Theorem save_admin_log_raises (fuel : nat) (d : Dumper) (target : entity) :
  save_admin_log get_peer_id client naming self GetAdminLogRequest
    fuel d target
  = Raise TqdmKeyError.
Proof.
  unfold save_admin_log. destruct tqdm_entbar as [-> ->]. reflexivity.
Qed.

End AdminLogFacts.

(** ** downloader.py: the entities named in the configuration *)

Section EntitiesFacts.
Import PyStr PyCfg Entities.

Variable InputEntity : Type.
Variable get_input_entity : Z + string → pyres InputEntity.

Local Abbreviation load := (load_entities_from_str InputEntity get_input_entity).
Local Abbreviation ask := (lookups InputEntity get_input_entity).

(** *** Numerals *)

Lemma is_digit_not_space c : is_digit c = true → is_space c = false.
Proof.
  unfold is_digit, is_space. intros H.
  apply andb_true_iff in H as [H1 H2].
  apply Nat.leb_le in H1, H2.
  apply orb_false_iff. split; apply andb_false_iff.
  - right. apply Nat.leb_gt. lia.
  - right. apply Nat.leb_gt. lia.
Qed.

Lemma is_digit_not c a : is_digit c = true → is_digit a = false →
  Ascii.eqb c a = false.
Proof. intros Hc Ha. destruct (Ascii.eqb_spec c a) as [->|]; congruence. Qed.

Lemma all_digits_cons c s :
  all_digits (String c s) = true → is_digit c = true ∧ all_digits s = true.
Proof. simpl. apply andb_true_iff. Qed.

Lemma all_digits_uint u : all_digits (NilEmpty.string_of_uint u) = true.
Proof. induction u; simpl; done. Qed.

Lemma all_digits_rstrip s : all_digits s = true → rstrip s = s.
Proof.
  induction s as [|c s IH]; [done|]. simpl.
  intros [Hc Hs]%andb_true_iff. rewrite (IH Hs).
  destruct s; [|done]. by rewrite is_digit_not_space.
Qed.

Lemma all_digits_grouped s : all_digits s = true → grouped true s = true.
Proof.
  induction s as [|c s IH]; [done|]. simpl.
  intros [-> Hs]%andb_true_iff. by apply IH.
Qed.

Lemma all_digits_contains c s :
  is_digit c = false → all_digits s = true → contains c s = false.
Proof.
  intros Hc. induction s as [|a s IH]; [done|]. simpl.
  intros [Ha Hs]%andb_true_iff. rewrite (IH Hs).
  by rewrite (is_digit_not a c).
Qed.

(** The numeral of an integer: digits, after a minus sign when it is
    negative. *)
Lemma of_int_shape n :
  ∃ c s, all_digits (String c s) = true
         ∧ of_int n = if n <? 0 then String "-" (String c s)
                      else String c s.
Proof.
  assert (Huint : ∀ u, u ≠ Decimal.Nil →
            ∃ c s, NilEmpty.string_of_uint u = String c s
                   ∧ all_digits (String c s) = true).
  { intros u Hu. pose proof (all_digits_uint u) as Hd.
    destruct (NilEmpty.string_of_uint u) as [|c s] eqn:E;
      [by destruct u|by eexists _, _]. }
  unfold of_int. destruct n as [|p|p]; simpl.
  - by exists "0"%char, EmptyString.
  - destruct (Huint _ (DecimalPos.Unsigned.to_uint_nonnil p))
      as (c & s & E & Hd).
    exists c, s. split; [done|]. unfold NilZero.string_of_uint.
    rewrite <- E. by destruct (Pos.to_uint p).
  - destruct (Huint _ (DecimalPos.Unsigned.to_uint_nonnil p))
      as (c & s & E & Hd).
    exists c, s. split; [done|]. unfold NilZero.string_of_uint.
    rewrite <- E. by destruct (Pos.to_uint p).
Qed.

Lemma strip_digits c s :
  all_digits (String c s) = true → strip (String c s) = String c s.
Proof.
  intros Hd. unfold strip. pose proof (all_digits_cons _ _ Hd) as [Hc _].
  simpl lstrip. rewrite (is_digit_not_space _ Hc).
  by apply all_digits_rstrip.
Qed.

Lemma strip_minus_digits c s :
  all_digits (String c s) = true →
  strip (String "-" (String c s)) = String "-" (String c s).
Proof.
  intros Hd. unfold strip.
  change (lstrip (String "-" (String c s))) with (String "-" (String c s)).
  change (rstrip (String "-" (String c s)))
    with (match rstrip (String c s) with
          | EmptyString => String "-" EmptyString
          | r => String "-" r
          end).
  by rewrite all_digits_rstrip.
Qed.

Lemma strip_of_int n : strip (of_int n) = of_int n.
Proof.
  destruct (of_int_shape n) as (c & s & Hd & ->).
  destruct (n <? 0); [by apply strip_minus_digits|by apply strip_digits].
Qed.

Lemma py_int_of_int n : py_int (of_int n) = Ok n.
Proof.
  unfold py_int. rewrite strip_of_int.
  pose proof (to_int_of_int n) as Hn.
  destruct (of_int_shape n) as (c & s & Hd & E). rewrite E in *.
  pose proof (all_digits_cons _ _ Hd) as [Hc Hs].
  assert (Hbody : replace "_" EmptyString (String c s) = String c s).
  { apply replace_plain. by apply all_digits_contains. }
  assert (Hg : grouped false (String c s) = true).
  { simpl. rewrite Hc. by apply all_digits_grouped. }
  destruct (n <? 0).
  - change (Ascii.eqb "-" "-") with true. cbv iota.
    rewrite Hg, Hbody. exact Hn.
  - rewrite (is_digit_not c "-"), (is_digit_not c "+") by done.
    rewrite Hg, Hbody. exact Hn.
Qed.

Lemma key_text_of_int n : key_text (of_int n) = of_int n.
Proof.
  unfold key_text. rewrite strip_of_int.
  by rewrite split_plain by by apply contains_of_int.
Qed.

Lemma parse_who_of_int n : parse_who (of_int n) = Ok (inl n).
Proof.
  unfold parse_who. rewrite key_text_of_int, py_int_of_int.
  destruct (of_int_shape n) as (c & s & Hd & E). rewrite E.
  pose proof (all_digits_cons _ _ Hd) as [Hc Hs].
  destruct (n <? 0).
  - done.
  - unfold startswith, isdigit. cbn [all_digits].
    by rewrite (is_digit_not c "+"), Hc, Hs by done.
Qed.

(** X20. A list of dialog ids written in decimal and separated by
    commas is read back as those ids: [load_entities_from_str] looks up
    each of them as an integer, negative ones included, in the order
    written. *)
Theorem load_ids_read_back (ids : list Z) :
  ids ≠ [] →
  load_entities_from_str InputEntity get_input_entity
    (join "," (map of_int ids))
  = lookups InputEntity get_input_entity (map (λ n, Ok (inl n)) ids).
Proof.
  intros Hne. unfold load_entities_from_str.
  rewrite split_join.
  - f_equal. rewrite map_map. apply map_ext. intros n.
    apply parse_who_of_int.
  - by destruct ids.
  - apply Forall_forall. intros p Hp.
    apply list_elem_of_In, in_map_iff in Hp as (n & <- & _).
    by apply contains_of_int.
Qed.

(** *** Blanks and comments *)

Lemma lstrip_app a c b :
  is_space c = false → lstrip (a +:+ String c b) = lstrip a +:+ String c b.
Proof.
  intros Hc. induction a as [|x a IH]; simpl; [by rewrite Hc|].
  by destruct (is_space x).
Qed.

Lemma rstrip_app a c b :
  is_space c = false → rstrip (a +:+ String c b) = a +:+ String c (rstrip b).
Proof.
  intros Hc. induction a as [|x a IH]; simpl.
  - rewrite Hc. by destruct (rstrip b).
  - rewrite IH. by destruct a.
Qed.

Lemma rstrip_blank a : rstrip (a +:+ " ") = rstrip a.
Proof. induction a as [|x a IH]; simpl; [done|]. by rewrite IH. Qed.

Lemma contains_lstrip c s :
  contains c s = false → contains c (lstrip s) = false.
Proof.
  induction s as [|x s IH]; simpl; [done|].
  intros [Hx Hs]%orb_false_iff. destruct (is_space x); [by apply IH|].
  simpl. by rewrite Hx, Hs.
Qed.

Lemma rstrip_lstrip s : rstrip s = s → rstrip (lstrip s) = lstrip s.
Proof.
  induction s as [|x s IH]; [done|]. simpl lstrip.
  destruct (is_space x) eqn:Hx; [|done].
  simpl. rewrite Hx. destruct (rstrip s) as [|y r] eqn:E; [done|].
  intros [= <-]. by apply IH.
Qed.

Lemma key_text_comment who note :
  contains ":" who = false → rstrip who = who →
  key_text (who +:+ String ":" note) = key_text who.
Proof.
  intros Hcolon Hblank. unfold key_text, strip.
  rewrite lstrip_app, rstrip_app by done.
  rewrite split_app by by apply contains_lstrip.
  cbn [hd]. rewrite rstrip_lstrip by done.
  by rewrite split_plain by by apply contains_lstrip.
Qed.

(** X21. What follows the first colon of an item is a comment: it does
    not change what [load_entities_from_str] looks up, for items that
    do not end in a blank. *)
Theorem load_ignores_comments (items : list (string * string)) :
  items ≠ [] →
  Forall (λ item, contains "," item.1 = false
                  ∧ contains ":" item.1 = false
                  ∧ contains "," item.2 = false
                  ∧ rstrip item.1 = item.1
                  ∧ ascii_only item.1 = true) items →
  load_entities_from_str InputEntity get_input_entity
    (join "," (map (λ item, item.1 +:+ ":" +:+ item.2) items))
  = load_entities_from_str InputEntity get_input_entity
      (join "," (map fst items)).
Proof.
  intros Hne Hitems. unfold load_entities_from_str.
  rewrite !split_join.
  - f_equal. rewrite !map_map. apply map_ext_in. intros [who note] Hin.
    rewrite Forall_forall in Hitems.
    apply list_elem_of_In, Hitems in Hin as (_ & Hcolon & _ & Hblank & _).
    unfold parse_who. simpl.
    change (who +:+ ":" +:+ note) with (who +:+ String ":" note).
    by rewrite key_text_comment.
  - by destruct items.
  - apply Forall_forall. intros p Hp.
    apply list_elem_of_In, in_map_iff in Hp as ([who note] & <- & Hin).
    rewrite Forall_forall in Hitems.
    by apply list_elem_of_In, Hitems in Hin as (? & _).
  - by destruct items.
  - apply Forall_forall. intros p Hp.
    apply list_elem_of_In, in_map_iff in Hp as ([who note] & <- & Hin).
    rewrite Forall_forall in Hitems.
    apply list_elem_of_In, Hitems in Hin as (Hw & _ & Hn & _).
    simpl in Hw, Hn. cbn [fst snd].
    change (who +:+ ":" +:+ note) with (who +:+ String ":" note).
    rewrite contains_app, Hw. simpl. exact Hn.
Qed.

Lemma all_digits_blank s : all_digits (s +:+ " ") = false.
Proof.
  induction s as [|x s IH]; simpl; [done|]. rewrite IH.
  by destruct (is_digit x).
Qed.

Lemma append_append (a b c : string) : (a +:+ b) +:+ c = a +:+ b +:+ c.
Proof.
  induction a as [|x a IH]; [done|].
  change (String x ((a +:+ b) +:+ c) = String x (a +:+ b +:+ c)).
  by rewrite IH.
Qed.

Lemma app_assoc_colon a note :
  a +:+ " :" +:+ note = (a +:+ " ") +:+ String ":" note.
Proof. by rewrite append_append. Qed.

Lemma key_text_blank_colon n note :
  key_text (of_int n +:+ " :" +:+ note) = of_int n +:+ " ".
Proof.
  unfold key_text, strip. rewrite app_assoc_colon.
  rewrite lstrip_app, rstrip_app by done.
  assert (Hl : lstrip (of_int n +:+ " ") = of_int n +:+ " ").
  { destruct (of_int_shape n) as (c & s & Hd & ->).
    pose proof (all_digits_cons _ _ Hd) as [Hc _].
    destruct (n <? 0); simpl; [done|].
    by rewrite (is_digit_not_space _ Hc). }
  rewrite Hl, split_app; [done|].
  rewrite contains_app. by rewrite contains_of_int.
Qed.

Lemma py_int_blank n : py_int (of_int n +:+ " ") = Ok n.
Proof.
  transitivity (py_int (of_int n)); [|apply py_int_of_int]. unfold py_int.
  assert (strip (of_int n +:+ " ") = strip (of_int n)) as ->; [|done].
  unfold strip.
  assert (Hl : ∀ t, lstrip (of_int n +:+ t) = of_int n +:+ t).
  { intros t. destruct (of_int_shape n) as (c & s & Hd & ->).
    pose proof (all_digits_cons _ _ Hd) as [Hc _].
    destruct (n <? 0); simpl; [done|].
    by rewrite (is_digit_not_space _ Hc). }
  pose proof (Hl EmptyString) as Hl0. rewrite append_empty in Hl0.
  rewrite Hl, Hl0. apply rstrip_blank.
Qed.

(** X22. The blanks of an item are stripped before the comment is cut
    off, so a blank before the colon stays: a non-negative id written
    before [" :"] is looked up as a name, the numeral followed by the
    blank, and not as the id; a negative id written the same way is
    still looked up as the integer. *)
Theorem id_before_blank_colon (n : Z) (note : string) :
  contains "," note = false →
  load_entities_from_str InputEntity get_input_entity
    (of_int n +:+ " :" +:+ note)
  = lookups InputEntity get_input_entity
      [if n <? 0 then Ok (inl n) else Ok (inr (of_int n +:+ " "))].
Proof.
  intros Hnote. unfold load_entities_from_str.
  rewrite split_plain.
  2:{ rewrite !contains_app, Hnote. by rewrite contains_of_int. }
  cbn [map]. f_equal. f_equal.
  unfold parse_who. rewrite key_text_blank_colon.
  destruct (of_int_shape n) as (c & s & Hd & E).
  pose proof (all_digits_cons _ _ Hd) as [Hc Hs].
  destruct (n <? 0) eqn:Hn.
  - rewrite py_int_blank. by rewrite E.
  - rewrite E. unfold startswith, isdigit.
    change (String c s +:+ " ") with (String c (s +:+ " ")).
    cbn [all_digits]. rewrite all_digits_blank.
    by rewrite (is_digit_not c "+"), (is_digit_not c "-"), andb_false_r
      by done.
Qed.

End EntitiesFacts.

Section EntitiesScenarios.
Import PyStr PyCfg Entities.

(** The items of a whitelist as one would write it. *)
Example load_a_whitelist :
  load_entities_from_str (Z + string) resolve_all
    "123, @durov : the founder ,-1001234567890:news,+34600000000"
  = ([inl 123; inr "@durov "; inl (-1001234567890); inr "+34600000000"],
     None)
  ∧ load_entities_from_str (Z + string) resolve_all "7,-seven,8"
    = ([inl 7], Some ValueError).
Proof. split; vm_compute; reflexivity. Qed.

Lemma load_ids_read_back_witness :
  load_entities_from_str (Z + string) resolve_all
    (join "," (map of_int [42; -1001234567890; 0]))
  = lookups (Z + string) resolve_all
      (map (λ n, Ok (inl n)) [42; -1001234567890; 0]).
Proof.
  assert (Hne : [42; -1001234567890; 0] ≠ []) by discriminate.
  exact (load_ids_read_back (Z + string) resolve_all
           [42; -1001234567890; 0] Hne).
Defined.

Lemma load_ignores_comments_witness :
  load_entities_from_str (Z + string) resolve_all
    (join ","
       (map (λ item, item.1 +:+ ":" +:+ item.2)
          [("@durov", "the founder"); ("-1001", " a channel")]))
  = load_entities_from_str (Z + string) resolve_all
      (join "," (map fst [("@durov", "the founder"); ("-1001", " a channel")])).
Proof.
  assert (Hne : [("@durov", "the founder"); ("-1001", " a channel")]
                ≠ ([] : list (string * string))) by discriminate.
  assert (Hitems :
    Forall (λ item : string * string,
              contains "," item.1 = false
              ∧ contains ":" item.1 = false
              ∧ contains "," item.2 = false
              ∧ rstrip item.1 = item.1
              ∧ ascii_only item.1 = true)
      [("@durov", "the founder"); ("-1001", " a channel")]).
  { repeat constructor. }
  exact (load_ignores_comments (Z + string) resolve_all
           [("@durov", "the founder"); ("-1001", " a channel")] Hne Hitems).
Defined.

Lemma id_before_blank_colon_witness :
  load_entities_from_str (Z + string) resolve_all
    (of_int 12 +:+ " :" +:+ "me")
  = lookups (Z + string) resolve_all
      [if 12 <? 0 then Ok (inl 12) else Ok (inr (of_int 12 +:+ " "))].
Proof.
  assert (Hnote : contains "," "me" = false) by reflexivity.
  exact (id_before_blank_colon (Z + string) resolve_all 12 "me" Hnote).
Defined.

End EntitiesScenarios.

(** ** downloader.py: what a run without budget fetches *)

Section FirstRun.
Import Downloader.

Variable get_peer_id : entity → Z.
Variable client : Client.
Variable naming : Naming.
Variable self : DownloaderSelf.

Local Abbreviation pid := get_peer_id.

Local Ltac unbind H :=
  match type of H with
  | bind ?m _ = Ok _ =>
      let E := fresh "E" in
      destruct m eqn:E; simpl in H; [|discriminate H]
  end.

Lemma persisted_ids_all ms :
  Forall (λ m, is_empty_message m = false) ms →
  persisted_ids ms = map msg_id ms.
Proof.
  induction 1 as [|m ms Hm _ IH]; [done|].
  unfold persisted_ids in *. simpl. rewrite IH.
  destruct m; simpl in *; congruence.
Qed.

Lemma default_last_cons (x z : Z) (l : list Z) :
  default x (last (z :: l)) = default z (last l).
Proof.
  destruct l as [|w l]; [done|].
  change (last (z :: w :: l)) with (last (w :: l)).
  destruct (last (w :: l)) eqn:E; [done|]. by apply last_None in E.
Qed.

Lemma default_last_in (x : Z) (l : list Z) : default x (last l) ∈ x :: l.
Proof.
  destruct (last l) as [w|] eqn:E; simpl; [|left].
  right. by apply last_Some_elem_of.
Qed.

Lemma descending_min_last (x : Z) (l : list Z) :
  descending (x :: l) → foldl Z.min x l = default x (last l).
Proof.
  intros Hs.
  assert (Hlow : ∀ y, y ∈ x :: l → default x (last l) ≤ y).
  { revert x Hs. induction l as [|z l IH]; intros x [Hx Hs] y Hy.
    - apply elem_of_cons in Hy as [->|Hy]; [simpl; lia|].
      by apply elem_of_nil in Hy.
    - rewrite default_last_cons.
      apply elem_of_cons in Hy as [->|Hy]; [|by apply IH].
      rewrite Forall_forall in Hx.
      specialize (Hx _ (default_last_in z l)). lia. }
  pose proof (foldl_min_in x l) as Hmin.
  pose proof (foldl_min_le x l _ (default_last_in x l)) as Hle.
  specialize (Hlow _ Hmin). lia.
Qed.

Lemma descending_last_low (x : Z) (l : list Z) :
  descending (x :: l) → ∀ y, y ∈ x :: l → default x (last l) ≤ y.
Proof.
  revert x. induction l as [|z l IH]; intros x [Hx Hs] y Hy.
  - apply elem_of_cons in Hy as [->|Hy]; [simpl; lia|].
    by apply elem_of_nil in Hy.
  - rewrite default_last_cons.
    apply elem_of_cons in Hy as [->|Hy]; [|by apply IH].
    rewrite Forall_forall in Hx.
    specialize (Hx _ (default_last_in z l)). lia.
Qed.

Lemma descending_app (l1 l2 : list Z) :
  descending (l1 ++ l2) →
  descending l1 ∧ descending l2 ∧ ∀ a b, a ∈ l1 → b ∈ l2 → b < a.
Proof.
  induction l1 as [|x l1 IH]; simpl.
  - intros H. split_and!; [done..|]. by intros a b Ha%elem_of_nil.
  - intros [Hx Hs]. apply IH in Hs as (H1 & H2 & H3).
    apply Forall_app in Hx as [Hx1 Hx2]. split_and!; [done..|].
    intros a b [->|Ha]%elem_of_cons Hb; [|by apply H3].
    rewrite Forall_forall in Hx2. by apply Hx2.
Qed.

(** The offset after the messages [got] have been fetched: the id of
    the last of them, zero when there is none. *)
Local Abbreviation low got := (default 0 (last (map msg_id got))).

Lemma low_positive got :
  Forall (λ m, 0 < msg_id m ∧ is_empty_message m = false) got →
  got ≠ [] → 0 < low got.
Proof.
  intros Hall Hne. destruct got as [|m ms]; [done|].
  pose proof (default_last_in (msg_id m) (map msg_id ms)) as Hin.
  change (msg_id m :: map msg_id ms) with (map msg_id (m :: ms)) in Hin.
  assert (low (m :: ms) = default (msg_id m) (last (map msg_id ms))) as ->.
  { simpl. destruct (map msg_id ms) as [|w l] eqn:E; [done|].
    change (last (msg_id m :: w :: l)) with (last (w :: l)).
    destruct (last (w :: l)) eqn:E'; [done|]. by apply last_None in E'. }
  apply list_elem_of_fmap in Hin as (m' & -> & Hm').
  rewrite Forall_forall in Hall. by apply Hall.
Qed.

Lemma filter_all {A} (P : A → Prop) `{∀ x, Decision (P x)} (l : list A) :
  (∀ x, x ∈ l → P x) → filter P l = l.
Proof.
  induction l as [|x l IH]; [done|]. intros Hall.
  rewrite filter_cons_True by (apply Hall; left).
  f_equal. apply IH. intros y Hy. apply Hall. by right.
Qed.

Lemma filter_none {A} (P : A → Prop) `{∀ x, Decision (P x)} (l : list A) :
  (∀ x, x ∈ l → ¬ P x) → filter P l = [].
Proof.
  induction l as [|x l IH]; [done|]. intros Hall.
  rewrite filter_cons_False by (apply Hall; left).
  apply IH. intros y Hy. apply Hall. by right.
Qed.

Lemma served_rest got rest r :
  newest_first (got ++ rest) → offset_id r = low got →
  served_from (got ++ rest) r = take (Z.to_nat (limit r)) rest.
Proof.
  intros [Hdesc Hall] Hoff. unfold served_from. f_equal.
  rewrite map_app in Hdesc.
  apply descending_app in Hdesc as (Hd1 & Hd2 & Hcross).
  apply Forall_app in Hall as [Hall1 Hall2].
  destruct got as [|m ms].
  - simpl in *. apply filter_all. intros x _. by left.
  - pose proof (low_positive (m :: ms) Hall1 ltac:(done)) as Hpos.
    assert (Hlow : low (m :: ms)
                   = default (msg_id m) (last (map msg_id ms))).
    { simpl. destruct (map msg_id ms) as [|w l] eqn:E; [done|].
      change (last (msg_id m :: w :: l)) with (last (w :: l)).
      destruct (last (w :: l)) eqn:E'; [done|]. by apply last_None in E'. }
    rewrite filter_app, filter_none, filter_all; [done| |].
    + intros x Hx. right. rewrite Hoff. apply Hcross.
      * rewrite Hlow. apply default_last_in.
      * apply list_elem_of_fmap. by exists x.
    + intros x Hx [Hz|Hlt]; [lia|]. rewrite Hoff, Hlow in Hlt.
      pose proof (descending_last_low (msg_id m) (map msg_id ms) Hd1
                    (msg_id x)) as Hle.
      assert (msg_id x ∈ msg_id m :: map msg_id ms).
      { change (msg_id x ∈ map msg_id (m :: ms)).
        apply list_elem_of_fmap. by exists x. }
      specialize (Hle ltac:(done)). lia.
Qed.

Lemma low_app got page :
  page ≠ [] → low (got ++ page) = low page.
Proof.
  intros Hne. rewrite map_app.
  destruct (map msg_id page) as [|w l] eqn:E; [by destruct page|].
  by rewrite last_app_cons.
Qed.

Lemma low_page m ms :
  descending (map msg_id (m :: ms)) →
  foldl Z.min (msg_id m) (map msg_id ms) = low (m :: ms).
Proof.
  intros Hd. rewrite (descending_min_last (msg_id m) (map msg_id ms) Hd).
  simpl.
  destruct (map msg_id ms) as [|w l] eqn:E; [done|].
  change (last (msg_id m :: w :: l)) with (last (w :: l)).
  destruct (last (w :: l)) eqn:E'; [done|]. by apply last_None in E'.
Qed.

Lemma paging_fetches msgs target fuel :
  newest_first msgs → serves client msgs →
  ∀ got rest st st',
    msgs = got ++ rest →
    offset_id (req st) = low got →
    chunks_left st ≤ 0 → 0 < limit (req st) →
    paging pid client naming self fuel target st = Ok (st', Break) →
    ∃ fetched below,
      rest = fetched ++ below
      ∧ message_ids (pid target) (journal (dumper st'))
        = message_ids (pid target) (journal (dumper st))
          ++ map msg_id fetched
      ∧ Forall (λ m, msg_id m ≤ stop_at st) below.
Proof.
  intros Hnew Hserves.
  induction fuel as [|fuel IH];
    intros got rest st st' Hmsgs Hoff Hchunks Hlimit; [done|].
  simpl. intros H. unbind H. destruct a as [st2 f].
  unfold loop_body in E. unbind E. destruct a as [n st1].
  injection E as Hend.
  pose proof (end_of_page_message_ids (pid target) n st1) as Hkeep.
  rewrite Hend in Hkeep. simpl in Hkeep.
  apply (process_page_spec pid client naming self (pid target)) in E0
    as (h & Hh & -> & Hadds & Hs1 & Hc1 & Hl1 & Hoff1); [|done].
  destruct (Hserves (req st)) as (h' & Hh' & Hpage).
  rewrite Hh in Hh'. injection Hh' as <-.
  rewrite Hmsgs in Hpage.
  rewrite (served_rest got rest) in Hpage; [|by rewrite <- Hmsgs|done].
  set (page := take (Z.to_nat (limit (req st))) rest) in *.
  set (below := drop (Z.to_nat (limit (req st))) rest).
  assert (Hrest : rest = page ++ below)
    by (unfold page, below; by rewrite take_drop).
  pose proof Hnew as [Hdesc Hall].
  assert (Hpage_all : Forall (λ m, is_empty_message m = false) page).
  { apply Forall_forall. intros m Hm. rewrite Forall_forall in Hall.
    apply Hall. rewrite Hmsgs. apply elem_of_app. right.
    by eapply subseteq_take. }
  apply adds_message_ids in Hadds.
  rewrite Hpage, (persisted_ids_all _ Hpage_all) in Hadds.
  rewrite Hmsgs, map_app in Hdesc.
  apply descending_app in Hdesc as (_ & Hd2 & _).
  rewrite Hrest, map_app in Hd2.
  apply descending_app in Hd2 as (Hdpage & _ & Hcross).
  assert (Hoff' : offset_id (req st1) = low (got ++ page)).
  { rewrite Hpage in Hoff1. destruct page as [|m ms] eqn:Ep.
    - rewrite app_nil_r, Hoff1. done.
    - rewrite Hoff1, low_app by done. by apply low_page. }
  assert (Hlen : Z.of_nat (List.length (h_messages h))
                 = Z.of_nat (List.length page)) by by rewrite Hpage.
  unfold end_of_page in Hend. rewrite Hlen, Hl1 in Hend.
  case_bool_decide as Hshort.
  - injection Hend as <- <-. injection H as <-.
    exists page, []. rewrite Hkeep, Hadds.
    split_and!; [|done|done]. rewrite app_nil_r.
    unfold page in *. rewrite length_take in Hshort.
    symmetry. apply take_ge. lia.
  - assert (Hne : page ≠ []).
    { intros Hnil. rewrite Hnil in Hshort. simpl in Hshort. lia. }
    case_bool_decide as Hcaught.
    + injection Hend as <- <-. injection H as <-.
      exists page, below. rewrite Hkeep, Hadds.
      split_and!; [done|done|].
      apply Forall_forall. intros m Hm.
      rewrite Hoff', low_app, Hs1 in Hcaught by done.
      assert (msg_id m < low page); [|lia].
      apply Hcross; [|apply list_elem_of_fmap; by exists m].
      destruct page as [|p ps]; [done|].
      rewrite <- (low_page p ps Hdpage).
      apply (foldl_min_in (msg_id p) (map msg_id ps)).
    + case_bool_decide as Hbudget; [lia|].
      injection Hend as <- <-.
      edestruct (IH (got ++ page) below)
        as (fetched & below' & Hl & Hids & Hlow);
        [| | | |exact H|].
      * by rewrite Hmsgs, <- app_assoc, <- Hrest.
      * done.
      * simpl. lia.
      * simpl. lia.
      * exists (page ++ fetched), below'.
        split_and!.
        -- by rewrite <- app_assoc, <- Hl.
        -- rewrite Hids, map_app, app_assoc. f_equal.
           exact (eq_trans Hkeep Hadds).
        -- simpl in Hlow. by rewrite <- Hs1.
Qed.

Lemma serves_answers msgs :
  newest_first msgs → serves client msgs →
  entity_calls_succeed client →
  (∀ media path, ∃ r, client_download_media client media path = Ok r) →
  remote_answers client ∧ newest_first_remote client.
Proof.
  intros [_ Hall] Hserves Hent Hdl.
  assert (Hin : ∀ r m, m ∈ served_from msgs r →
            m ∈ msgs ∧ (offset_id r = 0 ∨ msg_id m < offset_id r)).
  { intros r m Hm. unfold served_from in Hm.
    apply subseteq_take, list_elem_of_filter in Hm as [Hm1 Hm2]. done. }
  rewrite Forall_forall in Hall. split.
  - split_and!; [done..|]. intros r.
    destruct (Hserves r) as (h & Hh & Hpage). exists h. split; [done|].
    rewrite Hpage. apply Forall_forall. intros m Hm.
    apply Hin in Hm as [Hm _]. by apply Hall.
  - intros r h Hh. destruct (Hserves r) as (h' & Hh' & Hpage).
    rewrite Hh in Hh'. injection Hh' as <-. rewrite Hpage.
    apply Forall_forall. intros m Hm. apply Hin in Hm as [Hm Hlow].
    split; [by apply Hall|]. intros Hnz. by destruct Hlow.
Qed.

(** X23. A run without page budget fetches everything between its
    cursor and its stop-at: when the remote serves the conversation
    newest first, in pages below the offset asked for, [save_messages]
    returns after finitely many pages, having written after what the
    store held, in order and once each, the messages below the offset
    of the cursor, down to a point below which every message has an id
    at most the stop-at.  With no stop-at set, as on a first run or
    after an interrupted first run, that is every message below the
    offset. *)
Theorem run_fetches_down_to_stop_at (d : Dumper) (target : entity)
    (got rest : list message) :
  0 < chunk_size d → max_chunks d ≤ 0 →
  newest_first (got ++ rest) → serves client (got ++ rest) →
  entity_calls_succeed client →
  (∀ media path, ∃ r, client_download_media client media path = Ok r) →
  (get_resume d (get_peer_id target)).1.1
    = default 0 (last (map msg_id got)) →
  ∃ fuel ed' d' fetched below,
    (∀ k, save_messages get_peer_id client naming self (fuel + k) d target
          = Ok (Some (ed', d')))
    ∧ rest = fetched ++ below
    ∧ message_ids (get_peer_id target) (journal d')
      = message_ids (get_peer_id target) (journal d) ++ map msg_id fetched
    ∧ Forall (λ m, msg_id m ≤ (get_resume d (get_peer_id target)).2) below
    ∧ ((get_resume d (get_peer_id target)).2 ≤ 0 → below = []).
Proof.
  intros Hsize Hbudget Hnew Hserves Hent Hdl Hoffset.
  destruct (serves_answers _ Hnew Hserves Hent Hdl) as [Hok Hremote].
  unfold save_messages.
  destruct (extend_pending_total pid client naming
              (EntityDownloader_init
                 (if bool_decide ("chatphoto" ∈ types self)
                  then Some (media_fmt self) else None)) d [target] Hent)
    as [[ed1 d1] E1].
  assert (∃ st0, save_messages_init pid client naming self d target
                 = Ok st0) as [st0 E0].
  { unfold save_messages_init. rewrite E1. simpl.
    destruct (get_resume d1 (pid target)) as [[o dt] sa]. by eexists. }
  rewrite E0. simpl.
  pose proof (save_messages_init_spec _ _ _ _ _ _ _ E0)
    as (Hadds & Hstop & Hl & Hoff & Hc).
  apply adds_message_ids in Hadds. rewrite app_nil_r in Hadds.
  destruct (paging_ends pid client naming self target st0 Hok Hremote)
    as (fuel & st1 & Hpaging); [lia|].
  destruct (drain_total pid client naming
              (List.length (_pending (entity_downloader st1)))
              (entity_downloader st1) (commit (dumper st1)) Hent)
    as [[ed' d'] Hdrain].
  destruct (paging_fetches (got ++ rest) target fuel Hnew Hserves
              got rest st0 st1) as (fetched & below & Hrest & Hids & Hlow);
    [done|congruence|lia|lia|done|].
  exists fuel, ed', d', fetched, below. split_and!.
  - intros k. rewrite (paging_break_stable _ _ _ _ _ _ _ _ Hpaging k).
    simpl. by rewrite Hdrain.
  - done.
  - apply (drain_adds pid client naming (pid target)) in Hdrain.
    assert (Hq : adds (pid target) [] (dumper st1) d').
    { eapply adds_nil_trans;
        [apply (adds_quiet _ (dumper st1) RowCommit); reflexivity
        |exact Hdrain]. }
    apply adds_message_ids in Hq. rewrite Hq, app_nil_r, Hids.
    by rewrite Hadds.
  - by rewrite <- Hstop.
  - intros Hzero. destruct below as [|m below]; [done|]. exfalso.
    apply Forall_cons in Hlow as [Hm _]. rewrite Hstop in Hm.
    destruct Hnew as [_ Hall]. rewrite Forall_forall in Hall.
    assert (0 < msg_id m); [|lia].
    apply Hall. rewrite Hrest. apply elem_of_app. right.
    apply elem_of_app. right. left.
Qed.

End FirstRun.

Section FirstRunScenarios.
Import Downloader Sim SimFirst.

(** The store [interrupted] is what a run with a budget of one page
    leaves. *)
Example interrupted_by_budget :
  save_messages mark_peer_id remote plain_naming all_media 1
    (fresh_dumper 2 1) me
  = Ok (Some (mkEntityDownloader None [] ∅ {[ 7 ]},
              mkDumper 2 1 (journal interrupted))).
Proof. vm_compute. reflexivity. Qed.

Lemma run_fetches_down_to_stop_at_witness :
  ∃ fuel ed' d' fetched below,
    (∀ k, save_messages mark_peer_id remote plain_naming all_media
            (fuel + k) interrupted me
          = Ok (Some (ed', d')))
    ∧ drop 2 talk = fetched ++ below
    ∧ message_ids (mark_peer_id me) (journal d')
      = message_ids (mark_peer_id me) (journal interrupted)
        ++ map msg_id fetched
    ∧ Forall (λ m, msg_id m ≤ (get_resume interrupted (mark_peer_id me)).2)
        below
    ∧ ((get_resume interrupted (mark_peer_id me)).2 ≤ 0 → below = []).
Proof.
  assert (Hsize : 0 < chunk_size interrupted) by reflexivity.
  assert (Hbudget : max_chunks interrupted ≤ 0) by (simpl; lia).
  assert (Hnew : newest_first (take 2 talk ++ drop 2 talk)).
  { split; simpl; repeat constructor; simpl; lia. }
  assert (Hserves : serves remote (take 2 talk ++ drop 2 talk)).
  { intros r. eexists. split; reflexivity. }
  assert (Hent : entity_calls_succeed remote).
  { repeat split; intros; by eexists. }
  assert (Hdl : ∀ media path,
            ∃ r, client_download_media remote media path = Ok r).
  { intros media path. by eexists. }
  assert (Hoffset : (get_resume interrupted (mark_peer_id me)).1.1
                    = default 0 (last (map msg_id (take 2 talk))))
    by reflexivity.
  exact (run_fetches_down_to_stop_at mark_peer_id remote plain_naming
           all_media interrupted me (take 2 talk) (drop 2 talk) Hsize
           Hbudget Hnew Hserves Hent Hdl Hoffset).
Defined.

End FirstRunScenarios.

(** ** downloader.py: file names end in their extension *)

Section FilenameFacts.
Import Filename.

Lemma list_ascii_app (a b : string) :
  list_ascii_of_string (a +:+ b)
  = list_ascii_of_string a ++ list_ascii_of_string b.
Proof.
  induction a as [|c a IH]; [done|].
  change (c :: list_ascii_of_string (a +:+ b)
          = c :: list_ascii_of_string a ++ list_ascii_of_string b).
  by rewrite IH.
Qed.

Lemma endswith_app (a e : string) : endswith (a +:+ e) e = true.
Proof.
  unfold endswith. apply bool_decide_eq_true. rewrite list_ascii_app.
  by apply suffix_app_r.
Qed.

Lemma drop_last_dot (name : string) : drop_last (name +:+ ".") = name.
Proof.
  induction name as [|c name IH]; [done|].
  change (drop_last (String c (name +:+ ".")) = String c name).
  simpl. rewrite IH. by destruct name.
Qed.

(** X24. The name of a file handed to the remote always ends in the
    extension: a name that already does is left as it is, so that
    enforcing the extension twice changes nothing more; otherwise the
    extension is appended, after a final dot of the name has been
    dropped, so that no two dots meet. *)
Theorem with_ext_ends (filename ext name : string) :
  endswith (with_ext filename ext) ext = true
  ∧ (endswith filename ext = true → with_ext filename ext = filename)
  ∧ with_ext (with_ext filename ext) ext = with_ext filename ext
  ∧ (endswith (name +:+ ".") ext = false →
     with_ext (name +:+ ".") ext = name +:+ ext).
Proof.
  assert (Hends : endswith (with_ext filename ext) ext = true).
  { unfold with_ext. destruct (endswith filename ext) eqn:E; [done|].
    apply endswith_app. }
  split_and!; [done| | |].
  - intros H. unfold with_ext. by rewrite H.
  - unfold with_ext at 1. by rewrite Hends.
  - intros H. unfold with_ext. rewrite H.
    assert (endswith (name +:+ ".") "." = true) as -> by apply endswith_app.
    by rewrite drop_last_dot.
Qed.

(** File names as they are formatted, and as they are handed over. *)
Example with_ext_examples :
  with_ext "out/photo_7" ".jpg" = "out/photo_7.jpg"
  ∧ with_ext "out/photo_7." ".jpg" = "out/photo_7.jpg"
  ∧ with_ext "out/photo_7.jpg" ".jpg" = "out/photo_7.jpg"
  ∧ with_ext "out/notes.txt" ".bin" = "out/notes.txt.bin".
Proof. repeat split. Qed.

End FilenameFacts.
